(** * argon2id: password hashing and verification

    A shallow embedding of [argon2id.go] (package [argon2id]) together with
    models of the Go library functions it calls:
    [strings.Split], [fmt.Sprintf], [fmt.Sscanf], [encoding/base64],
    [crypto/subtle.ConstantTimeCompare], [crypto/rand.Read] and
    [golang.org/x/crypto/argon2.IDKey].

    Go strings and byte slices are sequences of bytes: both are [list ascii]
    here.  Fixed-width unsigned integers are [Z] with the conversions that
    wrap written out ([uint8], [uint32]).  The two external effects of the
    package, reading random bytes and deriving a key, are events of a small
    program type [Prog]; [run] interprets them in a [World].  For the
    examples that need the very keys the library derives, its Argon2id is
    given in full ([xargon2], over [blake2b]). *)

From Stdlib Require Import ZArith NArith Lia List Bool Ascii String FinFun.
From Stdlib Require Import Permutation.
Import ListNotations.
Local Open Scope Z_scope.

(** ** Bytes, strings and machine integers *)

Definition byte := ascii.
Bind Scope char_scope with byte.
Definition bytes := list byte.
(** A Go [string]: an immutable sequence of bytes. *)
Definition gostring := list byte.

(** A Go string literal. *)
Definition str (s : string) : gostring := list_ascii_of_string s.

Definition byte_to_Z (b : byte) : Z := Z.of_N (N_of_ascii b).
(** [byte(z)]: conversion of an integer to a byte keeps the low 8 bits. *)
Definition byte_of_Z (z : Z) : byte := ascii_of_N (Z.to_N (z mod 256)).

Definition uint8 (z : Z) : Z := z mod 2 ^ 8.
Definition uint32 (z : Z) : Z := z mod 2 ^ 32.

Definition is_uint8 (z : Z) : Prop := 0 <= z < 2 ^ 8.
Definition is_uint32 (z : Z) : Prop := 0 <= z < 2 ^ 32.

(** [len(s)] as a Go [int]. *)
Definition len {A} (s : list A) : Z := Z.of_nat (List.length s).

Definition byte_eqb (a b : byte) : bool := Ascii.eqb a b.

Fixpoint bytes_eqb (x y : list byte) : bool :=
  match x, y with
  | [], [] => true
  | a :: x', b :: y' => byte_eqb a b && bytes_eqb x' y'
  | _, _ => false
  end.

(** ** Package [strings] *)

Module strings.

(** [strings.Split(s, sep)] for a one-byte separator: the substrings between
    the occurrences of [sep]; one more element than there are separators. *)
Fixpoint Split (s : gostring) (sep : byte) : list gostring :=
  match s with
  | [] => [[]]
  | c :: s' =>
      if byte_eqb c sep then [] :: Split s' sep
      else match Split s' sep with
           | [] => [[c]]
           | p :: ps => (c :: p) :: ps
           end
  end.

(** Number of occurrences of a byte. *)
Fixpoint Count (s : gostring) (sep : byte) : nat :=
  match s with
  | [] => 0
  | c :: s' => (if byte_eqb c sep then 1 else 0) + Count s' sep
  end.

End strings.

(** ** Errors *)

(** Go [error] values that can leave this package.  [Wrapf msg e] is
    [fmt.Errorf(msg + "%w", e)]: an error whose text starts with [msg] and
    that unwraps to [e]. *)
Inductive error : Type :=
| ErrMalformedHash                (* errors.New("malformed hash") *)
| ErrBytesNotRead                 (* errors.New("bytes not read") *)
| ErrPasswordsDoNotMatch          (* errors.New("passwords do not match") *)
| ErrEOF                          (* io.EOF *)
| ErrUnexpectedEOF                (* io.ErrUnexpectedEOF *)
| ScanError (msg : string)        (* errors.New(msg) raised by the scanner *)
| ErrRange                        (* strconv.NumError{Err: strconv.ErrRange} *)
| ErrSyntax                       (* strconv.NumError{Err: strconv.ErrSyntax} *)
| CorruptInputError               (* base64.CorruptInputError, offset left out *)
| RandError (msg : string)        (* an error of the random source *)
| Wrapf (msg : string) (e : error).

Definition error_eqb_head (a b : error) : bool :=
  match a, b with
  | ErrMalformedHash, ErrMalformedHash => true
  | ErrBytesNotRead, ErrBytesNotRead => true
  | ErrPasswordsDoNotMatch, ErrPasswordsDoNotMatch => true
  | ErrEOF, ErrEOF => true
  | ErrUnexpectedEOF, ErrUnexpectedEOF => true
  | _, _ => false
  end.

(** [errors.Is(err, target)] for a sentinel [target]: walks the chain of
    wrapped errors. *)
Fixpoint errors_Is (err target : error) : bool :=
  error_eqb_head err target ||
  match err with
  | Wrapf _ e => errors_Is e target
  | _ => false
  end.

(** ** Effects *)

(** The arguments of one call of [argon2.IDKey]. *)
Record IDKeyArgs : Type := mkIDKeyArgs {
  kdf_password : bytes;
  kdf_salt : bytes;
  kdf_time : Z;
  kdf_memory : Z;
  kdf_threads : Z;
  kdf_keyLen : Z
}.

(** What [rand.Read(buf)] leaves behind: the bytes it produced, the count
    [n] it reports and its error. *)
Record ReadResult : Type := mkReadResult {
  rr_data : bytes;
  rr_n : Z;
  rr_err : option error
}.

(** A computation that returns an [A] after reading random bytes and
    deriving keys. *)
Inductive Prog (A : Type) : Type :=
| Ret (a : A)
| RandRead (buflen : Z) (k : bytes -> Z -> option error -> Prog A)
| IDKeyCall (args : IDKeyArgs) (k : bytes -> Prog A).
Arguments Ret {A} a.
Arguments RandRead {A} buflen k.
Arguments IDKeyCall {A} args k.

(** ** Package [fmt] *)

Module fmt.

(** A format string, cut into its literal bytes and its verbs.  The formats
    of this package hold only plain literals, [%d] and [%s]. *)
Inductive item : Type :=
| Lit (c : byte)
| Verb_d
| Verb_s.
Definition format := list item.

(** Cuts a format string into its items.  Only [%d] and [%s] are verbs
    here; every other byte stands for itself. *)
Fixpoint parse (f : gostring) : format :=
  match f with
  | [] => []
  | c :: f' =>
      match f' with
      | v :: f'' =>
          if byte_eqb c "%" && byte_eqb v "d" then Verb_d :: parse f''
          else if byte_eqb c "%" && byte_eqb v "s" then Verb_s :: parse f''
          else Lit c :: parse f'
      | [] => [Lit c]
      end
  end.

(** The format string of a list of items. *)
Fixpoint unparse (f : format) : gostring :=
  match f with
  | [] => []
  | Lit c :: f' => c :: unparse f'
  | Verb_d :: f' => "%"%char :: "d"%char :: unparse f'
  | Verb_s :: f' => "%"%char :: "s"%char :: unparse f'
  end.

(** *** Printing *)

Definition digit_char (d : Z) : byte := byte_of_Z (48 + d).

(** The digit loop of [fmtInteger]: the buffer is filled from its end,
    [acc] is the part already written. *)
Fixpoint fmtDigits (fuel : nat) (u : Z) (acc : gostring) : gostring :=
  match fuel with
  | O => acc
  | S fuel' =>
      if 10 <=? u
      then let next := u / 10 in
           fmtDigits fuel' next (digit_char (u - next * 10) :: acc)
      else digit_char u :: acc
  end.

(** [%d] of an integer: a minus sign for a negative value, then the decimal
    digits of its magnitude. *)
Definition fmtInteger (z : Z) : gostring :=
  let u := Z.abs z in
  let ds := fmtDigits (S (Z.to_nat (Z.log2 u))) u [] in
  if z <? 0 then "-"%char :: ds else ds.

(** An operand of [Sprintf], with the name of its Go type. *)
Inductive arg : Type :=
| Int (z : Z)
| Uint32 (z : Z)
| Uint8 (z : Z)
| String_ (s : gostring).

Definition type_name (a : arg) : gostring :=
  match a with
  | Int _ => str "int"
  | Uint32 _ => str "uint32"
  | Uint8 _ => str "uint8"
  | String_ _ => str "string"
  end.

Definition print_value (a : arg) : gostring :=
  match a with
  | Int z | Uint32 z | Uint8 z => fmtInteger z
  | String_ s => s
  end.

Definition print_verb (verb : byte) (a : arg) : gostring :=
  match verb, a with
  | "d"%char, (Int z | Uint32 z | Uint8 z) => fmtInteger z
  | "s"%char, String_ s => s
  | _, _ => str "%!" ++ [verb] ++ str "(" ++ type_name a ++ str "="
            ++ print_value a ++ str ")"
  end.

Fixpoint print_extra (args : list arg) : gostring :=
  match args with
  | [] => []
  | [a] => type_name a ++ str "=" ++ print_value a
  | a :: rest => type_name a ++ str "=" ++ print_value a ++ str ", "
                 ++ print_extra rest
  end.

(** [pp.doPrintf]: literals are copied, each verb prints the next
    operand. *)
Fixpoint doPrintf (f : format) (args : list arg) : gostring :=
  match f with
  | [] => match args with
          | [] => []
          | _ => str "%!(EXTRA " ++ print_extra args ++ str ")"
          end
  | Lit c :: f' => c :: doPrintf f' args
  | Verb_d :: f' =>
      match args with
      | [] => str "%!d(MISSING)" ++ doPrintf f' []
      | a :: args' => print_verb "d" a ++ doPrintf f' args'
      end
  | Verb_s :: f' =>
      match args with
      | [] => str "%!s(MISSING)" ++ doPrintf f' []
      | a :: args' => print_verb "s" a ++ doPrintf f' args'
      end
  end.

(** [fmt.Sprintf(format, args...)]. *)
Definition Sprintf (f : gostring) (args : list arg) : gostring :=
  doPrintf (parse f) args.

(** *** Scanning *)

(** The state of a scan is the input that is left. *)
Inductive result (A : Type) : Type :=
| Ok (a : A) (rest : gostring)
| Err (e : error).
Arguments Ok {A} a rest.
Arguments Err {A} e.

(** Width in bytes of the space character (the scanner's [isSpace] table,
    in UTF-8) that [s] starts with; 0 when it starts with none. *)
Definition space_width (s : gostring) : nat :=
  match s with
  | [] => 0
  | c0 :: s1 =>
      let b0 := byte_to_Z c0 in
      if ((9 <=? b0) && (b0 <=? 13)) || (b0 =? 32) then 1
      else match s1 with
      | [] => 0
      | c1 :: s2 =>
          let b1 := byte_to_Z c1 in
          if (b0 =? 194) && ((b1 =? 133) || (b1 =? 160)) then 2 (* U+0085, U+00A0 *)
          else match s2 with
          | [] => 0
          | c2 :: _ =>
              let b2 := byte_to_Z c2 in
              if (b0 =? 225) && (b1 =? 154) && (b2 =? 128) then 3 (* U+1680 *)
              else if (b0 =? 226) && (b1 =? 128)
                      && (((128 <=? b2) && (b2 <=? 138))  (* U+2000..U+200A *)
                          || (b2 =? 168) || (b2 =? 169)    (* U+2028, U+2029 *)
                          || (b2 =? 175))                  (* U+202F *)
                   then 3
              else if (b0 =? 226) && (b1 =? 129) && (b2 =? 159) then 3 (* U+205F *)
              else if (b0 =? 227) && (b1 =? 128) && (b2 =? 128) then 3 (* U+3000 *)
              else 0
          end
      end
  end.

Definition peek (s : gostring) (c : byte) : bool :=
  match s with
  | [] => false
  | x :: _ => byte_eqb x c
  end.

Definition CR : byte := ascii_of_nat 13.
Definition LF : byte := ascii_of_nat 10.

(** [ss.SkipSpace] with [nlIsSpace] false, as [Sscanf] runs it: spaces
    are skipped, a carriage return before a newline is skipped, a newline
    is an error. *)
Fixpoint SkipSpace_loop (fuel : nat) (s : gostring) : result unit :=
  match fuel with
  | O => Ok tt s
  | S fuel' =>
      match s with
      | [] => Ok tt []
      | c :: s' =>
          if byte_eqb c CR && peek s' LF then SkipSpace_loop fuel' s'
          else if byte_eqb c LF then Err (ScanError "unexpected newline")
          else match space_width s with
               | O => Ok tt s
               | w => SkipSpace_loop fuel' (skipn w s)
               end
      end
  end.

Definition SkipSpace (s : gostring) : result unit :=
  SkipSpace_loop (List.length s) s.

(** [ss.notEOF]: at the end of the input it panics with [io.EOF], which
    the scan returns as its error. *)
Definition notEOF (s : gostring) : result unit :=
  match s with
  | [] => Err ErrEOF
  | _ => Ok tt s
  end.

Definition is_digit (c : byte) : bool :=
  let b := byte_to_Z c in (48 <=? b) && (b <=? 57).

Definition is_sign (c : byte) : bool :=
  byte_eqb c "+" || byte_eqb c "-".

(** [for s.accept(ok) {}]: the longest prefix of accepted bytes. *)
Fixpoint accept_all (ok : byte -> bool) (s : gostring) : gostring * gostring :=
  match s with
  | [] => ([], [])
  | c :: s' =>
      if ok c then let (tok, rest) := accept_all ok s' in (c :: tok, rest)
      else ([], s)
  end.

(** [ss.scanNumber(decimalDigits, false)]. *)
Definition scanNumber (s : gostring) : result gostring :=
  match s with
  | [] => Err ErrEOF
  | c :: s' =>
      if is_digit c
      then let (tok, rest) := accept_all is_digit s' in Ok (c :: tok) rest
      else Err (ScanError "expected integer")
  end.

(** Value of a string of decimal digits, most significant first. *)
Definition decimal_value (tok : gostring) : Z :=
  fold_left (fun n c => n * 10 + (byte_to_Z c - 48)) tok 0.

(** [strconv.ParseUint(tok, 10, 64)]. *)
Definition ParseUint (tok : gostring) : error + Z :=
  match tok with
  | [] => inl ErrSyntax
  | _ =>
      if forallb is_digit tok
      then let v := decimal_value tok in
           if v <? 2 ^ 64 then inr v else inl ErrRange
      else inl ErrSyntax
  end.

(** [strconv.ParseInt(tok, 10, 64)]: an optional sign, then [ParseUint]. *)
Definition ParseInt (tok : gostring) : error + Z :=
  let (neg, digits) :=
    match tok with
    | c :: tok' => if byte_eqb c "+" then (false, tok')
                   else if byte_eqb c "-" then (true, tok')
                   else (false, tok)
    | [] => (false, [])
    end in
  match tok with
  | [] => inl ErrSyntax
  | _ =>
    match digits with
    | [] => inl ErrSyntax
    | _ =>
      if forallb is_digit digits
      then let un := decimal_value digits in
           if negb neg && (2 ^ 63 <=? un) then inl ErrRange
           else if neg && (2 ^ 63 <? un) then inl ErrRange
           else inr (if neg then - un else un)
      else inl ErrSyntax
    end
  end.

(** [ss.scanUint('d', bitSize)]. *)
Definition scanUint (bitSize : Z) (s : gostring) : result Z :=
  match SkipSpace s with
  | Err e => Err e
  | Ok _ s1 =>
  match notEOF s1 with
  | Err e => Err e
  | Ok _ s2 =>
  match scanNumber s2 with
  | Err e => Err e
  | Ok tok s3 =>
  match ParseUint tok with
  | inl e => Err e
  | inr i =>
      if i <? 2 ^ bitSize then Ok i s3
      else Err (ScanError (String.append "unsigned integer overflow on token "
                                         (string_of_list_ascii tok)))
  end end end end.

(** [ss.scanInt('d', bitSize)]. *)
Definition scanInt (bitSize : Z) (s : gostring) : result Z :=
  match SkipSpace s with
  | Err e => Err e
  | Ok _ s1 =>
  match notEOF s1 with
  | Err e => Err e
  | Ok _ s2 =>
  let (sgn, s3) :=
    match s2 with
    | c :: s' => if is_sign c then ([c], s') else ([], s2)
    | [] => ([], s2)
    end in
  match scanNumber s3 with
  | Err e => Err e
  | Ok tok s4 =>
  match ParseInt (sgn ++ tok) with
  | inl e => Err e
  | inr i =>
      if (- 2 ^ (bitSize - 1) <=? i) && (i <? 2 ^ (bitSize - 1)) then Ok i s4
      else Err (ScanError (String.append "integer overflow on token "
                                         (string_of_list_ascii (sgn ++ tok))))
  end end end end.

(** The pointers a scan can store through. *)
Inductive target : Type :=
| IntPtr       (* *int, 64 bits wide *)
| Uint32Ptr    (* *uint32 *)
| Uint8Ptr.    (* *uint8 *)

(** [ss.scanOne('d', arg)]. *)
Definition scanOne (t : target) (s : gostring) : result Z :=
  match t with
  | IntPtr => scanInt 64 s
  | Uint32Ptr => scanUint 32 s
  | Uint8Ptr => scanUint 8 s
  end.

(** The error of a verb that has no operand left; [rest] is the format
    from the verb on. *)
Definition too_few_operands (rest : gostring) : error :=
  ScanError (String.append "too few operands for format '%"
               (String.append (string_of_list_ascii rest) "'")).

(** [ss.doScanf]: literals of the format must match the input byte for
    byte; a verb skips spaces and scans one operand.  Input left over when
    the format is used up is not an error. *)
Fixpoint doScanf (f : format) (s : gostring) (targets : list target)
  : error + list Z :=
  match f with
  | [] =>
      match targets with
      | [] => inr []
      | _ => inl (ScanError "too many operands")
      end
  | Lit c :: f' =>
      match s with
      | [] => inl ErrUnexpectedEOF
      | x :: s' =>
          if byte_eqb x c then doScanf f' s' targets
          else inl (ScanError "input does not match format")
      end
  | Verb_s :: f' =>
      match SkipSpace s with
      | Err e => inl e
      | Ok _ s1 =>
          match targets with
          | [] => inl (too_few_operands ("s"%char :: unparse f'))
          | _ :: _ =>
              match notEOF s1 with
              | Err e => inl e
              | Ok _ _ => inl (ScanError "bad verb '%s' for integer")
              end
          end
      end
  | Verb_d :: f' =>
      match SkipSpace s with
      | Err e => inl e
      | Ok _ s1 =>
          match targets with
          | [] => inl (too_few_operands ("d"%char :: unparse f'))
          | t :: targets' =>
              match scanOne t s1 with
              | Err e => inl e
              | Ok v s2 =>
                  match doScanf f' s2 targets' with
                  | inl e => inl e
                  | inr vs => inr (v :: vs)
                  end
              end
          end
      end
  end.

(** [fmt.Sscanf(str, format, targets...)]: the values stored through the
    targets, or the error. *)
Definition Sscanf (s : gostring) (f : gostring) (targets : list target)
  : error + list Z :=
  doScanf (parse f) s targets.

End fmt.

(** ** Package [encoding/base64] *)

Module base64.

(** The standard alphabet. *)
Definition encodeStd : gostring :=
  str "ABCDEFGHIJKLMNOPQRSTUVWXYZabcdefghijklmnopqrstuvwxyz0123456789+/".

(** [enc.encode[i]]. *)
Definition encode (i : Z) : byte := nth (Z.to_nat i) encodeStd "A"%char.

Fixpoint index_of (c : byte) (l : gostring) (i : Z) : Z :=
  match l with
  | [] => 255
  | x :: l' => if byte_eqb x c then i else index_of c l' (i + 1)
  end.

(** [enc.decodeMap[c]]: the position of [c] in the alphabet, 0xff for a
    byte outside it. *)
Definition decodeMap (c : byte) : Z := index_of c encodeStd 0.

Definition CR : byte := ascii_of_nat 13.
Definition LF : byte := ascii_of_nat 10.

(** The decoder steps over carriage returns and newlines. *)
Definition skip_newlines (s : gostring) : gostring :=
  filter (fun c => negb (byte_eqb c CR || byte_eqb c LF)) s.

Module RawStdEncoding.

(** [base64.RawStdEncoding.EncodeToString(src)]: three bytes give four
    characters; a last group of one or two bytes gives two or three
    characters, and no padding is written. *)
Fixpoint EncodeToString (src : bytes) : gostring :=
  match src with
  | [] => []
  | [a] =>
      let val := Z.shiftl (byte_to_Z a) 16 in
      [encode (Z.land (Z.shiftr val 18) 63);
       encode (Z.land (Z.shiftr val 12) 63)]
  | [a; b] =>
      let val := Z.lor (Z.shiftl (byte_to_Z a) 16) (Z.shiftl (byte_to_Z b) 8) in
      [encode (Z.land (Z.shiftr val 18) 63);
       encode (Z.land (Z.shiftr val 12) 63);
       encode (Z.land (Z.shiftr val 6) 63)]
  | a :: b :: c :: rest =>
      let val := Z.lor (Z.lor (Z.shiftl (byte_to_Z a) 16)
                              (Z.shiftl (byte_to_Z b) 8)) (byte_to_Z c) in
      encode (Z.land (Z.shiftr val 18) 63)
      :: encode (Z.land (Z.shiftr val 12) 63)
      :: encode (Z.land (Z.shiftr val 6) 63)
      :: encode (Z.land val 63)
      :: EncodeToString rest
  end.

Module Strict.

(** One quantum of the decoder: up to four characters [d0..d3] (alphabet
    positions) give up to three bytes.  In strict mode the bits of a short
    last quantum that belong to no byte must be zero. *)
Definition quantum_val (d0 d1 d2 d3 : Z) : Z :=
  Z.lor (Z.lor (Z.lor (Z.shiftl d0 18) (Z.shiftl d1 12)) (Z.shiftl d2 6)) d3.

Fixpoint decode (s : gostring) : option bytes :=
  match s with
  | [] => Some []
  | [c0] => None
  | [c0; c1] =>
      let d0 := decodeMap c0 in
      let d1 := decodeMap c1 in
      if (d0 =? 255) || (d1 =? 255) then None
      else
        let val := quantum_val d0 d1 0 0 in
        let dbuf2 := byte_of_Z val in
        let dbuf1 := byte_of_Z (Z.shiftr val 8) in
        let dbuf0 := byte_of_Z (Z.shiftr val 16) in
        if negb (byte_eqb dbuf1 zero) || negb (byte_eqb dbuf2 zero) then None
        else Some [dbuf0]
  | [c0; c1; c2] =>
      let d0 := decodeMap c0 in
      let d1 := decodeMap c1 in
      let d2 := decodeMap c2 in
      if (d0 =? 255) || (d1 =? 255) || (d2 =? 255) then None
      else
        let val := quantum_val d0 d1 d2 0 in
        let dbuf2 := byte_of_Z val in
        let dbuf1 := byte_of_Z (Z.shiftr val 8) in
        let dbuf0 := byte_of_Z (Z.shiftr val 16) in
        if negb (byte_eqb dbuf2 zero) then None
        else Some [dbuf0; dbuf1]
  | c0 :: c1 :: c2 :: c3 :: rest =>
      let d0 := decodeMap c0 in
      let d1 := decodeMap c1 in
      let d2 := decodeMap c2 in
      let d3 := decodeMap c3 in
      if (d0 =? 255) || (d1 =? 255) || (d2 =? 255) || (d3 =? 255) then None
      else
        let val := quantum_val d0 d1 d2 d3 in
        match decode rest with
        | None => None
        | Some out =>
            Some (byte_of_Z (Z.shiftr val 16) :: byte_of_Z (Z.shiftr val 8)
                  :: byte_of_Z val :: out)
        end
  end.

(** [base64.RawStdEncoding.Strict().DecodeString(s)]. *)
Definition DecodeString (s : gostring) : error + bytes :=
  match decode (skip_newlines s) with
  | Some out => inr out
  | None => inl CorruptInputError
  end.

End Strict.
End RawStdEncoding.
End base64.

(** ** Package [crypto/subtle] *)

Module subtle.

(** [subtle.ConstantTimeByteEq(x, y)]: 1 when the two bytes are equal, 0
    otherwise, computed without a branch. *)
Definition ConstantTimeByteEq (x y : Z) : Z :=
  Z.shiftr (uint32 (uint32 (Z.lxor x y) - 1)) 31.

(** What an observer of control flow and memory addresses sees. *)
Inductive observation : Type :=
| Branch (taken : bool)
| Index (i : Z).

(** The loop [for i := 0; i < len(x); i++ { v |= x[i] ^ y[i] }], started at
    index [i] with accumulator [v]; it returns [v] and what it leaked. *)
Fixpoint xor_loop (i : Z) (v : Z) (x y : bytes) : Z * list observation :=
  match x, y with
  | a :: x', b :: y' =>
      let v' := uint8 (Z.lor v (Z.lxor (byte_to_Z a) (byte_to_Z b))) in
      let (r, obs) := xor_loop (i + 1) v' x' y' in
      (r, Branch true :: Index i :: obs)
  | _, _ => (v, [Branch false])
  end.

(** [subtle.ConstantTimeCompare(x, y)] with its leakage. *)
Definition ConstantTimeCompare_run (x y : bytes) : Z * list observation :=
  if negb (len x =? len y) then (0, [Branch true])
  else let (v, obs) := xor_loop 0 0 x y in
       (ConstantTimeByteEq v 0, Branch false :: obs).

(** [subtle.ConstantTimeCompare(x, y)]: 1 when the slices are equal, 0
    otherwise. *)
Definition ConstantTimeCompare (x y : bytes) : Z :=
  fst (ConstantTimeCompare_run x y).

End subtle.

(** ** The environment: random source and key derivation *)

(** [rand_Read n] is what [crypto/rand.Read] does on a buffer of [n] bytes.
    [derive] is the Argon2id computation of
    [golang.org/x/crypto/argon2] behind its argument checks; [None] stands
    for a call that does not return (a panic). *)
Record World : Type := mkWorld {
  rand_Read : Z -> ReadResult;
  derive : IDKeyArgs -> option bytes
}.

Module argon2.

(** [argon2.Version], 0x13. *)
Definition Version : Z := 19.

(** [argon2.IDKey(password, salt, time, memory, threads, keyLen)].  The
    library panics when [time < 1] ("number of rounds too small") and when
    [threads < 1] ("parallelism degree too low"). *)
Definition IDKey (w : World) (args : IDKeyArgs) : option bytes :=
  if kdf_time args <? 1 then None
  else if kdf_threads args <? 1 then None
  else derive w args.

End argon2.

(** The buffer [make([]byte, n, n)] after [rand.Read] wrote [data] into it:
    its length stays [n]. *)
Definition fill (n : Z) (data : bytes) : bytes :=
  firstn (Z.to_nat n) (data ++ repeat zero (Z.to_nat n)).

(** Runs a program in a world; [None] when a call did not return. *)
Fixpoint run {A : Type} (w : World) (p : Prog A) : option A :=
  match p with
  | Ret a => Some a
  | RandRead buflen k =>
      let r := rand_Read w buflen in
      run w (k (fill buflen (rr_data r)) (rr_n r) (rr_err r))
  | IDKeyCall args k =>
      match argon2.IDKey w args with
      | None => None
      | Some key => run w (k key)
      end
  end.

(** ** Package [argon2id] *)

(** [func init()]: the value stored in [defaultParallelismCost], given
    what [runtime.NumCPU()] returns. *)
Definition init (NumCPU : Z) : Z := uint8 NumCPU.

Definition template : gostring := str "$argon2id$v=%d$m=%d,t=%d,p=%d$%s$%s".
Definition versionTemplate : gostring := str "v=%d".
Definition paramsTemplate : gostring := str "m=%d,t=%d,p=%d".
Definition splitChar : byte := "$".

Definition algorithmIdx : nat := 1.
Definition versionIdx : nat := 2.
Definition paramsIdx : nat := 3.
Definition saltIdx : nat := 4.
Definition keyIdx : nat := 5.

Definition numParts : Z := 6.

Definition matching : Z := 1.

Definition algorithm : gostring := str "argon2id".
Definition defaultTimeCost : Z := 2.
Definition defaultMemoryCost : Z := 65536.
Definition defaultSaltLength : Z := 16.
Definition defaultKeyLength : Z := 32.

Record Argon2Id : Type := mkArgon2Id {
  timeCost : Z;          (* uint32 *)
  memoryCost : Z;        (* uint32 *)
  parallelismCost : Z;   (* uint8 *)
  saltLength : Z;        (* uint32 *)
  keyLength : Z          (* uint32 *)
}.

(** The fields hold values of their Go types. *)
Definition wf (a : Argon2Id) : Prop :=
  is_uint32 (timeCost a) /\ is_uint32 (memoryCost a)
  /\ is_uint8 (parallelismCost a)
  /\ is_uint32 (saltLength a) /\ is_uint32 (keyLength a).

(** [type Argon2IdOption]: a function on a pointer to [Argon2Id], as: the update it makes. *)
Definition Argon2IdOption := Argon2Id -> Argon2Id.

Definition WithTimeCost (timeCost' : Z) : Argon2IdOption :=
  fun a => mkArgon2Id timeCost' (memoryCost a) (parallelismCost a)
                      (saltLength a) (keyLength a).

Definition WithMemoryCost (memoryCost' : Z) : Argon2IdOption :=
  fun a => mkArgon2Id (timeCost a) memoryCost' (parallelismCost a)
                      (saltLength a) (keyLength a).

Definition WithParallelismCost (parallelismCost' : Z) : Argon2IdOption :=
  fun a => mkArgon2Id (timeCost a) (memoryCost a) parallelismCost'
                      (saltLength a) (keyLength a).

Definition WithSaltLength (saltLength' : Z) : Argon2IdOption :=
  fun a => mkArgon2Id (timeCost a) (memoryCost a) (parallelismCost a)
                      saltLength' (keyLength a).

Definition WithKeyLength (keyLength' : Z) : Argon2IdOption :=
  fun a => mkArgon2Id (timeCost a) (memoryCost a) (parallelismCost a)
                      (saltLength a) keyLength'.

(** [func New(options ...Argon2IdOption) *Argon2Id], reading the package
    variable [defaultParallelismCost]. *)
Definition New (defaultParallelismCost : Z) (options : list Argon2IdOption)
  : Argon2Id :=
  let a := mkArgon2Id defaultTimeCost defaultMemoryCost
                      defaultParallelismCost
                      defaultSaltLength defaultKeyLength in
  if len options =? 0 then a
  else fold_left (fun a option => option a) options a.

(** [fmt.Errorf(msg + "%w", err)]. *)
Definition Errorf (msg : string) (err : error) : error := Wrapf msg err.

(** [func (a *Argon2Id) Generate(password []byte) (string, error)]. *)
Definition Generate (a : Argon2Id) (password : bytes)
  : Prog (gostring * option error) :=
  RandRead (saltLength a) (fun salt n err =>
    match err with
    | Some err => Ret ([], Some (Errorf "argon2id: generate salt: " err))
    | None =>
      if negb (n =? saltLength a)
      then Ret ([], Some (Errorf "argon2id: generate salt: " ErrBytesNotRead))
      else
        IDKeyCall (mkIDKeyArgs password salt (timeCost a) (memoryCost a)
                               (parallelismCost a) (keyLength a))
          (fun key =>
             let b64Salt := base64.RawStdEncoding.EncodeToString salt in
             let b64Key := base64.RawStdEncoding.EncodeToString key in
             Ret (fmt.Sprintf template
                    [fmt.Int argon2.Version; fmt.Uint32 (memoryCost a);
                     fmt.Uint32 (timeCost a); fmt.Uint8 (parallelismCost a);
                     fmt.String_ b64Salt; fmt.String_ b64Key],
                  None))
    end).

(** The last step of [Compare]: the stored key against the recomputed
    one. *)
Definition compare_keys (key comparisonKey : bytes) : option error :=
  if subtle.ConstantTimeCompare key comparisonKey =? matching then None
  else Some (Errorf "argon2id: " ErrPasswordsDoNotMatch).

(** [func (a *Argon2Id) Compare(password []byte, hash string) error]. *)
Definition Compare (a : Argon2Id) (password : bytes) (hash : gostring)
  : Prog (option error) :=
  let parts := strings.Split hash splitChar in
  if negb (len parts =? numParts)
  then Ret (Some (Errorf "argon2id: parts: " ErrMalformedHash))
  else
  if negb (bytes_eqb (nth algorithmIdx parts []) algorithm)
  then Ret (Some (Errorf "argon2id: algorithm: " ErrMalformedHash))
  else
  match fmt.Sscanf (nth versionIdx parts []) versionTemplate [fmt.IntPtr] with
  | inl err => Ret (Some (Errorf "argon2id: scan version: " err))
  | inr vs =>
  let version := nth 0 vs 0 in
  match fmt.Sscanf (nth paramsIdx parts []) paramsTemplate
                   [fmt.Uint32Ptr; fmt.Uint32Ptr; fmt.Uint8Ptr] with
  | inl err => Ret (Some (Errorf "argon2id: scan params: " err))
  | inr ps =>
  let memoryCost := nth 0 ps 0 in
  let timeCost := nth 1 ps 0 in
  let parallelismCost := nth 2 ps 0 in
  match base64.RawStdEncoding.Strict.DecodeString (nth saltIdx parts []) with
  | inl err => Ret (Some (Errorf "argon2id: decode salt: " err))
  | inr salt =>
  match base64.RawStdEncoding.Strict.DecodeString (nth keyIdx parts []) with
  | inl err => Ret (Some (Errorf "argon2id: decode key: " err))
  | inr key =>
      IDKeyCall (mkIDKeyArgs password salt timeCost memoryCost parallelismCost
                             (uint32 (len key)))
        (fun comparisonKey => Ret (compare_keys key comparisonKey))
  end end end end.

(** [Prog] is a functor. *)
Fixpoint Prog_map {A B : Type} (f : A -> B) (p : Prog A) : Prog B :=
  match p with
  | Ret a => Ret (f a)
  | RandRead buflen k => RandRead buflen (fun data n err => Prog_map f (k data n err))
  | IDKeyCall args k => IDKeyCall args (fun key => Prog_map f (k key))
  end.

(** The last step of [Compare] with what it shows: the one run of
    [subtle.ConstantTimeCompare] gives the result and, next to it, what
    an observer of control flow and memory addresses sees of that run. *)
Definition compare_keys_observed (key comparisonKey : bytes)
  : option error * list subtle.observation :=
  let r := subtle.ConstantTimeCompare_run key comparisonKey in
  (if fst r =? matching then None
   else Some (Errorf "argon2id: " ErrPasswordsDoNotMatch),
   snd r).

(** [Compare] under observation: the same function, returning next to its
    result what its final comparison shows to such an observer.  The steps
    before the comparison are not observed. *)
Definition Compare_observed (a : Argon2Id) (password : bytes) (hash : gostring)
  : Prog (option error * list subtle.observation) :=
  let parts := strings.Split hash splitChar in
  if negb (len parts =? numParts)
  then Ret (Some (Errorf "argon2id: parts: " ErrMalformedHash), [])
  else
  if negb (bytes_eqb (nth algorithmIdx parts []) algorithm)
  then Ret (Some (Errorf "argon2id: algorithm: " ErrMalformedHash), [])
  else
  match fmt.Sscanf (nth versionIdx parts []) versionTemplate [fmt.IntPtr] with
  | inl err => Ret (Some (Errorf "argon2id: scan version: " err), [])
  | inr vs =>
  let version := nth 0 vs 0 in
  match fmt.Sscanf (nth paramsIdx parts []) paramsTemplate
                   [fmt.Uint32Ptr; fmt.Uint32Ptr; fmt.Uint8Ptr] with
  | inl err => Ret (Some (Errorf "argon2id: scan params: " err), [])
  | inr ps =>
  let memoryCost := nth 0 ps 0 in
  let timeCost := nth 1 ps 0 in
  let parallelismCost := nth 2 ps 0 in
  match base64.RawStdEncoding.Strict.DecodeString (nth saltIdx parts []) with
  | inl err => Ret (Some (Errorf "argon2id: decode salt: " err), [])
  | inr salt =>
  match base64.RawStdEncoding.Strict.DecodeString (nth keyIdx parts []) with
  | inl err => Ret (Some (Errorf "argon2id: decode key: " err), [])
  | inr key =>
      IDKeyCall (mkIDKeyArgs password salt timeCost memoryCost parallelismCost
                             (uint32 (len key)))
        (fun comparisonKey => Ret (compare_keys_observed key comparisonKey))
  end end end end.

(** ** The key derivation of the library *)

(** [golang.org/x/crypto/blake2b], unkeyed, as RFC 7693 defines it; bytes
    and 64-bit words are numbers here. *)
Module blake2b.

Definition Size : Z := 64.
Definition BlockSize : Z := 128.

Definition w64 (x : Z) : Z := Z.land x 0xFFFFFFFFFFFFFFFF.

Definition rotr (x n : Z) : Z :=
  Z.lor (Z.shiftr x n) (w64 (Z.shiftl x (64 - n))).

Definition iv : list Z :=
  [0x6a09e667f3bcc908; 0xbb67ae8584caa73b; 0x3c6ef372fe94f82b;
   0xa54ff53a5f1d36f1; 0x510e527fade682d1; 0x9b05688c2b3e6c1f;
   0x1f83d9abfb41bd6b; 0x5be0cd19137e2179].

Definition sigma : list (list nat) :=
  [[0; 1; 2; 3; 4; 5; 6; 7; 8; 9; 10; 11; 12; 13; 14; 15];
   [14; 10; 4; 8; 9; 15; 13; 6; 1; 12; 0; 2; 11; 7; 5; 3];
   [11; 8; 12; 0; 5; 2; 15; 13; 10; 14; 3; 6; 7; 1; 9; 4];
   [7; 9; 3; 1; 13; 12; 11; 14; 2; 6; 5; 10; 4; 0; 15; 8];
   [9; 0; 5; 7; 2; 4; 10; 15; 14; 1; 11; 12; 6; 8; 3; 13];
   [2; 12; 6; 10; 0; 11; 8; 3; 4; 13; 7; 5; 15; 14; 1; 9];
   [12; 5; 1; 15; 14; 13; 4; 10; 0; 7; 6; 3; 9; 2; 8; 11];
   [13; 11; 7; 14; 12; 1; 3; 9; 5; 0; 15; 4; 8; 6; 2; 10];
   [6; 15; 14; 9; 11; 3; 0; 8; 12; 2; 13; 7; 1; 4; 10; 5];
   [10; 2; 8; 4; 7; 6; 1; 5; 15; 11; 9; 14; 3; 12; 13; 0]]%nat.

(** [v[i] = x]. *)
Fixpoint set (i : nat) (x : Z) (v : list Z) : list Z :=
  match v, i with
  | [], _ => []
  | _ :: v', O => x :: v'
  | y :: v', S i' => y :: set i' x v'
  end.

(** The mixing function on the words [a], [b], [c], [d] of the state, with
    the message words [x] and [y]. *)
Definition G (v : list Z) (a b c d : nat) (x y : Z) : list Z :=
  let va := nth a v 0 in
  let vb := nth b v 0 in
  let vc := nth c v 0 in
  let vd := nth d v 0 in
  let va := w64 (va + vb + x) in
  let vd := rotr (Z.lxor vd va) 32 in
  let vc := w64 (vc + vd) in
  let vb := rotr (Z.lxor vb vc) 24 in
  let va := w64 (va + vb + y) in
  let vd := rotr (Z.lxor vd va) 16 in
  let vc := w64 (vc + vd) in
  let vb := rotr (Z.lxor vb vc) 63 in
  set a va (set b vb (set c vc (set d vd v))).

(** One round: the columns, then the diagonals, with the message words in
    the order [s]. *)
Definition round (m : list Z) (s : list nat) (v : list Z) : list Z :=
  let w i := nth (nth i s O) m 0 in
  let v := G v 0 4 8 12 (w 0%nat) (w 1%nat) in
  let v := G v 1 5 9 13 (w 2%nat) (w 3%nat) in
  let v := G v 2 6 10 14 (w 4%nat) (w 5%nat) in
  let v := G v 3 7 11 15 (w 6%nat) (w 7%nat) in
  let v := G v 0 5 10 15 (w 8%nat) (w 9%nat) in
  let v := G v 1 6 11 12 (w 10%nat) (w 11%nat) in
  let v := G v 2 7 8 13 (w 12%nat) (w 13%nat) in
  G v 3 4 9 14 (w 14%nat) (w 15%nat).

Fixpoint rounds (n : nat) (r : nat) (m v : list Z) : list Z :=
  match n with
  | O => v
  | S n' => rounds n' (S r) m (round m (nth (r mod 10) sigma []) v)
  end.

Fixpoint xor3 (h a b : list Z) : list Z :=
  match h, a, b with
  | x :: h', y :: a', z :: b' => Z.lxor (Z.lxor x y) z :: xor3 h' a' b'
  | _, _, _ => []
  end.

(** The compression function: chaining value [h], message block [m] of 16
    words, byte counter [t], last-block flag [last]. *)
Definition compress (h m : list Z) (t : Z) (last : bool) : list Z :=
  let v := h ++ iv in
  let v := set 12 (Z.lxor (nth 12 v 0) (w64 t)) v in
  let v := set 13 (Z.lxor (nth 13 v 0) (w64 (Z.shiftr t 64))) v in
  let v := if last then set 14 (Z.lxor (nth 14 v 0) 0xFFFFFFFFFFFFFFFF) v else v in
  let v := rounds 12 0 m v in
  xor3 h (firstn 8 v) (skipn 8 v).

(** Little-endian words. *)
Fixpoint le_word (n : nat) (bs : list Z) : Z :=
  match n with
  | O => 0
  | S n' => match bs with
            | [] => 0
            | b :: bs' => b + 256 * le_word n' bs'
            end
  end.

Fixpoint le_bytes (n : nat) (x : Z) : list Z :=
  match n with
  | O => []
  | S n' => (x mod 256) :: le_bytes n' (x / 256)
  end.

Fixpoint words (n : nat) (bs : list Z) : list Z :=
  match n with
  | O => []
  | S n' => le_word 8 bs :: words n' (skipn 8 bs)
  end.

(** All of [data], in blocks of 128 bytes; the last block, padded with
    zeros, is compressed with the flag set. *)
Fixpoint absorb (fuel : nat) (h : list Z) (t : Z) (data : list Z) : list Z :=
  match fuel with
  | O => h
  | S fuel' =>
      if Z.of_nat (List.length data) <=? BlockSize
      then compress h (words 16 data) (t + Z.of_nat (List.length data)) true
      else absorb fuel' (compress h (words 16 data) (t + BlockSize) false)
                  (t + BlockSize) (skipn 128 data)
  end.

(** The digest of [size] bytes of everything written, without a key. *)
Definition Sum (size : Z) (data : list Z) : list Z :=
  let h := set 0 (Z.lxor (nth 0 iv 0) (Z.lxor 0x01010000 size)) iv in
  let h := absorb (S (List.length data)) h 0 data in
  firstn (Z.to_nat size) (flat_map (le_bytes 8) h).

End blake2b.


(** [golang.org/x/crypto/argon2]: Argon2 version 0x13 as RFC 9106 defines
    it, along the functions of the library. *)
Module xargon2.

Definition Version : Z := 0x13.
Definition argon2d : Z := 0.
Definition argon2i : Z := 1.
Definition argon2id : Z := 2.
Definition blockLength : Z := 128.
Definition syncPoints : Z := 4.

Definition u32 (x : Z) : Z := x mod 2 ^ 32.
Definition w64 := blake2b.w64.
Definition rotr := blake2b.rotr.
Definition set := blake2b.set.
Definition le32 (x : Z) : list Z := blake2b.le_bytes 4 x.

Definition block : Type := list Z.
Definition zero_block : block := repeat 0 128.

(** The loop of [blake2bHash]: while more than 64 bytes are to be
    written, the buffer is hashed and its first 32 bytes are written. *)
Fixpoint blake2bHash_loop (fuel : nat) (remaining : Z) (buffer : list Z)
  : list Z * list Z :=
  match fuel with
  | O => ([], buffer)
  | S fuel' =>
      if 64 <? remaining
      then let buffer' := blake2b.Sum 64 buffer in
           let (out, last) := blake2bHash_loop fuel' (remaining - 32) buffer' in
           (firstn 32 buffer' ++ out, last)
      else ([], buffer)
  end.

(** [blake2bHash(out, in)], the variable-length hash, with [outLen] for
    [len(out)].  For a length of 0, [blake2b.New] fails, the digest it
    leaves is nil and the write to it panics: [None]. *)
Definition blake2bHash (outLen : Z) (input : list Z) : option (list Z) :=
  if outLen <? 1 then None
  else
    let data := le32 outLen ++ input in
    if outLen <=? 64 then Some (blake2b.Sum outLen data)
    else
      let buffer := blake2b.Sum 64 data in
      let (out, last) := blake2bHash_loop (Z.to_nat outLen) (outLen - 32) buffer in
      let size := if 0 <? outLen mod 64
                  then outLen - 32 * ((outLen + 31) / 32 - 2) else 64 in
      Some (firstn 32 buffer ++ out ++ blake2b.Sum size last).

(** [initHash]: the digest H0 of the parameters and the inputs. *)
Definition initHash (password salt key data : list Z)
           (time memory threads keyLen mode : Z) : list Z :=
  blake2b.Sum 64
    (le32 threads ++ le32 keyLen ++ le32 memory ++ le32 time
     ++ le32 Version ++ le32 mode
     ++ le32 (Z.of_nat (List.length password)) ++ password
     ++ le32 (Z.of_nat (List.length salt)) ++ salt
     ++ le32 (Z.of_nat (List.length key)) ++ key
     ++ le32 (Z.of_nat (List.length data)) ++ data).

(** Block [i] (0 or 1) of a lane, as [initBlocks] fills it. *)
Definition first_block (h0 : list Z) (i lane : Z) : block :=
  match blake2bHash 1024 (h0 ++ le32 i ++ le32 lane) with
  | Some b => blake2b.words 128 b
  | None => zero_block
  end.

(** [B[i] = x] and [B[i]]. *)
Fixpoint setb (i : nat) (x : block) (B : list block) : list block :=
  match B, i with
  | [], _ => []
  | _ :: B', O => x :: B'
  | y :: B', S i' => y :: setb i' x B'
  end.

Definition getb (B : list block) (i : Z) : block := nth (Z.to_nat i) B zero_block.

Fixpoint initBlocks_lanes (n : nat) (lane : Z) (h0 : list Z) (lanes : Z)
         (B : list block) : list block :=
  match n with
  | O => B
  | S n' =>
      let j := lane * lanes in
      let B := setb (Z.to_nat j) (first_block h0 0 lane) B in
      let B := setb (Z.to_nat (j + 1)) (first_block h0 1 lane) B in
      initBlocks_lanes n' (lane + 1) h0 lanes B
  end.

(** [initBlocks]: the memory, with the first two blocks of every lane. *)
Definition initBlocks (h0 : list Z) (memory threads : Z) : list block :=
  initBlocks_lanes (Z.to_nat threads) 0 h0 (memory / threads)
                   (repeat zero_block (Z.to_nat memory)).

(** [a += b + 2*uint64(uint32(a))*uint64(uint32(b))]. *)
Definition mul (a b : Z) : Z :=
  w64 (a + b + 2 * (Z.land a 0xFFFFFFFF) * (Z.land b 0xFFFFFFFF)).

(** One quarter round of [blamkaGeneric]. *)
Definition quarter (v : list Z) (a b c d : nat) : list Z :=
  let va := nth a v 0 in
  let vb := nth b v 0 in
  let vc := nth c v 0 in
  let vd := nth d v 0 in
  let va := mul va vb in
  let vd := rotr (Z.lxor vd va) 32 in
  let vc := mul vc vd in
  let vb := rotr (Z.lxor vb vc) 24 in
  let va := mul va vb in
  let vd := rotr (Z.lxor vd va) 16 in
  let vc := mul vc vd in
  let vb := rotr (Z.lxor vb vc) 63 in
  set a va (set b vb (set c vc (set d vd v))).

Definition blamkaGeneric (v : list Z) : list Z :=
  let v := quarter v 0 4 8 12 in
  let v := quarter v 1 5 9 13 in
  let v := quarter v 2 6 10 14 in
  let v := quarter v 3 7 11 15 in
  let v := quarter v 0 5 10 15 in
  let v := quarter v 1 6 11 12 in
  let v := quarter v 2 7 8 13 in
  quarter v 3 4 9 14.

Fixpoint chunks (n : nat) (size : nat) (l : list Z) : list (list Z) :=
  match n with
  | O => []
  | S n' => firstn size l :: chunks n' size (skipn size l)
  end.

(** The words [i], [i+1], [16+i], [16+i+1], ..., [112+i], [112+i+1] of a
    block given as its eight rows of sixteen words. *)
Definition column (rows : list (list Z)) (i : nat) : list Z :=
  flat_map (fun r => [nth i r 0; nth (S i) r 0]) rows.

(** Row [r] of the block whose columns (as [column] takes them) are
    [cols]. *)
Definition row_of_columns (cols : list (list Z)) (r : nat) : list Z :=
  flat_map (fun c => [nth (2 * r) c 0; nth (2 * r + 1) c 0]) cols.

Definition evens8 : list nat := [0; 2; 4; 6; 8; 10; 12; 14]%nat.
Definition upto8 : list nat := [0; 1; 2; 3; 4; 5; 6; 7]%nat.

Fixpoint xor2 (a b : list Z) : list Z :=
  match a, b with
  | x :: a', y :: b' => Z.lxor x y :: xor2 a' b'
  | _, _ => []
  end.

(** [processBlockGeneric] without the last exclusive or: the permutation
    of [in1 ^ in2], and that very block. *)
Definition permute (t : block) : block :=
  let rows := map blamkaGeneric (chunks 8 16 t) in
  let cols := map (fun i => blamkaGeneric (column rows i)) evens8 in
  flat_map (row_of_columns cols) upto8.

Definition processBlock (in1 in2 : block) : block :=
  let t := xor2 in1 in2 in xor2 t (permute t).

Definition processBlockXOR (out in1 in2 : block) : block :=
  xor2 out (processBlock in1 in2).

(** [phi] and [indexAlpha]: the block a new block is mixed with. *)
Definition phi (rand m s lane lanes : Z) : Z :=
  let p := Z.land rand 0xFFFFFFFF in
  let p := Z.shiftr (w64 (p * p)) 32 in
  let p := Z.shiftr (w64 (p * m)) 32 in
  u32 (lane * lanes + u32 (w64 (s + m - (p + 1)) mod lanes)).

Definition indexAlpha (rand lanes segments threads n slice lane index : Z) : Z :=
  let refLane := u32 (Z.shiftr rand 32) mod threads in
  let refLane := if (n =? 0) && (slice =? 0) then lane else refLane in
  let m := u32 (3 * segments) in
  let s := u32 (((slice + 1) mod syncPoints) * segments) in
  let m := if lane =? refLane then u32 (m + index) else m in
  let '(m, s) :=
    if n =? 0
    then let m := u32 (slice * segments) in
         ((if (slice =? 0) || (lane =? refLane) then u32 (m + index) else m), 0)
    else (m, s) in
  let m := if (index =? 0) || (lane =? refLane) then u32 (m - 1) else m in
  phi rand m s refLane lanes.

(** Whether a segment takes its references from the counter rather than
    from the blocks. *)
Definition independent (mode n slice : Z) : bool :=
  (mode =? argon2i) || ((mode =? argon2id) && (n =? 0) && (slice <? syncPoints / 2)).

(** The block of the data-independent addressing: words 0 to 6 hold the
    pass, the lane, the slice, the memory, the time, the mode and the
    counter. *)
Definition input_block (n lane slice memory time mode counter : Z) : block :=
  [n; lane; slice; memory; time; mode; counter] ++ repeat 0 121.

(** [processBlock(&addresses, &in, &zero)], then
    [processBlock(&addresses, &addresses, &zero)]. *)
Definition next_addresses (inb : block) : block :=
  processBlock (processBlock inb zero_block) zero_block.

(** The loop of [processSegment]; [inb] and [addresses] are its local
    blocks. *)
Fixpoint segment_loop (fuel : nat) (B : list block)
         (mode time memory lanes segments threads n slice lane : Z)
         (inb addresses : block) (index offset : Z) : list block :=
  match fuel with
  | O => B
  | S fuel' =>
      if index <? segments then
        let prev := u32 (offset - 1) in
        let prev := if (index =? 0) && (slice =? 0) then u32 (prev + lanes) else prev in
        let '(inb, addresses, random) :=
          if independent mode n slice then
            let '(inb, addresses) :=
              if index mod blockLength =? 0
              then let inb := set 6 (nth 6 inb 0 + 1) inb in
                   (inb, next_addresses inb)
              else (inb, addresses) in
            (inb, addresses, nth (Z.to_nat (index mod blockLength)) addresses 0)
          else (inb, addresses, nth 0 (getb B prev) 0) in
        let newOffset := indexAlpha random lanes segments threads n slice lane index in
        let B := setb (Z.to_nat offset)
                      (processBlockXOR (getb B offset) (getb B prev) (getb B newOffset))
                      B in
        segment_loop fuel' B mode time memory lanes segments threads n slice lane
                     inb addresses (index + 1) (offset + 1)
      else B
  end.

(** [processSegment]: one segment of one lane. *)
Definition processSegment (B : list block)
           (mode time memory lanes segments threads n slice lane : Z) : list block :=
  let inb := if independent mode n slice
             then input_block n lane slice memory time mode 0
             else zero_block in
  let first := (n =? 0) && (slice =? 0) in
  let index := if first then 2 else 0 in
  let '(inb, addresses) :=
    if first && ((mode =? argon2i) || (mode =? argon2id))
    then let inb := set 6 (nth 6 inb 0 + 1) inb in (inb, next_addresses inb)
    else (inb, zero_block) in
  let offset := u32 (lane * lanes + slice * segments + index) in
  segment_loop (Z.to_nat segments) B mode time memory lanes segments threads
               n slice lane inb addresses index offset.

(** [for i := from; i < from + k; i++ { B = f(B, i) }]. *)
Fixpoint for_lanes (k : nat) (lane : Z) (f : list block -> Z -> list block)
         (B : list block) : list block :=
  match k with
  | O => B
  | S k' => for_lanes k' (lane + 1) f (f B lane)
  end.

(** [processBlocks]: every pass, every slice, every lane.  The lanes of a
    slice, which the library runs side by side, read of each other only
    what earlier slices wrote: they are run here one after the other. *)
Definition processBlocks (B : list block) (time memory threads mode : Z)
  : list block :=
  let lanes := memory / threads in
  let segments := lanes / syncPoints in
  for_lanes (Z.to_nat time) 0
    (fun B n =>
       for_lanes 4 0
         (fun B slice =>
            for_lanes (Z.to_nat threads) 0
              (fun B lane =>
                 processSegment B mode time memory lanes segments threads n slice lane)
              B)
         B)
    B.

(** [extractKey]: the hash of the last blocks of the lanes, folded into
    one. *)
Definition extractKey (B : list block) (memory threads keyLen : Z)
  : option (list Z) :=
  let lanes := memory / threads in
  let last :=
    for_lanes (Z.to_nat (threads - 1)) 0
      (fun B lane =>
         setb (Z.to_nat (memory - 1))
              (xor2 (getb B (memory - 1)) (getb B (lane * lanes + lanes - 1))) B)
      B in
  blake2bHash keyLen (flat_map (blake2b.le_bytes 8) (getb last (memory - 1))).

(** [deriveKey]. *)
Definition deriveKey (mode : Z) (password salt secret data : list Z)
           (time memory threads keyLen : Z) : option (list Z) :=
  if time <? 1 then None else
  if threads <? 1 then None else
  let h0 := initHash password salt secret data time memory threads keyLen mode in
  let memory := u32 (memory / (syncPoints * threads) * (syncPoints * threads)) in
  let memory := if memory <? 2 * syncPoints * threads
                then 2 * syncPoints * threads else memory in
  let B := initBlocks h0 memory threads in
  let B := processBlocks B time memory threads mode in
  extractKey B memory threads keyLen.

End xargon2.


(** [argon2.IDKey] behind its argument checks, on the bytes of this
    development: [deriveKey(argon2id, password, salt, nil, nil, time,
    memory, uint32(threads), keyLen)]. *)
Definition IDKey_bytes (args : IDKeyArgs) : option bytes :=
  option_map (map byte_of_Z)
    (xargon2.deriveKey xargon2.argon2id
       (map byte_to_Z (kdf_password args)) (map byte_to_Z (kdf_salt args))
       [] [] (kdf_time args) (kdf_memory args) (kdf_threads args)
       (kdf_keyLen args)).

(** ** A small world to run examples in *)

(** A stand-in for the key derivation: every byte of the key is the sum
    (modulo 256) of the bytes of password and salt and of the three
    costs. *)
Definition toy_sum (args : IDKeyArgs) : Z :=
  fold_left (fun s b => s + byte_to_Z b) (kdf_password args ++ kdf_salt args)
            (kdf_time args + kdf_memory args + kdf_threads args).

Definition toy_derive (args : IDKeyArgs) : option bytes :=
  Some (repeat (byte_of_Z (toy_sum args)) (Z.to_nat (kdf_keyLen args))).

(** A random source that always delivers the bytes 1, 2, 3, ... *)
Definition toy_Read (n : Z) : ReadResult :=
  mkReadResult (map (fun i => byte_of_Z (Z.of_nat i)) (seq 1 (Z.to_nat n)))
               n None.

Definition toy_world : World := mkWorld toy_Read toy_derive.

(** The same random source with the key derivation of the library. *)
Definition crypto_world : World := mkWorld toy_Read IDKey_bytes.

Definition sample : Argon2Id := mkArgon2Id 4 32768 2 48 64.

(** ** Notions the properties are stated with *)

(** What [rest] must be for a number printed in front of it to be read
    back whole: empty, or starting with a byte that is no digit. *)
Definition ends_number (rest : gostring) : Prop :=
  match rest with [] => True | c :: _ => fmt.is_digit c = false end.

(** A byte of the alphabet. *)
Definition in_alphabet (c : byte) : bool :=
  negb (base64.decodeMap c =? 255).

(** What a loop leaks that runs [n] times from index [i] on, reads both
    slices at every index and then leaves. *)
Fixpoint full_scan (i : Z) (n : nat) : list subtle.observation :=
  match n with
  | O => [subtle.Branch false]
  | S n' => subtle.Branch true :: subtle.Index i :: full_scan (i + 1) n'
  end.

(** The values a scan target can hold. *)
Definition target_ok (t : fmt.target) (u : Z) : Prop :=
  match t with
  | fmt.IntPtr => - 2 ^ 63 <= u < 2 ^ 63
  | fmt.Uint32Ptr => is_uint32 u
  | fmt.Uint8Ptr => is_uint8 u
  end.

(** The canonical string as the specification writes it:
    [$argon2id$v=<version>$m=<memoryCost>,t=<timeCost>,p=<parallelismCost>$<salt>$<key>]
    with the numbers in decimal. *)
Definition canonical (version m t p : Z) (b64Salt b64Key : gostring)
  : gostring :=
  str "$argon2id$v=" ++ fmt.fmtInteger version
  ++ str "$m=" ++ fmt.fmtInteger m
  ++ str ",t=" ++ fmt.fmtInteger t
  ++ str ",p=" ++ fmt.fmtInteger p
  ++ str "$" ++ b64Salt
  ++ str "$" ++ b64Key.

(** Its six segments. *)
Definition segments (version m t p : Z) (b64Salt b64Key : gostring)
  : list gostring :=
  [ [];
    str "argon2id";
    str "v=" ++ fmt.fmtInteger version;
    str "m=" ++ fmt.fmtInteger m ++ str ",t=" ++ fmt.fmtInteger t
      ++ str ",p=" ++ fmt.fmtInteger p;
    b64Salt;
    b64Key ].

(** The contract of the key derivation: a call that returns gives as many
    bytes as were asked for. *)
Definition kdf_contract (w : World) : Prop :=
  forall args key,
    is_uint32 (kdf_keyLen args) -> derive w args = Some key ->
    len key = kdf_keyLen args.

(** The salt [Generate] draws in a world. *)
Definition drawn_salt (w : World) (a : Argon2Id) : bytes :=
  fill (saltLength a) (rr_data (rand_Read w (saltLength a))).

(** The call of the key derivation that [Generate] makes. *)
Definition Generate_args (w : World) (a : Argon2Id) (password : bytes)
  : IDKeyArgs :=
  mkIDKeyArgs password (drawn_salt w a) (timeCost a) (memoryCost a)
              (parallelismCost a) (keyLength a).

(** The error of a wrong password, as [Compare] returns it. *)
Definition mismatch : error := Errorf "argon2id: " ErrPasswordsDoNotMatch.

(** The values [Compare] can return: [nil], or an error of one of its
    steps under the prefix of that step. *)
Inductive Compare_result (hash : gostring) : option error -> Prop :=
| res_nil : Compare_result hash None
| res_parts :
    Compare_result hash (Some (Wrapf "argon2id: parts: " ErrMalformedHash))
| res_algorithm :
    Compare_result hash (Some (Wrapf "argon2id: algorithm: " ErrMalformedHash))
| res_version e :
    fmt.Sscanf (nth versionIdx (strings.Split hash splitChar) [])
               versionTemplate [fmt.IntPtr] = inl e ->
    Compare_result hash (Some (Wrapf "argon2id: scan version: " e))
| res_params e :
    fmt.Sscanf (nth paramsIdx (strings.Split hash splitChar) [])
               paramsTemplate [fmt.Uint32Ptr; fmt.Uint32Ptr; fmt.Uint8Ptr]
    = inl e ->
    Compare_result hash (Some (Wrapf "argon2id: scan params: " e))
| res_salt e :
    base64.RawStdEncoding.Strict.DecodeString
      (nth saltIdx (strings.Split hash splitChar) []) = inl e ->
    Compare_result hash (Some (Wrapf "argon2id: decode salt: " e))
| res_key e :
    base64.RawStdEncoding.Strict.DecodeString
      (nth keyIdx (strings.Split hash splitChar) []) = inl e ->
    Compare_result hash (Some (Wrapf "argon2id: decode key: " e))
| res_mismatch :
    Compare_result hash (Some (Wrapf "argon2id: " ErrPasswordsDoNotMatch)).

(** All 256 bytes. *)
Definition all_bytes : bytes := map ascii_of_nat (seq 0 256).

(** 257 passwords, no two alike: the empty one and the 256 of one byte. *)
Definition short_passwords : list bytes := [] :: map (fun b => [b]) all_bytes.

(** The five options by name, to speak of the option calls a caller
    wrote. *)
Inductive option_call : Type :=
| SetTimeCost (v : Z)
| SetMemoryCost (v : Z)
| SetParallelismCost (v : Z)
| SetSaltLength (v : Z)
| SetKeyLength (v : Z).

Definition to_option (c : option_call) : Argon2IdOption :=
  match c with
  | SetTimeCost v => WithTimeCost v
  | SetMemoryCost v => WithMemoryCost v
  | SetParallelismCost v => WithParallelismCost v
  | SetSaltLength v => WithSaltLength v
  | SetKeyLength v => WithKeyLength v
  end.

(** The value of the last call in [calls] that [sel] picks, or [default]
    when it picks none. *)
Definition last_given (sel : option_call -> option Z)
           (calls : list option_call) (default : Z) : Z :=
  last (flat_map (fun c => match sel c with Some v => [v] | None => [] end)
                 calls)
       default.

Definition time_of (c : option_call) : option Z :=
  match c with SetTimeCost v => Some v | _ => None end.
Definition memory_of (c : option_call) : option Z :=
  match c with SetMemoryCost v => Some v | _ => None end.
Definition parallelism_of (c : option_call) : option Z :=
  match c with SetParallelismCost v => Some v | _ => None end.
Definition salt_of (c : option_call) : option Z :=
  match c with SetSaltLength v => Some v | _ => None end.
Definition key_of (c : option_call) : option Z :=
  match c with SetKeyLength v => Some v | _ => None end.

(** ** Strings and configurations of the examples *)

(** What [Generate] writes in [toy_world] for the password "super-secret"
    under [sample]. *)
Definition sample_hash : gostring :=
  str "$argon2id$v=19$m=32768,t=4,p=2$AQIDBAUGBwgJCgsMDQ4PEBESExQVFhcYGRobHB0eHyAhIiMkJSYnKCkqKywtLi8w$gICAgICAgICAgICAgICAgICAgICAgICAgICAgICAgICAgICAgICAgICAgICAgICAgICAgICAgICAgICAgICAgA".

(** A configuration with a key of one byte, and what [Generate] writes
    under it in [toy_world] for the password "ab". *)
Definition tiny : Argon2Id := mkArgon2Id 1 8 1 2 1.
Definition tiny_hash : gostring := str "$argon2id$v=19$m=8,t=1,p=1$AQI$0A".

(** Strings for the examples: well formed, with the salt "salt" and the
    key "key"; the second has a time cost of zero, the third a parallelism
    of zero. *)
Definition good_hash : gostring :=
  str "$argon2id$v=19$m=65536,t=2,p=1$c2FsdA$a2V5".
Definition zero_time_hash : gostring :=
  str "$argon2id$v=19$m=65536,t=0,p=1$c2FsdA$a2V5".
Definition zero_threads_hash : gostring :=
  str "$argon2id$v=19$m=65536,t=2,p=0$c2FsdA$a2V5".

(** A stored key of 2^32 bytes, and a canonical string that holds it. *)
Definition huge_key : bytes := repeat zero (Z.to_nat (2 ^ 32)).
Definition huge_hash : gostring :=
  canonical 19 65536 2 1 (base64.RawStdEncoding.EncodeToString (str "salt"))
            (base64.RawStdEncoding.EncodeToString huge_key).

(** ** Further notions and examples *)

(** The values that the calls in [calls] give to the field [sel] picks, in
    the order of the calls. *)
Definition given (sel : option_call -> option Z) (calls : list option_call)
  : list Z :=
  flat_map (fun c => match sel c with Some v => [v] | None => [] end) calls.

(** No field is set by two of the calls. *)
Definition one_per_field (calls : list option_call) : Prop :=
  (List.length (given time_of calls) <= 1)%nat
  /\ (List.length (given memory_of calls) <= 1)%nat
  /\ (List.length (given parallelism_of calls) <= 1)%nat
  /\ (List.length (given salt_of calls) <= 1)%nat
  /\ (List.length (given key_of calls) <= 1)%nat.

(** A random source that fails, and one that reports one byte less than
    it was asked for. *)
Definition failing_Read (n : Z) : ReadResult :=
  mkReadResult [] 0 (Some (RandError "entropy source failed")).
Definition short_Read (n : Z) : ReadResult :=
  mkReadResult (rr_data (toy_Read (n - 1))) (n - 1) None.
Definition failing_world : World := mkWorld failing_Read toy_derive.
Definition short_world : World := mkWorld short_Read toy_derive.

(** A random source that delivers the bytes 101, 102, ... *)
Definition other_Read (n : Z) : ReadResult :=
  mkReadResult (map (fun i => byte_of_Z (Z.of_nat i)) (seq 101 (Z.to_nat n)))
               n None.
Definition other_world : World := mkWorld other_Read toy_derive.

(** The errors the scanner of [fmt] and the number parser of [strconv]
    raise. *)
Definition scanner_error (e : error) : Prop :=
  match e with
  | ErrEOF | ErrUnexpectedEOF | ScanError _ | ErrRange | ErrSyntax => True
  | _ => False
  end.

(** What [Generate] writes for "ab" under [tiny] in [other_world]. *)
Definition other_hash : gostring := str "$argon2id$v=19$m=8,t=1,p=1$ZWY$mA".

(** A record whose key segment is empty. *)
Definition keyless_hash : gostring := str "$argon2id$v=19$m=8,t=1,p=1$AQI$".

(** The seven ways through [Compare], each with what brought it there. *)
Inductive Compare_path (a : Argon2Id) (password : bytes) (hash : gostring)
  : Prop :=
| path_parts :
    len (strings.Split hash splitChar) <> numParts ->
    Compare a password hash
    = Ret (Some (Wrapf "argon2id: parts: " ErrMalformedHash)) ->
    Compare_path a password hash
| path_algorithm :
    len (strings.Split hash splitChar) = numParts ->
    nth algorithmIdx (strings.Split hash splitChar) [] <> algorithm ->
    Compare a password hash
    = Ret (Some (Wrapf "argon2id: algorithm: " ErrMalformedHash)) ->
    Compare_path a password hash
| path_version e :
    len (strings.Split hash splitChar) = numParts ->
    nth algorithmIdx (strings.Split hash splitChar) [] = algorithm ->
    fmt.Sscanf (nth versionIdx (strings.Split hash splitChar) [])
               versionTemplate [fmt.IntPtr] = inl e ->
    Compare a password hash
    = Ret (Some (Wrapf "argon2id: scan version: " e)) ->
    Compare_path a password hash
| path_params vs e :
    len (strings.Split hash splitChar) = numParts ->
    nth algorithmIdx (strings.Split hash splitChar) [] = algorithm ->
    fmt.Sscanf (nth versionIdx (strings.Split hash splitChar) [])
               versionTemplate [fmt.IntPtr] = inr vs ->
    fmt.Sscanf (nth paramsIdx (strings.Split hash splitChar) [])
               paramsTemplate [fmt.Uint32Ptr; fmt.Uint32Ptr; fmt.Uint8Ptr]
    = inl e ->
    Compare a password hash
    = Ret (Some (Wrapf "argon2id: scan params: " e)) ->
    Compare_path a password hash
| path_salt vs ps e :
    len (strings.Split hash splitChar) = numParts ->
    nth algorithmIdx (strings.Split hash splitChar) [] = algorithm ->
    fmt.Sscanf (nth versionIdx (strings.Split hash splitChar) [])
               versionTemplate [fmt.IntPtr] = inr vs ->
    fmt.Sscanf (nth paramsIdx (strings.Split hash splitChar) [])
               paramsTemplate [fmt.Uint32Ptr; fmt.Uint32Ptr; fmt.Uint8Ptr]
    = inr ps ->
    base64.RawStdEncoding.Strict.DecodeString
      (nth saltIdx (strings.Split hash splitChar) []) = inl e ->
    Compare a password hash
    = Ret (Some (Wrapf "argon2id: decode salt: " e)) ->
    Compare_path a password hash
| path_key vs ps salt e :
    len (strings.Split hash splitChar) = numParts ->
    nth algorithmIdx (strings.Split hash splitChar) [] = algorithm ->
    fmt.Sscanf (nth versionIdx (strings.Split hash splitChar) [])
               versionTemplate [fmt.IntPtr] = inr vs ->
    fmt.Sscanf (nth paramsIdx (strings.Split hash splitChar) [])
               paramsTemplate [fmt.Uint32Ptr; fmt.Uint32Ptr; fmt.Uint8Ptr]
    = inr ps ->
    base64.RawStdEncoding.Strict.DecodeString
      (nth saltIdx (strings.Split hash splitChar) []) = inr salt ->
    base64.RawStdEncoding.Strict.DecodeString
      (nth keyIdx (strings.Split hash splitChar) []) = inl e ->
    Compare a password hash
    = Ret (Some (Wrapf "argon2id: decode key: " e)) ->
    Compare_path a password hash
| path_call vs ps salt key :
    len (strings.Split hash splitChar) = numParts ->
    nth algorithmIdx (strings.Split hash splitChar) [] = algorithm ->
    fmt.Sscanf (nth versionIdx (strings.Split hash splitChar) [])
               versionTemplate [fmt.IntPtr] = inr vs ->
    fmt.Sscanf (nth paramsIdx (strings.Split hash splitChar) [])
               paramsTemplate [fmt.Uint32Ptr; fmt.Uint32Ptr; fmt.Uint8Ptr]
    = inr ps ->
    base64.RawStdEncoding.Strict.DecodeString
      (nth saltIdx (strings.Split hash splitChar) []) = inr salt ->
    base64.RawStdEncoding.Strict.DecodeString
      (nth keyIdx (strings.Split hash splitChar) []) = inr key ->
    Compare a password hash
    = IDKeyCall (mkIDKeyArgs password salt (nth 1 ps 0) (nth 0 ps 0)
                             (nth 2 ps 0) (uint32 (len key)))
                (fun comparisonKey => Ret (compare_keys key comparisonKey)) ->
    Compare_path a password hash.

(** The canonical string with bytes put after the version number and after
    the last cost. *)
Definition padded (version m t p : Z) (junk1 junk2 b64Salt b64Key : gostring)
  : gostring :=
  str "$argon2id$v=" ++ fmt.fmtInteger version ++ junk1
  ++ str "$m=" ++ fmt.fmtInteger m
  ++ str ",t=" ++ fmt.fmtInteger t
  ++ str ",p=" ++ fmt.fmtInteger p ++ junk2
  ++ str "$" ++ b64Salt
  ++ str "$" ++ b64Key.

(** Examples: bytes after the numbers, a parallelism of 256, a padded
    salt. *)
Definition junk_hash : gostring :=
  str "$argon2id$v=19abc$m=65536,t=2,p=1 and more$c2FsdA$a2V5".
Definition wide_hash : gostring :=
  str "$argon2id$v=19$m=65536,t=2,p=256$c2FsdA$a2V5".
Definition padded_salt_hash : gostring :=
  str "$argon2id$v=19$m=65536,t=2,p=1$c2FsdA==$a2V5".

(** ** The configuration of the tests *)

(** [func newArgon2IdWithRandomConfig() *Argon2Id] of the test file; [r1]
    to [r5] are what the five calls of [rand.Int31n] return, in the order
    of the calls: [Int31n(8)], [Int31n(128*1024)],
    [Int31n(int32(runtime.NumCPU()))], [Int31n(128)], [Int31n(128)]. *)
Definition newArgon2IdWithRandomConfig (NumCPU r1 r2 r3 r4 r5 : Z) : Argon2Id :=
  New (init NumCPU)
    [ WithTimeCost (uint32 (Z.max 1 r1));
      WithMemoryCost (uint32 (Z.max 1024 r2));
      WithParallelismCost (uint8 (Z.max 1 r3));
      WithSaltLength (uint32 (Z.max 1 r4));
      WithKeyLength (uint32 (Z.max 1 r5)) ].

(** ** The outcomes of [Compare] *)

(** What [Compare] returns for a password and a string in the world [w],
    told from its steps in the order of the code.  The first step that
    fails gives its error, under the prefix of the step, and the key
    derivation is not called.  When no step fails the key derivation is
    called on the password, the salt, the costs and the key length of the
    string: the result is [nil] when it returns the stored key, the
    mismatch error when it returns another one.  The flag tells whether
    the key derivation was called. *)
Inductive Compare_outcome (w : World) (password : bytes) (hash : gostring)
  : bool -> option error -> Prop :=
| out_parts :
    len (strings.Split hash splitChar) <> numParts ->
    Compare_outcome w password hash false
      (Some (Wrapf "argon2id: parts: " ErrMalformedHash))
| out_algorithm :
    len (strings.Split hash splitChar) = numParts ->
    nth algorithmIdx (strings.Split hash splitChar) [] <> algorithm ->
    Compare_outcome w password hash false
      (Some (Wrapf "argon2id: algorithm: " ErrMalformedHash))
| out_version e :
    len (strings.Split hash splitChar) = numParts ->
    nth algorithmIdx (strings.Split hash splitChar) [] = algorithm ->
    fmt.Sscanf (nth versionIdx (strings.Split hash splitChar) [])
               versionTemplate [fmt.IntPtr] = inl e ->
    Compare_outcome w password hash false
      (Some (Wrapf "argon2id: scan version: " e))
| out_params vs e :
    len (strings.Split hash splitChar) = numParts ->
    nth algorithmIdx (strings.Split hash splitChar) [] = algorithm ->
    fmt.Sscanf (nth versionIdx (strings.Split hash splitChar) [])
               versionTemplate [fmt.IntPtr] = inr vs ->
    fmt.Sscanf (nth paramsIdx (strings.Split hash splitChar) [])
               paramsTemplate [fmt.Uint32Ptr; fmt.Uint32Ptr; fmt.Uint8Ptr]
    = inl e ->
    Compare_outcome w password hash false
      (Some (Wrapf "argon2id: scan params: " e))
| out_salt vs ps e :
    len (strings.Split hash splitChar) = numParts ->
    nth algorithmIdx (strings.Split hash splitChar) [] = algorithm ->
    fmt.Sscanf (nth versionIdx (strings.Split hash splitChar) [])
               versionTemplate [fmt.IntPtr] = inr vs ->
    fmt.Sscanf (nth paramsIdx (strings.Split hash splitChar) [])
               paramsTemplate [fmt.Uint32Ptr; fmt.Uint32Ptr; fmt.Uint8Ptr]
    = inr ps ->
    base64.RawStdEncoding.Strict.DecodeString
      (nth saltIdx (strings.Split hash splitChar) []) = inl e ->
    Compare_outcome w password hash false
      (Some (Wrapf "argon2id: decode salt: " e))
| out_key vs ps salt e :
    len (strings.Split hash splitChar) = numParts ->
    nth algorithmIdx (strings.Split hash splitChar) [] = algorithm ->
    fmt.Sscanf (nth versionIdx (strings.Split hash splitChar) [])
               versionTemplate [fmt.IntPtr] = inr vs ->
    fmt.Sscanf (nth paramsIdx (strings.Split hash splitChar) [])
               paramsTemplate [fmt.Uint32Ptr; fmt.Uint32Ptr; fmt.Uint8Ptr]
    = inr ps ->
    base64.RawStdEncoding.Strict.DecodeString
      (nth saltIdx (strings.Split hash splitChar) []) = inr salt ->
    base64.RawStdEncoding.Strict.DecodeString
      (nth keyIdx (strings.Split hash splitChar) []) = inl e ->
    Compare_outcome w password hash false
      (Some (Wrapf "argon2id: decode key: " e))
| out_nil vs ps salt key :
    len (strings.Split hash splitChar) = numParts ->
    nth algorithmIdx (strings.Split hash splitChar) [] = algorithm ->
    fmt.Sscanf (nth versionIdx (strings.Split hash splitChar) [])
               versionTemplate [fmt.IntPtr] = inr vs ->
    fmt.Sscanf (nth paramsIdx (strings.Split hash splitChar) [])
               paramsTemplate [fmt.Uint32Ptr; fmt.Uint32Ptr; fmt.Uint8Ptr]
    = inr ps ->
    base64.RawStdEncoding.Strict.DecodeString
      (nth saltIdx (strings.Split hash splitChar) []) = inr salt ->
    base64.RawStdEncoding.Strict.DecodeString
      (nth keyIdx (strings.Split hash splitChar) []) = inr key ->
    argon2.IDKey w (mkIDKeyArgs password salt (nth 1 ps 0) (nth 0 ps 0)
                                (nth 2 ps 0) (uint32 (len key)))
    = Some key ->
    Compare_outcome w password hash true None
| out_mismatch vs ps salt key comparisonKey :
    len (strings.Split hash splitChar) = numParts ->
    nth algorithmIdx (strings.Split hash splitChar) [] = algorithm ->
    fmt.Sscanf (nth versionIdx (strings.Split hash splitChar) [])
               versionTemplate [fmt.IntPtr] = inr vs ->
    fmt.Sscanf (nth paramsIdx (strings.Split hash splitChar) [])
               paramsTemplate [fmt.Uint32Ptr; fmt.Uint32Ptr; fmt.Uint8Ptr]
    = inr ps ->
    base64.RawStdEncoding.Strict.DecodeString
      (nth saltIdx (strings.Split hash splitChar) []) = inr salt ->
    base64.RawStdEncoding.Strict.DecodeString
      (nth keyIdx (strings.Split hash splitChar) []) = inr key ->
    argon2.IDKey w (mkIDKeyArgs password salt (nth 1 ps 0) (nth 0 ps 0)
                                (nth 2 ps 0) (uint32 (len key)))
    = Some comparisonKey ->
    comparisonKey <> key ->
    Compare_outcome w password hash true
      (Some (Wrapf "argon2id: " ErrPasswordsDoNotMatch)).

(** ** Examples with the key derivation of the library *)

(** The number a string of bytes spells, most significant byte first. *)
Definition be_value (bs : list Z) : Z := fold_left (fun n b => n * 256 + b) bs 0.

(** The string that [Generate] writes in [crypto_world] for the password
    "e" with the configuration [tiny]: the salt is 01 02, the key is the
    one byte FA. *)
Definition collision_hash : gostring := str "$argon2id$v=19$m=8,t=1,p=1$AQI$+g".

(** * Properties *)

(** ** Bytes *)

Lemma byte_to_Z_range (b : byte) : 0 <= byte_to_Z b < 256.
Proof.
  unfold byte_to_Z. pose proof (N_ascii_bounded b). lia.
Qed.

Lemma byte_of_to_Z (b : byte) : byte_of_Z (byte_to_Z b) = b.
Proof.
  unfold byte_of_Z. pose proof (byte_to_Z_range b) as Hr.
  rewrite Z.mod_small by lia. unfold byte_to_Z.
  rewrite N2Z.id. apply ascii_N_embedding.
Qed.

Lemma byte_to_of_Z (z : Z) : byte_to_Z (byte_of_Z z) = z mod 256.
Proof.
  unfold byte_to_Z, byte_of_Z.
  pose proof (Z.mod_pos_bound z 256 ltac:(lia)) as Hr.
  rewrite N_ascii_embedding by lia. lia.
Qed.

Lemma byte_eqb_eq (a b : byte) : byte_eqb a b = true <-> a = b.
Proof. apply Ascii.eqb_eq. Qed.

Lemma byte_eqb_refl (a : byte) : byte_eqb a a = true.
Proof. apply Ascii.eqb_refl. Qed.

Lemma byte_eqb_neq (a b : byte) : byte_eqb a b = false <-> a <> b.
Proof. apply Ascii.eqb_neq. Qed.

Lemma bytes_eqb_eq (x y : bytes) : bytes_eqb x y = true <-> x = y.
Proof.
  revert y. induction x as [|a x IH]; intros [|b y]; simpl;
    try (split; [discriminate | discriminate]); try tauto.
  rewrite andb_true_iff, byte_eqb_eq, IH.
  split; [intros [-> ->]; reflexivity | intros H; inversion H; auto].
Qed.

Lemma bytes_eqb_refl (x : bytes) : bytes_eqb x x = true.
Proof. apply bytes_eqb_eq. reflexivity. Qed.

(** ** [strings.Split] *)

Lemma Split_nonempty (s : gostring) (sep : byte) : strings.Split s sep <> [].
Proof.
  destruct s as [|c s]; simpl; [discriminate|].
  destruct (byte_eqb c sep); [discriminate|].
  destruct (strings.Split s sep); discriminate.
Qed.

(** A string splits into one more part than it has separators. *)
Lemma Split_length (s : gostring) (sep : byte) :
  List.length (strings.Split s sep) = S (strings.Count s sep).
Proof.
  induction s as [|c s IH]; simpl; [reflexivity|].
  destruct (byte_eqb c sep); simpl; [congruence|].
  destruct (strings.Split s sep) as [|p ps] eqn:E; simpl in *; congruence.
Qed.

Lemma Split_no_sep (s : gostring) (sep : byte) :
  ~ In sep s -> strings.Split s sep = [s].
Proof.
  induction s as [|c s IH]; simpl; intros Hin; [reflexivity|].
  destruct (byte_eqb c sep) eqn:E.
  - apply byte_eqb_eq in E. tauto.
  - rewrite IH by tauto. reflexivity.
Qed.

Lemma Split_app_sep (a b : gostring) (sep : byte) :
  ~ In sep a -> strings.Split (a ++ sep :: b) sep = a :: strings.Split b sep.
Proof.
  induction a as [|c a IH]; simpl; intros Hin.
  - rewrite byte_eqb_refl. reflexivity.
  - destruct (byte_eqb c sep) eqn:E.
    + apply byte_eqb_eq in E. tauto.
    + rewrite IH by tauto. reflexivity.
Qed.

(** ** Decimal printing and scanning *)

Lemma digit_char_val (d : Z) : 0 <= d < 10 -> byte_to_Z (fmt.digit_char d) = 48 + d.
Proof.
  intros Hd. unfold fmt.digit_char. rewrite byte_to_of_Z.
  apply Z.mod_small. lia.
Qed.

Lemma digit_char_is_digit (d : Z) :
  0 <= d < 10 -> fmt.is_digit (fmt.digit_char d) = true.
Proof.
  intros Hd. unfold fmt.is_digit. rewrite digit_char_val by assumption.
  apply andb_true_iff. split; apply Z.leb_le; lia.
Qed.

Lemma decimal_value_snoc (ds : gostring) (c : byte) :
  fmt.decimal_value (ds ++ [c])
  = fmt.decimal_value ds * 10 + (byte_to_Z c - 48).
Proof.
  unfold fmt.decimal_value. rewrite fold_left_app. reflexivity.
Qed.

Lemma fmtDigits_S (n : nat) (u : Z) (acc : gostring) :
  fmt.fmtDigits (S n) u acc
  = if 10 <=? u
    then fmt.fmtDigits n (u / 10) (fmt.digit_char (u - u / 10 * 10) :: acc)
    else fmt.digit_char u :: acc.
Proof. reflexivity. Qed.

(** The digit loop writes, in front of what is already in the buffer, a
    non-empty string of digits whose value is the number printed. *)
Lemma fmtDigits_spec (n : nat) :
  forall u acc, 0 <= u < 2 ^ Z.of_nat (S n) ->
  exists ds, fmt.fmtDigits (S n) u acc = ds ++ acc
             /\ ds <> []
             /\ forallb fmt.is_digit ds = true
             /\ fmt.decimal_value ds = u.
Proof.
  induction n as [|n IH]; intros u acc Hu.
  - change (2 ^ Z.of_nat 1) with 2 in Hu.
    simpl. destruct (Z.leb_spec 10 u) as [H10|H10]; [lia|].
    exists [fmt.digit_char u]. repeat split.
    + discriminate.
    + simpl. rewrite digit_char_is_digit by lia. reflexivity.
    + unfold fmt.decimal_value. simpl. rewrite digit_char_val by lia. lia.
  - rewrite fmtDigits_S.
    destruct (Z.leb_spec 10 u) as [H10|H10].
    + assert (Hnext : 0 <= u / 10 < 2 ^ Z.of_nat (S n)).
      { split; [apply Z.div_pos; lia|].
        apply Z.div_lt_upper_bound; [lia|].
        replace (Z.of_nat (S (S n))) with (Z.of_nat (S n) + 1) in Hu by lia.
        rewrite Z.pow_add_r in Hu by lia.
        change (2 ^ 1) with 2 in Hu. lia. }
      destruct (IH (u / 10) (fmt.digit_char (u - u / 10 * 10) :: acc) Hnext)
        as (ds & Heq & Hne & Hdig & Hval).
      exists (ds ++ [fmt.digit_char (u - u / 10 * 10)]).
      pose proof (Z.div_mod u 10 ltac:(lia)) as Hdm.
      pose proof (Z.mod_pos_bound u 10 ltac:(lia)) as Hmb.
      assert (Hlast : 0 <= u - u / 10 * 10 < 10) by lia.
      repeat split.
      * rewrite Heq, <- app_assoc. reflexivity.
      * destruct ds; discriminate.
      * rewrite forallb_app, Hdig. simpl.
        rewrite digit_char_is_digit by assumption. reflexivity.
      * rewrite decimal_value_snoc, Hval, digit_char_val by assumption. lia.
    + exists [fmt.digit_char u]. repeat split.
      * discriminate.
      * simpl. rewrite digit_char_is_digit by lia. reflexivity.
      * unfold fmt.decimal_value. simpl. rewrite digit_char_val by lia. lia.
Qed.

(** [%d] of a number that is not negative: its decimal digits. *)
Lemma fmtInteger_spec (u : Z) :
  0 <= u ->
  fmt.fmtInteger u <> []
  /\ forallb fmt.is_digit (fmt.fmtInteger u) = true
  /\ fmt.decimal_value (fmt.fmtInteger u) = u.
Proof.
  intros Hu. unfold fmt.fmtInteger.
  destruct (Z.ltb_spec u 0) as [Hneg|_]; [lia|].
  rewrite Z.abs_eq by assumption.
  assert (Hb : 0 <= u < 2 ^ Z.of_nat (S (Z.to_nat (Z.log2 u)))).
  { split; [assumption|].
    pose proof (Z.log2_nonneg u) as Hl.
    rewrite Nat2Z.inj_succ, Z2Nat.id by assumption.
    destruct (Z.eq_dec u 0) as [->|Hnz]; [reflexivity|].
    apply Z.log2_spec. lia. }
  destruct (fmtDigits_spec _ u [] Hb) as (ds & Heq & Hne & Hdig & Hval).
  rewrite Heq, app_nil_r. auto.
Qed.

Lemma is_digit_range (c : byte) :
  fmt.is_digit c = true <-> 48 <= byte_to_Z c <= 57.
Proof.
  unfold fmt.is_digit. rewrite andb_true_iff, !Z.leb_le. tauto.
Qed.

Lemma byte_neq_by_value (a b : byte) : byte_to_Z a <> byte_to_Z b -> a <> b.
Proof. intros H ->. apply H. reflexivity. Qed.

Lemma digit_not_byte (c b : byte) :
  fmt.is_digit c = true -> fmt.is_digit b = false -> byte_eqb c b = false.
Proof.
  intros Hc Hb. apply byte_eqb_neq. intros ->. congruence.
Qed.

(** Nothing is skipped in front of a digit. *)
Lemma SkipSpace_digit (c : byte) (s : gostring) :
  fmt.is_digit c = true -> fmt.SkipSpace (c :: s) = fmt.Ok tt (c :: s).
Proof.
  intros Hc. unfold fmt.SkipSpace. cbn [List.length fmt.SkipSpace_loop].
  rewrite (digit_not_byte c fmt.CR Hc eq_refl).
  rewrite (digit_not_byte c fmt.LF Hc eq_refl).
  cbn [andb].
  apply is_digit_range in Hc.
  assert (Hw : fmt.space_width (c :: s) = O).
  { unfold fmt.space_width.
    destruct (Z.leb_spec 9 (byte_to_Z c)); try lia.
    destruct (Z.leb_spec (byte_to_Z c) 13); try lia.
    destruct (Z.eqb_spec (byte_to_Z c) 32); try lia.
    cbn [andb orb].
    destruct s as [|c1 s]; [reflexivity|].
    destruct (Z.eqb_spec (byte_to_Z c) 194); try lia.
    cbn [andb].
    destruct s as [|c2 s]; [reflexivity|].
    destruct (Z.eqb_spec (byte_to_Z c) 225); try lia.
    destruct (Z.eqb_spec (byte_to_Z c) 226); try lia.
    destruct (Z.eqb_spec (byte_to_Z c) 227); try lia.
    reflexivity. }
  rewrite Hw. reflexivity.
Qed.

Lemma accept_all_digits (ds rest : gostring) :
  forallb fmt.is_digit ds = true ->
  match rest with [] => True | c :: _ => fmt.is_digit c = false end ->
  fmt.accept_all fmt.is_digit (ds ++ rest) = (ds, rest).
Proof.
  intros Hds Hrest. induction ds as [|d ds IH]; simpl in *.
  - destruct rest as [|c rest]; [reflexivity|]. simpl. rewrite Hrest. reflexivity.
  - apply andb_true_iff in Hds. destruct Hds as [Hd Hds].
    rewrite Hd, IH by assumption. reflexivity.
Qed.

Lemma SkipSpace_fmtInteger (u : Z) (rest : gostring) :
  0 <= u ->
  fmt.SkipSpace (fmt.fmtInteger u ++ rest) = fmt.Ok tt (fmt.fmtInteger u ++ rest).
Proof.
  intros Hu. destruct (fmtInteger_spec u Hu) as (Hne & Hdig & _).
  destruct (fmt.fmtInteger u) as [|c ds]; [congruence|].
  simpl in Hdig. apply andb_true_iff in Hdig.
  simpl. apply SkipSpace_digit. tauto.
Qed.

Lemma scanNumber_fmtInteger (u : Z) (rest : gostring) :
  0 <= u -> ends_number rest ->
  fmt.scanNumber (fmt.fmtInteger u ++ rest) = fmt.Ok (fmt.fmtInteger u) rest.
Proof.
  intros Hu Hrest. destruct (fmtInteger_spec u Hu) as (Hne & Hdig & _).
  destruct (fmt.fmtInteger u) as [|c ds]; [congruence|].
  simpl in Hdig. apply andb_true_iff in Hdig. destruct Hdig as [Hc Hds].
  simpl. rewrite Hc, (accept_all_digits ds rest Hds Hrest). reflexivity.
Qed.

(** An unsigned number of [bitSize] bits, printed with [%d], scans back. *)
Lemma scanUint_fmtInteger (bitSize u : Z) (rest : gostring) :
  0 <= bitSize <= 64 -> 0 <= u < 2 ^ bitSize -> ends_number rest ->
  fmt.scanUint bitSize (fmt.fmtInteger u ++ rest) = fmt.Ok u rest.
Proof.
  intros Hb Hu Hrest. unfold fmt.scanUint.
  rewrite SkipSpace_fmtInteger by lia.
  destruct (fmtInteger_spec u (proj1 Hu)) as (Hne & Hdig & Hval).
  assert (HnotEOF : fmt.notEOF (fmt.fmtInteger u ++ rest)
                    = fmt.Ok tt (fmt.fmtInteger u ++ rest)).
  { destruct (fmt.fmtInteger u); [congruence | reflexivity]. }
  rewrite HnotEOF, scanNumber_fmtInteger by (lia || assumption).
  unfold fmt.ParseUint. rewrite Hdig, Hval.
  assert (H64 : 2 ^ bitSize <= 2 ^ 64) by (apply Z.pow_le_mono_r; lia).
  destruct (fmt.fmtInteger u); [congruence|].
  destruct (Z.ltb_spec u (2 ^ 64)); [|lia].
  destruct (Z.ltb_spec u (2 ^ bitSize)); [reflexivity | lia].
Qed.

(** ** Base64 *)

(** An "or" of two numbers with no bit in common is their sum. *)
Lemma lor_disjoint (x y n : Z) :
  0 <= n -> x mod 2 ^ n = 0 -> 0 <= y < 2 ^ n -> Z.lor x y = x + y.
Proof.
  intros Hn Hx Hy.
  pose proof (Z.add_lor_land x y) as H.
  assert (Hland : Z.land x y = 0).
  { apply Z.bits_inj'. intros i Hi.
    rewrite Z.land_spec, Z.bits_0.
    destruct (Z.lt_ge_cases i n) as [Hlt|Hge].
    - rewrite <- (Z.mod_pow2_bits_low x n i) by lia.
      rewrite Hx, Z.bits_0. reflexivity.
    - destruct (Z.eq_dec y 0) as [->|Hy0].
      + rewrite Z.bits_0. apply andb_false_r.
      + rewrite (Z.bits_above_log2 y i); [apply andb_false_r | lia |].
        apply Z.lt_le_trans with n; [|assumption].
        apply Z.log2_lt_pow2; lia. }
  lia.
Qed.

Lemma land_63 (x : Z) : Z.land x 63 = x mod 64.
Proof. change 63 with (Z.ones 6). rewrite Z.land_ones by lia. reflexivity. Qed.

Lemma shiftl_mul (x n : Z) : 0 <= n -> Z.shiftl x n = x * 2 ^ n.
Proof. intros. apply Z.shiftl_mul_pow2. assumption. Qed.

Lemma shiftr_div (x n : Z) : 0 <= n -> Z.shiftr x n = x / 2 ^ n.
Proof. intros. apply Z.shiftr_div_pow2. assumption. Qed.

Ltac to_arith :=
  repeat first
    [ rewrite land_63
    | rewrite shiftl_mul by lia
    | rewrite shiftr_div by lia ];
  change (2 ^ 18) with 262144 in *; change (2 ^ 16) with 65536 in *;
  change (2 ^ 12) with 4096 in *; change (2 ^ 8) with 256 in *;
  change (2 ^ 6) with 64 in *.

Ltac divmod := Z.div_mod_to_equations; lia.

(** The 24 bits of a group, from its three bytes. *)
Lemma group_val (a b c : Z) :
  0 <= a < 256 -> 0 <= b < 256 -> 0 <= c < 256 ->
  Z.lor (Z.lor (Z.shiftl a 16) (Z.shiftl b 8)) c = a * 65536 + b * 256 + c.
Proof.
  intros Ha Hb Hc. to_arith.
  rewrite (lor_disjoint (a * 65536) (b * 256) 16) by (try divmod; lia).
  rewrite (lor_disjoint (a * 65536 + b * 256) c 8) by (try divmod; lia).
  reflexivity.
Qed.

(** The four 6-bit digits of a 24-bit number put it together again. *)
Lemma quantum_val_sextets (v : Z) :
  0 <= v < 2 ^ 24 ->
  base64.RawStdEncoding.Strict.quantum_val
    (Z.land (Z.shiftr v 18) 63) (Z.land (Z.shiftr v 12) 63)
    (Z.land (Z.shiftr v 6) 63) (Z.land v 63) = v.
Proof.
  intros Hv. change (2 ^ 24) with 16777216 in Hv.
  unfold base64.RawStdEncoding.Strict.quantum_val. to_arith.
  rewrite (lor_disjoint (v / 262144 mod 64 * 262144) (v / 4096 mod 64 * 4096) 18)
    by (try divmod; lia).
  rewrite (lor_disjoint _ (v / 64 mod 64 * 64) 12) by (try divmod; lia).
  rewrite (lor_disjoint _ (v mod 64) 6) by (try divmod; lia).
  divmod.
Qed.

Lemma sextet_range (x : Z) : 0 <= Z.land x 63 < 64.
Proof. rewrite land_63. apply Z.mod_pos_bound. lia. Qed.

(** Every 6-bit value has its character, and the character leads back to
    the value. *)
Lemma decodeMap_encode (i : Z) :
  0 <= i < 64 -> base64.decodeMap (base64.encode i) = i.
Proof.
  intros Hi.
  assert (Hn : exists n, i = Z.of_nat n /\ (n < 64)%nat).
  { exists (Z.to_nat i). split; lia. }
  destruct Hn as (n & -> & Hn).
  do 64 (destruct n as [|n]; [reflexivity|]). lia.
Qed.

Lemma encode_in_alphabet (i : Z) :
  0 <= i < 64 -> in_alphabet (base64.encode i) = true.
Proof.
  intros Hi. unfold in_alphabet. rewrite decodeMap_encode by assumption.
  destruct (Z.eqb_spec i 255); [lia | reflexivity].
Qed.

Lemma bytes_ind3 (P : bytes -> Prop) :
  P [] -> (forall a, P [a]) -> (forall a b, P [a; b]) ->
  (forall a b c rest, P rest -> P (a :: b :: c :: rest)) ->
  forall l, P l.
Proof.
  intros H0 H1 H2 H3.
  assert (H : forall l, P l /\ (forall a, P (a :: l)) /\ (forall a b, P (a :: b :: l))).
  { induction l as [|x l (IH0 & IH1 & IH2)]; repeat split; auto. }
  intros l. apply H.
Qed.

(** The encoder writes only bytes of the alphabet. *)
Lemma EncodeToString_alphabet (src : bytes) :
  forallb in_alphabet (base64.RawStdEncoding.EncodeToString src) = true.
Proof.
  induction src as [|a|a b|a b c rest IH] using bytes_ind3.
  - reflexivity.
  - cbn [base64.RawStdEncoding.EncodeToString forallb].
    rewrite !encode_in_alphabet by apply sextet_range. reflexivity.
  - cbn [base64.RawStdEncoding.EncodeToString forallb].
    rewrite !encode_in_alphabet by apply sextet_range. reflexivity.
  - cbn [base64.RawStdEncoding.EncodeToString forallb].
    rewrite !encode_in_alphabet by apply sextet_range. rewrite IH. reflexivity.
Qed.

Lemma byte_of_Z_eq (z : Z) (b : byte) :
  z mod 256 = byte_to_Z b -> byte_of_Z z = b.
Proof.
  intros H. rewrite <- (byte_of_to_Z b). unfold byte_of_Z.
  rewrite H, Z.mod_small by apply byte_to_Z_range. reflexivity.
Qed.

Lemma byte_of_Z_zero (z : Z) : z mod 256 = 0 -> byte_of_Z z = zero.
Proof. intros H. apply byte_of_Z_eq. exact H. Qed.

Lemma sextet_neq_255 (x : Z) : (Z.land x 63 =? 255) = false.
Proof. pose proof (sextet_range x). apply Z.eqb_neq. lia. Qed.

Section Quantum.

Import base64.RawStdEncoding.Strict.

Variables A B C : Z.
Hypothesis HA : 0 <= A < 256.
Hypothesis HB : 0 <= B < 256.
Hypothesis HC : 0 <= C < 256.

(** One byte left over: two characters, decoded to the byte. *)
Lemma quantum_one :
  let v := Z.shiftl A 16 in
  let val := quantum_val (Z.land (Z.shiftr v 18) 63)
                         (Z.land (Z.shiftr v 12) 63) 0 0 in
  Z.shiftr val 16 mod 256 = A /\ Z.shiftr val 8 mod 256 = 0 /\ val mod 256 = 0.
Proof using A HA.
  clear B C HB HC. intros v val.
  assert (Ev : v = A * 65536) by (unfold v; to_arith; reflexivity).
  assert (Hv : 0 <= v < 2 ^ 24) by (change (2 ^ 24) with 16777216; lia).
  assert (E : val = v).
  { unfold val. rewrite <- (quantum_val_sextets v Hv) at 3.
    f_equal; rewrite Ev; to_arith; symmetry; divmod. }
  rewrite E, Ev. to_arith. repeat split; divmod.
Qed.

(** Two bytes left over: three characters. *)
Lemma quantum_two :
  let v := Z.lor (Z.shiftl A 16) (Z.shiftl B 8) in
  let val := quantum_val (Z.land (Z.shiftr v 18) 63)
                         (Z.land (Z.shiftr v 12) 63)
                         (Z.land (Z.shiftr v 6) 63) 0 in
  Z.shiftr val 16 mod 256 = A /\ Z.shiftr val 8 mod 256 = B /\ val mod 256 = 0.
Proof using A B HA HB.
  clear C HC. intros v val.
  assert (Ev : v = A * 65536 + B * 256).
  { unfold v. to_arith. apply (lor_disjoint _ _ 16); try divmod; lia. }
  assert (Hv : 0 <= v < 2 ^ 24) by (change (2 ^ 24) with 16777216; lia).
  assert (E : val = v).
  { unfold val. rewrite <- (quantum_val_sextets v Hv) at 4.
    f_equal. rewrite Ev; to_arith; symmetry; divmod. }
  rewrite E, Ev. to_arith. repeat split; divmod.
Qed.

(** A full group: four characters, decoded to the three bytes. *)
Lemma quantum_three :
  let v := Z.lor (Z.lor (Z.shiftl A 16) (Z.shiftl B 8)) C in
  let val := quantum_val (Z.land (Z.shiftr v 18) 63)
                         (Z.land (Z.shiftr v 12) 63)
                         (Z.land (Z.shiftr v 6) 63) (Z.land v 63) in
  Z.shiftr val 16 mod 256 = A /\ Z.shiftr val 8 mod 256 = B /\ val mod 256 = C.
Proof.
  intros v val.
  assert (Ev : v = A * 65536 + B * 256 + C) by (apply group_val; assumption).
  assert (Hv : 0 <= v < 2 ^ 24) by (change (2 ^ 24) with 16777216; lia).
  assert (E : val = v) by (apply quantum_val_sextets; assumption).
  rewrite E, Ev. to_arith. repeat split; divmod.
Qed.

End Quantum.

(** Strict decoding of what the encoder wrote gives the bytes back. *)
Lemma decode_EncodeToString (src : bytes) :
  base64.RawStdEncoding.Strict.decode
    (base64.RawStdEncoding.EncodeToString src) = Some src.
Proof.
  induction src as [|a|a b|a b c rest IH] using bytes_ind3.
  - reflexivity.
  - cbn [base64.RawStdEncoding.EncodeToString base64.RawStdEncoding.Strict.decode].
    rewrite !decodeMap_encode by apply sextet_range.
    rewrite !sextet_neq_255. cbn [orb].
    destruct (quantum_one (byte_to_Z a) (byte_to_Z_range a)) as (E0 & E1 & E2).
    rewrite (byte_of_Z_eq _ a E0).
    rewrite (byte_of_Z_zero _ E1), (byte_of_Z_zero _ E2).
    reflexivity.
  - cbn [base64.RawStdEncoding.EncodeToString base64.RawStdEncoding.Strict.decode].
    rewrite !decodeMap_encode by apply sextet_range.
    rewrite !sextet_neq_255. cbn [orb].
    destruct (quantum_two (byte_to_Z a) (byte_to_Z b)
                (byte_to_Z_range a) (byte_to_Z_range b)) as (E0 & E1 & E2).
    rewrite (byte_of_Z_eq _ a E0), (byte_of_Z_eq _ b E1).
    rewrite (byte_of_Z_zero _ E2).
    reflexivity.
  - cbn [base64.RawStdEncoding.EncodeToString base64.RawStdEncoding.Strict.decode].
    rewrite !decodeMap_encode by apply sextet_range.
    rewrite !sextet_neq_255. cbn [orb].
    destruct (quantum_three (byte_to_Z a) (byte_to_Z b) (byte_to_Z c)
                (byte_to_Z_range a) (byte_to_Z_range b) (byte_to_Z_range c))
      as (E0 & E1 & E2).
    rewrite (byte_of_Z_eq _ a E0), (byte_of_Z_eq _ b E1), (byte_of_Z_eq _ c E2).
    rewrite IH. reflexivity.
Qed.

Lemma in_alphabet_not (c b : byte) :
  in_alphabet c = true -> in_alphabet b = false -> c <> b.
Proof. intros Hc Hb ->. congruence. Qed.

Lemma skip_newlines_alphabet (s : gostring) :
  forallb in_alphabet s = true -> base64.skip_newlines s = s.
Proof.
  induction s as [|c s IH]; simpl; intros H; [reflexivity|].
  apply andb_true_iff in H. destruct H as [Hc Hs].
  assert (E1 : byte_eqb c base64.CR = false).
  { apply byte_eqb_neq. apply in_alphabet_not; [assumption | reflexivity]. }
  assert (E2 : byte_eqb c base64.LF = false).
  { apply byte_eqb_neq. apply in_alphabet_not; [assumption | reflexivity]. }
  rewrite E1, E2. simpl. f_equal. apply IH. assumption.
Qed.

(** Round trip of the codec: [DecodeString(EncodeToString(src)) = src]. *)
Lemma DecodeString_EncodeToString (src : bytes) :
  base64.RawStdEncoding.Strict.DecodeString
    (base64.RawStdEncoding.EncodeToString src) = inr src.
Proof.
  unfold base64.RawStdEncoding.Strict.DecodeString.
  rewrite skip_newlines_alphabet by apply EncodeToString_alphabet.
  rewrite decode_EncodeToString. reflexivity.
Qed.

Lemma alphabet_no_byte (s : gostring) (b : byte) :
  forallb in_alphabet s = true -> in_alphabet b = false -> ~ In b s.
Proof.
  intros Hs Hb Hin. rewrite forallb_forall in Hs.
  specialize (Hs b Hin). congruence.
Qed.

(** No [$] in an encoded string. *)
Lemma EncodeToString_no_sep (src : bytes) :
  ~ In splitChar (base64.RawStdEncoding.EncodeToString src).
Proof.
  apply alphabet_no_byte; [apply EncodeToString_alphabet | reflexivity].
Qed.

(** ** Constant-time comparison *)

Lemma byte_to_Z_inj (a b : byte) : byte_to_Z a = byte_to_Z b -> a = b.
Proof.
  intros H. rewrite <- (byte_of_to_Z a), <- (byte_of_to_Z b), H. reflexivity.
Qed.

Lemma uint8_small (z : Z) : 0 <= z < 256 -> uint8 z = z.
Proof. intros H. unfold uint8. apply Z.mod_small. exact H. Qed.

Lemma uint8_range (z : Z) : 0 <= uint8 z < 256.
Proof. unfold uint8. apply Z.mod_pos_bound. reflexivity. Qed.

Lemma uint8_lor (v x : Z) :
  0 <= v < 256 -> 0 <= x < 256 -> uint8 (Z.lor v x) = Z.lor v x.
Proof.
  intros Hv Hx. unfold uint8.
  rewrite <- !Z.land_ones by lia.
  rewrite Z.land_lor_distr_l, !Z.land_ones by lia.
  change (2 ^ 8) with 256. rewrite !Z.mod_small by assumption. reflexivity.
Qed.

Lemma lxor_byte_range (a b : Z) :
  0 <= a < 256 -> 0 <= b < 256 -> 0 <= Z.lxor a b < 256.
Proof.
  intros Ha Hb.
  assert (Hnn : 0 <= Z.lxor a b) by (apply Z.lxor_nonneg; lia).
  split; [assumption|].
  destruct (Z.eq_dec (Z.lxor a b) 0) as [->|Hnz]; [lia|].
  change 256 with (2 ^ 8). apply Z.log2_lt_pow2; [lia|].
  pose proof (Z.log2_lxor a b ltac:(lia) ltac:(lia)) as Hl.
  assert (La : Z.log2 a < 8).
  { destruct (Z.eq_dec a 0) as [->|]; [reflexivity|].
    apply Z.log2_lt_pow2; [lia|]. change (2 ^ 8) with 256. lia. }
  assert (Lb : Z.log2 b < 8).
  { destruct (Z.eq_dec b 0) as [->|]; [reflexivity|].
    apply Z.log2_lt_pow2; [lia|]. change (2 ^ 8) with 256. lia. }
  lia.
Qed.

(** The accumulator of the loop ends at zero exactly when it started at
    zero and no pair of bytes differed. *)
Lemma xor_loop_zero (x : bytes) :
  forall y i v, 0 <= v < 256 -> List.length x = List.length y ->
  0 <= fst (subtle.xor_loop i v x y) < 256
  /\ (fst (subtle.xor_loop i v x y) = 0 <-> v = 0 /\ x = y).
Proof.
  induction x as [|a x IH]; intros [|b y] i v Hv Hlen; simpl in Hlen;
    try discriminate.
  - simpl. split; [assumption | tauto].
  - cbn [subtle.xor_loop].
    pose proof (byte_to_Z_range a) as Ha. pose proof (byte_to_Z_range b) as Hb.
    pose proof (lxor_byte_range _ _ Ha Hb) as Hxr.
    set (v' := uint8 (Z.lor v (Z.lxor (byte_to_Z a) (byte_to_Z b)))).
    assert (Hv' : 0 <= v' < 256) by apply uint8_range.
    assert (Ev' : v' = Z.lor v (Z.lxor (byte_to_Z a) (byte_to_Z b))).
    { unfold v'. apply uint8_lor; assumption. }
    specialize (IH y (i + 1) v' Hv' ltac:(lia)).
    destruct (subtle.xor_loop (i + 1) v' x y) as [r obs]. simpl in *.
    destruct IH as [Hr Hiff]. split; [assumption|].
    rewrite Hiff, Ev', Z.lor_eq_0_iff. split.
    + intros [[Hv0 Hx0] ->]. apply Z.lxor_eq in Hx0.
      apply byte_to_Z_inj in Hx0. subst. auto.
    + intros [Hv0 Heq]. inversion Heq; subst.
      rewrite Z.lxor_nilpotent. auto.
Qed.

Lemma ConstantTimeByteEq_zero (v : Z) :
  0 <= v < 256 ->
  subtle.ConstantTimeByteEq v 0 = if v =? 0 then 1 else 0.
Proof.
  intros Hv. unfold subtle.ConstantTimeByteEq, uint32.
  rewrite Z.lxor_0_r, (Z.mod_small v) by (change (2 ^ 32) with 4294967296; lia).
  rewrite Z.shiftr_div_pow2 by lia.
  change (2 ^ 32) with 4294967296. change (2 ^ 31) with 2147483648.
  destruct (Z.eqb_spec v 0) as [->|Hnz].
  - reflexivity.
  - rewrite Z.mod_small by lia. apply Z.div_small. lia.
Qed.

Lemma bytes_eqb_length (x y : bytes) :
  bytes_eqb x y = true -> List.length x = List.length y.
Proof. intros H. apply bytes_eqb_eq in H. subst. reflexivity. Qed.

(** [ConstantTimeCompare] is 1 on equal slices and 0 on all others. *)
Lemma ConstantTimeCompare_spec (x y : bytes) :
  subtle.ConstantTimeCompare x y = if bytes_eqb x y then 1 else 0.
Proof.
  unfold subtle.ConstantTimeCompare, subtle.ConstantTimeCompare_run, len.
  destruct (Z.eqb_spec (Z.of_nat (List.length x)) (Z.of_nat (List.length y)))
    as [Hlen|Hlen]; cbn [negb].
  - apply Nat2Z.inj in Hlen.
    destruct (xor_loop_zero x y 0 0 ltac:(lia) Hlen) as [Hr Hiff].
    destruct (subtle.xor_loop 0 0 x y) as [v obs]. simpl in *.
    rewrite ConstantTimeByteEq_zero by assumption.
    destruct (Z.eqb_spec v 0) as [Hv|Hv].
    + apply Hiff in Hv. destruct Hv as [_ ->]. rewrite bytes_eqb_refl. reflexivity.
    + destruct (bytes_eqb x y) eqn:E; [|reflexivity].
      apply bytes_eqb_eq in E. exfalso. apply Hv. apply Hiff. auto.
  - simpl. destruct (bytes_eqb x y) eqn:E; [|reflexivity].
    apply bytes_eqb_length in E. congruence.
Qed.

(** What the loop leaks is fixed by the lengths of its operands. *)
Lemma xor_loop_leak (x : bytes) :
  forall x' y y' i v v',
  List.length x = List.length x' -> List.length y = List.length y' ->
  snd (subtle.xor_loop i v x y) = snd (subtle.xor_loop i v' x' y').
Proof.
  induction x as [|a x IH]; intros [|a' x'] y y' i v v' Hx Hy;
    simpl in Hx; try discriminate.
  - reflexivity.
  - destruct y as [|b y], y' as [|b' y']; simpl in Hy; try discriminate.
    + reflexivity.
    + cbn [subtle.xor_loop].
      specialize (IH x' y y' (i + 1)
        (uint8 (Z.lor v (Z.lxor (byte_to_Z a) (byte_to_Z b))))
        (uint8 (Z.lor v' (Z.lxor (byte_to_Z a') (byte_to_Z b'))))
        ltac:(lia) ltac:(lia)).
      destruct (subtle.xor_loop (i + 1) _ x y) as [r obs].
      destruct (subtle.xor_loop (i + 1) _ x' y') as [r' obs'].
      simpl in *. congruence.
Qed.

Lemma ConstantTimeCompare_leak (x x' y y' : bytes) :
  List.length x = List.length x' -> List.length y = List.length y' ->
  snd (subtle.ConstantTimeCompare_run x y)
  = snd (subtle.ConstantTimeCompare_run x' y').
Proof.
  intros Hx Hy. unfold subtle.ConstantTimeCompare_run, len.
  rewrite <- Hx, <- Hy.
  destruct (negb (Z.of_nat (List.length x) =? Z.of_nat (List.length y)));
    [reflexivity|].
  pose proof (xor_loop_leak x x' y y' 0 0 0 Hx Hy) as H.
  destruct (subtle.xor_loop 0 0 x y) as [v obs].
  destruct (subtle.xor_loop 0 0 x' y') as [v' obs'].
  simpl in *. congruence.
Qed.

(** The loop runs once for every index, whatever the bytes are. *)
Lemma xor_loop_visits_all (x : bytes) :
  forall y i v, List.length x = List.length y ->
  snd (subtle.xor_loop i v x y) = full_scan i (List.length x).
Proof.
  induction x as [|a x IH]; intros [|b y] i v Hlen; simpl in Hlen;
    try discriminate.
  - reflexivity.
  - cbn [subtle.xor_loop].
    specialize (IH y (i + 1)
      (uint8 (Z.lor v (Z.lxor (byte_to_Z a) (byte_to_Z b)))) ltac:(lia)).
    destruct (subtle.xor_loop (i + 1) _ x y) as [r obs]. simpl in IH. subst obs.
    reflexivity.
Qed.

(** ** The canonical string *)

#[local] Arguments fmt.fmtInteger : simpl never.
#[local] Arguments base64.RawStdEncoding.EncodeToString : simpl never.

Lemma is_digit_not_sign (c : byte) :
  fmt.is_digit c = true -> fmt.is_sign c = false.
Proof.
  intros Hc. unfold fmt.is_sign.
  rewrite (digit_not_byte c "+" Hc eq_refl), (digit_not_byte c "-" Hc eq_refl).
  reflexivity.
Qed.

(** An [int] that is not negative, printed with [%d], scans back. *)
Lemma scanInt_fmtInteger (u : Z) (rest : gostring) :
  0 <= u < 2 ^ 63 -> ends_number rest ->
  fmt.scanInt 64 (fmt.fmtInteger u ++ rest) = fmt.Ok u rest.
Proof.
  intros Hu Hrest. unfold fmt.scanInt.
  rewrite SkipSpace_fmtInteger by lia.
  pose proof (scanNumber_fmtInteger u rest (proj1 Hu) Hrest) as Hscan.
  destruct (fmtInteger_spec u (proj1 Hu)) as (Hne & Hdig & Hval).
  destruct (fmt.fmtInteger u) as [|c ds] eqn:E; [congruence|].
  assert (Hc : fmt.is_digit c = true).
  { simpl in Hdig. apply andb_true_iff in Hdig. tauto. }
  cbn [app fmt.notEOF]. rewrite (is_digit_not_sign c Hc).
  cbn [app] in Hscan. rewrite Hscan.
  unfold fmt.ParseInt. cbn [app].
  rewrite (digit_not_byte c "+" Hc eq_refl), (digit_not_byte c "-" Hc eq_refl).
  rewrite Hdig, Hval. cbn [negb andb].
  destruct (Z.leb_spec (2 ^ 63) u) as [H|H]; [lia|].
  change (64 - 1) with 63.
  destruct (Z.leb_spec (- 2 ^ 63) u) as [H1|H1]; [|lia].
  destruct (Z.ltb_spec u (2 ^ 63)) as [H2|H2]; [reflexivity | lia].
Qed.

(** Whatever its target, a number printed with [%d] that is not negative
    and fits the target scans back. *)
Lemma scanOne_fmtInteger (t : fmt.target) (u : Z) (rest : gostring) :
  0 <= u -> target_ok t u -> ends_number rest ->
  fmt.scanOne t (fmt.fmtInteger u ++ rest) = fmt.Ok u rest.
Proof.
  intros Hu Hok Hrest. destruct t; simpl in Hok; unfold fmt.scanOne.
  - apply scanInt_fmtInteger; [lia | assumption].
  - apply scanUint_fmtInteger; [lia | exact Hok | assumption].
  - apply scanUint_fmtInteger; [lia | exact Hok | assumption].
Qed.

Lemma doScanf_Verb_d (f : fmt.format) (t : fmt.target) (ts : list fmt.target)
      (u : Z) (rest : gostring) :
  0 <= u -> target_ok t u -> ends_number rest ->
  fmt.doScanf (fmt.Verb_d :: f) (fmt.fmtInteger u ++ rest) (t :: ts)
  = match fmt.doScanf f rest ts with
    | inl e => inl e
    | inr vs => inr (u :: vs)
    end.
Proof.
  intros Hu Hok Hrest. cbn [fmt.doScanf].
  rewrite SkipSpace_fmtInteger by assumption.
  rewrite scanOne_fmtInteger by assumption. reflexivity.
Qed.

Lemma doScanf_Lit (f : fmt.format) (c : byte) (s : gostring)
      (ts : list fmt.target) :
  fmt.doScanf (fmt.Lit c :: f) (c :: s) ts = fmt.doScanf f s ts.
Proof. cbn [fmt.doScanf]. rewrite byte_eqb_refl. reflexivity. Qed.

Lemma Sscanf_version (v : Z) :
  0 <= v < 2 ^ 63 ->
  fmt.Sscanf (str "v=" ++ fmt.fmtInteger v) versionTemplate [fmt.IntPtr]
  = inr [v].
Proof.
  intros Hv. unfold fmt.Sscanf, versionTemplate.
  change (fmt.parse (str "v=%d")) with [fmt.Lit "v"; fmt.Lit "="; fmt.Verb_d].
  cbn [str list_ascii_of_string app].
  rewrite !doScanf_Lit.
  rewrite <- (app_nil_r (fmt.fmtInteger v)).
  rewrite doScanf_Verb_d; [reflexivity | lia | simpl; lia | exact I].
Qed.

Lemma Sscanf_params (m t p : Z) :
  is_uint32 m -> is_uint32 t -> is_uint8 p ->
  fmt.Sscanf (str "m=" ++ fmt.fmtInteger m ++ str ",t=" ++ fmt.fmtInteger t
              ++ str ",p=" ++ fmt.fmtInteger p)
             paramsTemplate [fmt.Uint32Ptr; fmt.Uint32Ptr; fmt.Uint8Ptr]
  = inr [m; t; p].
Proof.
  intros Hm Ht Hp. unfold fmt.Sscanf, paramsTemplate.
  change (fmt.parse (str "m=%d,t=%d,p=%d"))
    with [fmt.Lit "m"; fmt.Lit "="; fmt.Verb_d;
          fmt.Lit ","; fmt.Lit "t"; fmt.Lit "="; fmt.Verb_d;
          fmt.Lit ","; fmt.Lit "p"; fmt.Lit "="; fmt.Verb_d].
  cbn [str list_ascii_of_string app].
  rewrite !doScanf_Lit.
  rewrite doScanf_Verb_d;
    [ | apply Hm | exact Hm | reflexivity ].
  rewrite !doScanf_Lit.
  rewrite doScanf_Verb_d;
    [ | apply Ht | exact Ht | reflexivity ].
  rewrite !doScanf_Lit.
  rewrite <- (app_nil_r (fmt.fmtInteger p)).
  rewrite doScanf_Verb_d;
    [ reflexivity | apply Hp | exact Hp | exact I ].
Qed.

(** [%d] writes a minus sign and digits, nothing else. *)
Lemma fmtInteger_chars (z : Z) (c : byte) :
  In c (fmt.fmtInteger z) -> c = "-"%char \/ fmt.is_digit c = true.
Proof.
  unfold fmt.fmtInteger.
  assert (Hb : 0 <= Z.abs z < 2 ^ Z.of_nat (S (Z.to_nat (Z.log2 (Z.abs z))))).
  { pose proof (Z.abs_nonneg z) as Hnn. split; [assumption|].
    pose proof (Z.log2_nonneg (Z.abs z)) as Hl.
    rewrite Nat2Z.inj_succ, Z2Nat.id by assumption.
    destruct (Z.eq_dec (Z.abs z) 0) as [->|Hnz]; [reflexivity|].
    apply Z.log2_spec. lia. }
  destruct (fmtDigits_spec _ (Z.abs z) [] Hb) as (ds & Heq & _ & Hdig & _).
  rewrite Heq, app_nil_r. rewrite forallb_forall in Hdig.
  destruct (z <? 0); simpl; intros Hin.
  - destruct Hin as [<-|Hin]; auto.
  - auto.
Qed.

Lemma fmtInteger_no_sep (z : Z) : ~ In splitChar (fmt.fmtInteger z).
Proof.
  intros Hin. apply fmtInteger_chars in Hin.
  destruct Hin as [H|H]; discriminate.
Qed.

Lemma not_In_app {A} (x : A) (l1 l2 : list A) :
  ~ In x l1 -> ~ In x l2 -> ~ In x (l1 ++ l2).
Proof. intros H1 H2 Hin. apply in_app_or in Hin. tauto. Qed.

Lemma not_In_str (c : byte) (s : string) :
  existsb (byte_eqb c) (str s) = false -> ~ In c (str s).
Proof.
  intros H Hin. assert (E : existsb (byte_eqb c) (str s) = true).
  { apply existsb_exists. exists c. split; [assumption | apply byte_eqb_refl]. }
  congruence.
Qed.

(** [Sprintf] with the package's template writes the canonical string. *)
Lemma Sprintf_template (v m t p : Z) (b64Salt b64Key : gostring) :
  fmt.Sprintf template
    [fmt.Int v; fmt.Uint32 m; fmt.Uint32 t; fmt.Uint8 p;
     fmt.String_ b64Salt; fmt.String_ b64Key]
  = canonical v m t p b64Salt b64Key.
Proof.
  unfold fmt.Sprintf, template, canonical.
  change (fmt.parse (str "$argon2id$v=%d$m=%d,t=%d,p=%d$%s$%s"))
    with (map fmt.Lit (str "$argon2id$v=") ++ fmt.Verb_d
          :: map fmt.Lit (str "$m=") ++ fmt.Verb_d
          :: map fmt.Lit (str ",t=") ++ fmt.Verb_d
          :: map fmt.Lit (str ",p=") ++ fmt.Verb_d
          :: map fmt.Lit (str "$") ++ fmt.Verb_s
          :: map fmt.Lit (str "$") ++ [fmt.Verb_s]).
  cbn [str list_ascii_of_string map app fmt.doPrintf fmt.print_verb].
  rewrite app_nil_r. reflexivity.
Qed.

(** The canonical string splits into its six segments. *)
Lemma Split_canonical (v m t p : Z) (b64Salt b64Key : gostring) :
  ~ In splitChar b64Salt -> ~ In splitChar b64Key ->
  strings.Split (canonical v m t p b64Salt b64Key) splitChar
  = segments v m t p b64Salt b64Key.
Proof.
  intros Hs Hk. unfold segments.
  set (seg_v := str "v=" ++ fmt.fmtInteger v).
  set (seg_p := str "m=" ++ fmt.fmtInteger m ++ str ",t=" ++ fmt.fmtInteger t
                ++ str ",p=" ++ fmt.fmtInteger p).
  assert (E : canonical v m t p b64Salt b64Key
              = [] ++ splitChar :: str "argon2id" ++ splitChar :: seg_v
                ++ splitChar :: seg_p ++ splitChar :: b64Salt
                ++ splitChar :: b64Key).
  { unfold canonical, seg_v, seg_p.
    cbn [str list_ascii_of_string app].
    repeat (rewrite <- app_assoc; cbn [app]). reflexivity. }
  rewrite E.
  assert (Hv : ~ In splitChar seg_v).
  { apply not_In_app; [apply not_In_str; reflexivity | apply fmtInteger_no_sep]. }
  assert (Hp : ~ In splitChar seg_p).
  { unfold seg_p.
    repeat first [ apply fmtInteger_no_sep
                 | apply not_In_app
                 | apply not_In_str; reflexivity ]. }
  rewrite (Split_app_sep [] _ splitChar) by (simpl; tauto).
  rewrite (Split_app_sep (str "argon2id")) by (apply not_In_str; reflexivity).
  rewrite (Split_app_sep seg_v) by assumption.
  rewrite (Split_app_sep seg_p) by assumption.
  rewrite (Split_app_sep b64Salt) by assumption.
  rewrite (Split_no_sep b64Key) by assumption.
  reflexivity.
Qed.

(** On a canonical string [Compare] reaches the key derivation, with the
    salt and the costs of the string and the length of its key. *)
Lemma Compare_canonical (a : Argon2Id) (password : bytes)
      (v m t p : Z) (salt key : bytes) :
  0 <= v < 2 ^ 63 -> is_uint32 m -> is_uint32 t -> is_uint8 p ->
  Compare a password
    (canonical v m t p (base64.RawStdEncoding.EncodeToString salt)
                       (base64.RawStdEncoding.EncodeToString key))
  = IDKeyCall (mkIDKeyArgs password salt t m p (uint32 (len key)))
              (fun comparisonKey => Ret (compare_keys key comparisonKey)).
Proof.
  intros Hv Hm Ht Hp. unfold Compare.
  rewrite Split_canonical by apply EncodeToString_no_sep.
  unfold segments.
  cbn [len List.length nth algorithmIdx versionIdx paramsIdx saltIdx keyIdx].
  change (Z.of_nat 6 =? numParts) with true.
  change (bytes_eqb (str "argon2id") algorithm) with true.
  cbn [negb].
  rewrite Sscanf_version by assumption.
  rewrite Sscanf_params by assumption.
  rewrite !DecodeString_EncodeToString.
  cbn [nth]. reflexivity.
Qed.

(** ** [Generate] *)

Lemma fill_length (n : Z) (data : bytes) : 0 <= n -> len (fill n data) = n.
Proof.
  intros Hn. unfold len, fill.
  rewrite length_firstn, length_app, repeat_length. lia.
Qed.

Lemma IDKey_Some (w : World) (args : IDKeyArgs) (key : bytes) :
  argon2.IDKey w args = Some key ->
  1 <= kdf_time args /\ 1 <= kdf_threads args /\ derive w args = Some key.
Proof.
  unfold argon2.IDKey.
  destruct (Z.ltb_spec (kdf_time args) 1); [discriminate|].
  destruct (Z.ltb_spec (kdf_threads args) 1); [discriminate|].
  auto.
Qed.

Lemma IDKey_contract (w : World) (args : IDKeyArgs) (key : bytes) :
  kdf_contract w -> is_uint32 (kdf_keyLen args) ->
  argon2.IDKey w args = Some key -> len key = kdf_keyLen args.
Proof.
  intros Hc Hlen Hk. apply IDKey_Some in Hk. apply Hc; tauto.
Qed.

(** All that [Generate] can do: return the error of the random source,
    return [ErrBytesNotRead] for a short read, stop in the key derivation,
    or return the canonical string of the salt it drew and the key that
    was derived. *)
Lemma Generate_run (w : World) (a : Argon2Id) (password : bytes) :
  run w (Generate a password)
  = let r := rand_Read w (saltLength a) in
    match rr_err r with
    | Some e => Some ([], Some (Wrapf "argon2id: generate salt: " e))
    | None =>
        if rr_n r =? saltLength a
        then match argon2.IDKey w (Generate_args w a password) with
             | Some key =>
                 Some (canonical argon2.Version (memoryCost a) (timeCost a)
                         (parallelismCost a)
                         (base64.RawStdEncoding.EncodeToString (drawn_salt w a))
                         (base64.RawStdEncoding.EncodeToString key),
                       None)
             | None => None
             end
        else Some ([], Some (Wrapf "argon2id: generate salt: " ErrBytesNotRead))
    end.
Proof.
  unfold Generate. cbn [run]. cbv zeta.
  destruct (rr_err (rand_Read w (saltLength a))) as [e|]; [reflexivity|].
  destruct (rr_n (rand_Read w (saltLength a)) =? saltLength a);
    cbn [negb]; [|reflexivity].
  cbn [run]. fold (drawn_salt w a). fold (Generate_args w a password).
  destruct (argon2.IDKey w (Generate_args w a password)) as [key|];
    [|reflexivity].
  cbn [run]. rewrite Sprintf_template. reflexivity.
Qed.

(** [Generate] does return a string when the random source fills the
    buffer and the key derivation returns. *)
Lemma Generate_returns (w : World) (a : Argon2Id) (password key : bytes) :
  rr_err (rand_Read w (saltLength a)) = None ->
  rr_n (rand_Read w (saltLength a)) = saltLength a ->
  argon2.IDKey w (Generate_args w a password) = Some key ->
  exists s, run w (Generate a password) = Some (s, None).
Proof.
  intros He Hn Hk. rewrite Generate_run. cbv zeta.
  rewrite He, Hn, Z.eqb_refl, Hk. eauto.
Qed.

(** A successful [Generate] drew its salt, derived a key from it and
    wrote the two into the canonical string. *)
Lemma Generate_success (w : World) (a : Argon2Id) (password : bytes)
      (s : gostring) :
  run w (Generate a password) = Some (s, None) ->
  exists key,
    argon2.IDKey w (Generate_args w a password) = Some key
    /\ s = canonical argon2.Version (memoryCost a) (timeCost a)
             (parallelismCost a)
             (base64.RawStdEncoding.EncodeToString (drawn_salt w a))
             (base64.RawStdEncoding.EncodeToString key).
Proof.
  unfold Generate. cbn [run].
  destruct (rr_err (rand_Read w (saltLength a))) as [e|]; [discriminate|].
  destruct (negb (rr_n (rand_Read w (saltLength a)) =? saltLength a));
    [discriminate|].
  cbn [run]. fold (drawn_salt w a). fold (Generate_args w a password).
  destruct (argon2.IDKey w (Generate_args w a password)) as [key|];
    [|discriminate].
  cbn [run]. rewrite Sprintf_template. intros H. inversion H. eauto.
Qed.

Lemma toy_contract : kdf_contract toy_world.
Proof.
  intros args key Hlen H. simpl in H. unfold toy_derive in H.
  inversion H. unfold len. rewrite repeat_length.
  unfold is_uint32 in Hlen. lia.
Qed.

Lemma wf_sample : wf sample.
Proof. unfold wf, sample, is_uint32, is_uint8. simpl. lia. Qed.

Lemma toy_Generate_sample :
  run toy_world (Generate sample (str "super-secret")) = Some (sample_hash, None).
Proof. vm_compute. reflexivity. Qed.

(** ** Round trip, canonical format and wrong passwords *)

(** C1.  Round trip: when [Generate] returns a string for a password, under
    any configuration, [Compare] of the same password with that string
    returns [nil], whatever configuration the verifying receiver has.  The
    key derivation is only assumed to return as many bytes as it is asked
    for. *)
Theorem Generate_Compare_roundtrip (w : World) (a a' : Argon2Id)
        (password : bytes) (s : gostring) :
  wf a -> kdf_contract w ->
  run w (Generate a password) = Some (s, None) ->
  run w (Compare a' password s) = Some None.
Proof.
  intros (Ht & Hm & Hp & Hsl & Hkl) Hc Hgen.
  destruct (Generate_success w a password s Hgen) as (key & Hkey & ->).
  rewrite Compare_canonical; try assumption; [|unfold argon2.Version; lia].
  assert (Hlen : len key = keyLength a).
  { apply (IDKey_contract w (Generate_args w a password)); assumption. }
  rewrite Hlen. unfold uint32. rewrite Z.mod_small by exact Hkl.
  cbn [run]. fold (drawn_salt w a) in Hkey.
  unfold Generate_args in Hkey. rewrite Hkey. cbn [run].
  unfold compare_keys. rewrite ConstantTimeCompare_spec, bytes_eqb_refl.
  reflexivity.
Qed.

(** The round trip in [toy_world], under [sample], verified by a receiver
    with the default configuration of an 8-processor host. *)
Lemma Generate_Compare_roundtrip_witness :
  wf sample /\ kdf_contract toy_world
  /\ run toy_world (Generate sample (str "super-secret"))
     = Some (sample_hash, None)
  /\ run toy_world (Compare (New 8 []) (str "super-secret") sample_hash)
     = Some None.
Proof.
  split; [exact wf_sample|]. split; [exact toy_contract|].
  split; [exact toy_Generate_sample|].
  exact (Generate_Compare_roundtrip toy_world sample (New 8 [])
           (str "super-secret") sample_hash
           wf_sample toy_contract toy_Generate_sample).
Defined.

(** C2.  When [Generate] succeeds its output is the canonical string
    [$argon2id$v=<version>$m=<memoryCost>,t=<timeCost>,p=<parallelismCost>$<salt>$<key>]:
    it splits on [$] into six segments, the first empty, the second the
    algorithm tag, then the version constant of the key derivation, the
    costs of the configuration in the order m, t, p, and the unpadded
    base64 of the salt and of the derived key, which decode back to the
    [saltLength] bytes drawn from the random source and to the [keyLength]
    bytes the key derivation returned. *)
Theorem Generate_canonical (w : World) (a : Argon2Id) (password : bytes)
        (s : gostring) :
  wf a -> kdf_contract w ->
  run w (Generate a password) = Some (s, None) ->
  exists key,
    argon2.IDKey w (Generate_args w a password) = Some key
    /\ s = canonical argon2.Version (memoryCost a) (timeCost a)
             (parallelismCost a)
             (base64.RawStdEncoding.EncodeToString (drawn_salt w a))
             (base64.RawStdEncoding.EncodeToString key)
    /\ strings.Split s splitChar
       = [ [];
           str "argon2id";
           str "v=" ++ fmt.fmtInteger 19;
           str "m=" ++ fmt.fmtInteger (memoryCost a)
             ++ str ",t=" ++ fmt.fmtInteger (timeCost a)
             ++ str ",p=" ++ fmt.fmtInteger (parallelismCost a);
           base64.RawStdEncoding.EncodeToString (drawn_salt w a);
           base64.RawStdEncoding.EncodeToString key ]
    /\ base64.RawStdEncoding.Strict.DecodeString
         (nth saltIdx (strings.Split s splitChar) []) = inr (drawn_salt w a)
    /\ len (drawn_salt w a) = saltLength a
    /\ base64.RawStdEncoding.Strict.DecodeString
         (nth keyIdx (strings.Split s splitChar) []) = inr key
    /\ len key = keyLength a.
Proof.
  intros (Ht & Hm & Hp & Hsl & Hkl) Hc Hgen.
  destruct (Generate_success w a password s Hgen) as (key & Hkey & ->).
  exists key.
  rewrite Split_canonical by apply EncodeToString_no_sep.
  unfold segments. cbn [nth saltIdx keyIdx].
  rewrite !DecodeString_EncodeToString.
  repeat split; try assumption; try reflexivity.
  - apply fill_length. apply Hsl.
  - apply (IDKey_contract w (Generate_args w a password)); assumption.
Qed.

(** The canonical string of the run in [toy_world] under [sample]: a salt
    of 48 bytes and a key of 64. *)
Lemma Generate_canonical_witness :
  exists key,
    argon2.IDKey toy_world (Generate_args toy_world sample (str "super-secret"))
    = Some key
    /\ sample_hash
       = canonical argon2.Version 32768 4 2
           (base64.RawStdEncoding.EncodeToString (drawn_salt toy_world sample))
           (base64.RawStdEncoding.EncodeToString key)
    /\ len (drawn_salt toy_world sample) = 48
    /\ len key = 64.
Proof.
  destruct (Generate_canonical toy_world sample (str "super-secret") sample_hash
              wf_sample toy_contract toy_Generate_sample)
    as (key & H1 & H2 & _ & _ & H5 & _ & H7).
  exists key. repeat split; assumption.
Defined.

(** What [Compare] does with a generated string and any password: it
    derives a key for that password under the salt and costs of the
    string and compares. *)
Lemma Compare_generated (w : World) (a a' : Argon2Id) (P Q : bytes)
      (s : gostring) :
  wf a -> kdf_contract w ->
  run w (Generate a P) = Some (s, None) ->
  exists key,
    argon2.IDKey w (Generate_args w a P) = Some key
    /\ run w (Compare a' Q s)
       = match argon2.IDKey w (Generate_args w a Q) with
         | None => None
         | Some key' =>
             Some (if bytes_eqb key key' then None else Some mismatch)
         end.
Proof.
  intros (Ht & Hm & Hp & Hsl & Hkl) Hc Hgen.
  destruct (Generate_success w a P s Hgen) as (key & Hkey & ->).
  exists key. split; [assumption|].
  rewrite Compare_canonical; try assumption; [|unfold argon2.Version; lia].
  assert (Hlen : len key = keyLength a).
  { apply (IDKey_contract w (Generate_args w a P)); assumption. }
  rewrite Hlen. unfold uint32. rewrite Z.mod_small by exact Hkl.
  cbn [run]. fold (drawn_salt w a). fold (Generate_args w a Q).
  destruct (argon2.IDKey w (Generate_args w a Q)) as [key'|]; [|reflexivity].
  cbn [run]. unfold compare_keys. rewrite ConstantTimeCompare_spec.
  destruct (bytes_eqb key key'); reflexivity.
Qed.

(** C3, as the code has it.  For a string that [Generate] returned for a
    password P, [Compare] with a password Q returns no structural error:
    when the key derivation returns for Q, the result is the mismatch error
    if the key it derives for Q (under the salt and costs of the string)
    differs from the stored key, and [nil] if the two keys are the same. *)
Theorem Compare_other_password (w : World) (a a' : Argon2Id) (P Q : bytes)
        (s : gostring) :
  wf a -> kdf_contract w ->
  run w (Generate a P) = Some (s, None) ->
  exists key,
    argon2.IDKey w (Generate_args w a P) = Some key
    /\ forall key', argon2.IDKey w (Generate_args w a Q) = Some key' ->
       (key' <> key -> run w (Compare a' Q s) = Some (Some mismatch))
       /\ (key' = key -> run w (Compare a' Q s) = Some None).
Proof.
  intros Hwf Hc Hgen.
  destruct (Compare_generated w a a' P Q s Hwf Hc Hgen) as (key & Hkey & Hrun).
  exists key. split; [assumption|].
  intros key' Hkey'. rewrite Hkey' in Hrun. rewrite Hrun.
  split; intros H.
  - destruct (bytes_eqb key key') eqn:E; [|reflexivity].
    apply bytes_eqb_eq in E. congruence.
  - subst. rewrite bytes_eqb_refl. reflexivity.
Qed.

Lemma wf_tiny : wf tiny.
Proof. unfold wf, tiny, is_uint32, is_uint8. simpl. lia. Qed.

Lemma toy_Generate_tiny :
  run toy_world (Generate tiny (str "ab")) = Some (tiny_hash, None).
Proof. vm_compute. reflexivity. Qed.

(** In [toy_world] the password "bb" gets another key than "ab": it is
    turned away with the mismatch error. *)
Lemma Compare_other_password_witness :
  wf tiny /\ kdf_contract toy_world
  /\ run toy_world (Generate tiny (str "ab")) = Some (tiny_hash, None)
  /\ run toy_world (Compare sample (str "bb") tiny_hash)
     = Some (Some mismatch).
Proof.
  split; [exact wf_tiny|]. split; [exact toy_contract|].
  split; [exact toy_Generate_tiny|].
  destruct (Compare_other_password toy_world tiny sample (str "ab") (str "bb")
              tiny_hash wf_tiny toy_contract toy_Generate_tiny)
    as (key & Hkey & H).
  vm_compute in Hkey. inversion Hkey as [Ekey]. clear Hkey. subst key.
  apply (H [byte_of_Z 209]); [vm_compute; reflexivity|].
  intros E. vm_compute in E. discriminate E.
Defined.

(** *** One-byte keys collide, whatever the key derivation *)

(** A map that repeats a value on a list without repetition takes it at
    two different elements. *)
Lemma map_collision {A B : Type} (eqB : forall x y : B, {x = y} + {x <> y})
      (f : A -> B) (l : list A) :
  NoDup l -> ~ NoDup (map f l) ->
  exists x y, In x l /\ In y l /\ x <> y /\ f x = f y.
Proof.
  induction l as [|x l IH]; intros Hnd Hdup.
  - exfalso. apply Hdup. constructor.
  - inversion Hnd as [|? ? Hx Hl]; subst.
    destruct (in_dec eqB (f x) (map f l)) as [Hin|Hnin].
    + apply in_map_iff in Hin. destruct Hin as (y & Hfy & Hy).
      exists x, y. repeat split; simpl; auto.
      intros ->. contradiction.
    + destruct IH as (x' & y' & Hx' & Hy' & Hne & Hf); [assumption | |].
      * intros Hnd'. apply Hdup. simpl. constructor; assumption.
      * exists x', y'. simpl. auto.
Qed.

(** The pigeonhole principle for a map into a list of fewer values. *)
Lemma pigeonhole {A B : Type} (eqB : forall x y : B, {x = y} + {x <> y})
      (f : A -> B) (l : list A) (values : list B) :
  NoDup l -> (forall x, In x l -> In (f x) values) ->
  (List.length values < List.length l)%nat ->
  exists x y, In x l /\ In y l /\ x <> y /\ f x = f y.
Proof.
  intros Hnd Hval Hlen. apply (map_collision eqB); [assumption|].
  intros Hnd'. apply (NoDup_incl_length (l' := values)) in Hnd'.
  - rewrite length_map in Hnd'. lia.
  - intros b Hb. apply in_map_iff in Hb. destruct Hb as (x & <- & Hx). auto.
Qed.

Lemma all_bytes_complete (b : byte) : In b all_bytes.
Proof.
  unfold all_bytes. rewrite <- (ascii_nat_embedding b).
  apply in_map. apply in_seq. pose proof (nat_ascii_bounded b). lia.
Qed.

Lemma all_bytes_NoDup : NoDup all_bytes.
Proof.
  unfold all_bytes. apply Injective_map_NoDup_in; [|apply seq_NoDup].
  intros x y Hx Hy H. apply in_seq in Hx. apply in_seq in Hy.
  rewrite <- (nat_ascii_embedding x), <- (nat_ascii_embedding y) by lia.
  rewrite H. reflexivity.
Qed.

Lemma short_passwords_NoDup : NoDup short_passwords.
Proof.
  unfold short_passwords. constructor.
  - intros Hin. apply in_map_iff in Hin. destruct Hin as (b & Hb & _).
    discriminate.
  - apply Injective_map_NoDup; [|apply all_bytes_NoDup].
    intros x y H. inversion H. reflexivity.
Qed.

Lemma short_passwords_length : List.length short_passwords = 257%nat.
Proof.
  unfold short_passwords, all_bytes. cbn [List.length].
  rewrite !length_map, length_seq. reflexivity.
Qed.

(** Whatever the key derivation is, if its keys of one byte have one byte,
    two of the 257 short passwords get the same key: [Compare] accepts one
    of them for a string generated for the other. *)
Lemma some_wrong_password_accepted (w : World) (a a' : Argon2Id) :
  wf a -> keyLength a = 1 -> kdf_contract w ->
  (forall P, exists s, run w (Generate a P) = Some (s, None)) ->
  exists P Q s,
    P <> Q /\ run w (Generate a P) = Some (s, None)
    /\ run w (Compare a' Q s) = Some None.
Proof.
  intros Hwf Hkl Hc Hgen.
  set (derived := fun P =>
         match argon2.IDKey w (Generate_args w a P) with
         | Some key => key
         | None => []
         end).
  assert (Hone : forall P, exists b, derived P = [b]
                           /\ argon2.IDKey w (Generate_args w a P) = Some [b]).
  { intros P. destruct (Hgen P) as (s & Hs).
    destruct (Generate_success w a P s Hs) as (key & Hkey & _).
    assert (Hlen : len key = 1).
    { rewrite <- Hkl. apply (IDKey_contract w (Generate_args w a P));
        [assumption | apply Hwf | assumption]. }
    unfold derived. rewrite Hkey.
    destruct key as [|b [|c key]]; unfold len in Hlen; simpl in Hlen; try lia.
    exists b. auto. }
  destruct (pigeonhole (list_eq_dec ascii_dec) derived short_passwords
              (map (fun b => [b]) all_bytes))
    as (P & Q & _ & _ & Hne & Heq).
  - apply short_passwords_NoDup.
  - intros P _. destruct (Hone P) as (b & Hb & _). rewrite Hb.
    apply (in_map (fun c => [c])). apply all_bytes_complete.
  - rewrite short_passwords_length, length_map.
    unfold all_bytes. rewrite length_map, length_seq. lia.
  - destruct (Hgen P) as (s & Hs). exists P, Q, s.
    repeat split; try assumption.
    destruct (Compare_generated w a a' P Q s Hwf Hc Hs) as (key & Hkey & Hrun).
    destruct (Hone P) as (b & HdP & HkP). destruct (Hone Q) as (c & HdQ & HkQ).
    rewrite HkQ in Hrun. rewrite Hrun.
    assert (key = [b]) by congruence. subst key.
    assert ([b] = [c]) as -> by congruence.
    rewrite bytes_eqb_refl. reflexivity.
Qed.

(** ** [Compare] *)

(** The two ways [Compare] can go: it returns an error of one of its
    parsing steps without touching the key derivation, or all of the
    string parsed and it calls the key derivation with what it read. *)
Lemma Compare_cases (a : Argon2Id) (password : bytes) (hash : gostring) :
  let parts := strings.Split hash splitChar in
  (exists e, Compare a password hash = Ret (Some e)
             /\ Compare_result hash (Some e)
             /\ e <> mismatch)
  \/ (exists vs ps salt key,
        len parts = numParts
        /\ nth algorithmIdx parts [] = algorithm
        /\ fmt.Sscanf (nth versionIdx parts []) versionTemplate [fmt.IntPtr]
           = inr vs
        /\ fmt.Sscanf (nth paramsIdx parts []) paramsTemplate
                      [fmt.Uint32Ptr; fmt.Uint32Ptr; fmt.Uint8Ptr] = inr ps
        /\ base64.RawStdEncoding.Strict.DecodeString (nth saltIdx parts [])
           = inr salt
        /\ base64.RawStdEncoding.Strict.DecodeString (nth keyIdx parts [])
           = inr key
        /\ Compare a password hash
           = IDKeyCall (mkIDKeyArgs password salt (nth 1 ps 0) (nth 0 ps 0)
                                    (nth 2 ps 0) (uint32 (len key)))
                       (fun comparisonKey =>
                          Ret (compare_keys key comparisonKey))).
Proof.
  intros parts. unfold Compare. fold parts.
  destruct (Z.eqb_spec (len parts) numParts) as [Hn|Hn]; cbn [negb].
  2:{ left. eexists. split; [reflexivity|]. split; [constructor | discriminate]. }
  destruct (bytes_eqb (nth algorithmIdx parts []) algorithm) eqn:Halg;
    cbn [negb].
  2:{ left. eexists. split; [reflexivity|]. split; [constructor | discriminate]. }
  apply bytes_eqb_eq in Halg.
  destruct (fmt.Sscanf (nth versionIdx parts []) versionTemplate [fmt.IntPtr])
    as [e|vs] eqn:Hv.
  { left. eexists. split; [reflexivity|].
    split; [constructor; exact Hv | discriminate]. }
  destruct (fmt.Sscanf (nth paramsIdx parts []) paramsTemplate
              [fmt.Uint32Ptr; fmt.Uint32Ptr; fmt.Uint8Ptr]) as [e|ps] eqn:Hp.
  { left. eexists. split; [reflexivity|].
    split; [constructor; exact Hp | discriminate]. }
  destruct (base64.RawStdEncoding.Strict.DecodeString (nth saltIdx parts []))
    as [e|salt] eqn:Hs.
  { left. eexists. split; [reflexivity|].
    split; [constructor; exact Hs | discriminate]. }
  destruct (base64.RawStdEncoding.Strict.DecodeString (nth keyIdx parts []))
    as [e|key] eqn:Hk.
  { left. eexists. split; [reflexivity|].
    split; [constructor; exact Hk | discriminate]. }
  right. exists vs, ps, salt, key. repeat split; assumption || reflexivity.
Qed.

Lemma compare_keys_spec (key comparisonKey : bytes) :
  compare_keys key comparisonKey
  = if bytes_eqb key comparisonKey then None else Some mismatch.
Proof.
  unfold compare_keys. rewrite ConstantTimeCompare_spec.
  destruct (bytes_eqb key comparisonKey); reflexivity.
Qed.

(** C4.  A string that does not split on [$] into exactly six segments, or
    whose segment 1 is not the algorithm tag, makes [Compare] return the
    malformed-hash error at once: the program is a plain return, it holds
    no call of the key derivation, so it returns the same in every
    world. *)
Theorem Compare_malformed (a : Argon2Id) (password : bytes) (hash : gostring) :
  len (strings.Split hash splitChar) <> 6
  \/ nth 1 (strings.Split hash splitChar) [] <> str "argon2id" ->
  exists msg,
    Compare a password hash = Ret (Some (Wrapf msg ErrMalformedHash))
    /\ errors_Is (Wrapf msg ErrMalformedHash) ErrMalformedHash = true
    /\ forall w, run w (Compare a password hash)
                 = Some (Some (Wrapf msg ErrMalformedHash)).
Proof.
  intros H. unfold Compare.
  destruct (Z.eqb_spec (len (strings.Split hash splitChar)) numParts)
    as [Hn|Hn]; cbn [negb].
  - destruct H as [H|H]; [contradiction|].
    destruct (bytes_eqb (nth algorithmIdx (strings.Split hash splitChar) [])
                        algorithm) eqn:Halg; cbn [negb].
    + apply bytes_eqb_eq in Halg. contradiction.
    + eexists. repeat split.
  - eexists. repeat split.
Qed.

(** Scenario C: "not-a-hash" has one segment. *)
Lemma Compare_malformed_witness :
  len (strings.Split (str "not-a-hash") splitChar) <> 6
  /\ exists msg,
       Compare sample (str "super-secret") (str "not-a-hash")
       = Ret (Some (Wrapf msg ErrMalformedHash))
       /\ errors_Is (Wrapf msg ErrMalformedHash) ErrMalformedHash = true
       /\ forall w, run w (Compare sample (str "super-secret") (str "not-a-hash"))
                    = Some (Some (Wrapf msg ErrMalformedHash)).
Proof.
  assert (H : len (strings.Split (str "not-a-hash") splitChar) <> 6)
    by (vm_compute; discriminate).
  split; [exact H|].
  exact (Compare_malformed sample (str "super-secret") (str "not-a-hash")
           (or_introl H)).
Defined.

(** The tags of the format rejection scenario: "argon2i" and "bcrypt" in a
    string of six segments. *)
Example Compare_tag_argon2i :
  Compare sample (str "super-secret")
          (str "$argon2i$v=19$m=65536,t=2,p=1$c2FsdA$a2V5")
  = Ret (Some (Wrapf "argon2id: algorithm: " ErrMalformedHash)).
Proof. reflexivity. Qed.

Example Compare_tag_bcrypt :
  Compare sample (str "super-secret")
          (str "$bcrypt$v=19$m=65536,t=2,p=1$c2FsdA$a2V5")
  = Ret (Some (Wrapf "argon2id: algorithm: " ErrMalformedHash)).
Proof. reflexivity. Qed.

Example Compare_seven_segments :
  Compare sample (str "super-secret")
          (str "$argon2id$v=19$m=65536,t=2,p=1$c2FsdA$a2V5$")
  = Ret (Some (Wrapf "argon2id: parts: " ErrMalformedHash)).
Proof. reflexivity. Qed.

(** C6.  The receiver plays no part in [Compare]: under any two
    configurations it is the same program, and so it returns the same in
    every world. *)
Theorem Compare_receiver_independent (a1 a2 : Argon2Id) (password : bytes)
        (hash : gostring) :
  Compare a1 password hash = Compare a2 password hash
  /\ forall w, run w (Compare a1 password hash) = run w (Compare a2 password hash).
Proof. split; reflexivity. Qed.

(** C10.  The version that [Compare] scans is never looked at: two
    strings that differ only in their version segment, both versions
    scanning, give the same program and the same result. *)
Theorem Compare_ignores_version (a : Argon2Id) (password : bytes)
        (hash hash' : gostring) (s0 s1 v v' s3 s4 s5 : gostring) (n n' : list Z) :
  strings.Split hash splitChar = [s0; s1; v; s3; s4; s5] ->
  strings.Split hash' splitChar = [s0; s1; v'; s3; s4; s5] ->
  fmt.Sscanf v versionTemplate [fmt.IntPtr] = inr n ->
  fmt.Sscanf v' versionTemplate [fmt.IntPtr] = inr n' ->
  Compare a password hash = Compare a password hash'
  /\ forall w, run w (Compare a password hash) = run w (Compare a password hash').
Proof.
  intros Hs Hs' Hv Hv'.
  assert (E : Compare a password hash = Compare a password hash').
  { unfold Compare. rewrite Hs, Hs'.
    cbn [len List.length nth algorithmIdx versionIdx paramsIdx saltIdx keyIdx].
    rewrite Hv, Hv'. reflexivity. }
  split; [exact E|]. intros w. rewrite E. reflexivity.
Qed.

(** Version 0 in the place of version 19. *)
Lemma Compare_ignores_version_witness :
  Compare sample (str "super-secret")
          (str "$argon2id$v=19$m=65536,t=2,p=1$c2FsdA$a2V5")
  = Compare sample (str "super-secret")
            (str "$argon2id$v=0$m=65536,t=2,p=1$c2FsdA$a2V5")
  /\ forall w,
       run w (Compare sample (str "super-secret")
                (str "$argon2id$v=19$m=65536,t=2,p=1$c2FsdA$a2V5"))
       = run w (Compare sample (str "super-secret")
                  (str "$argon2id$v=0$m=65536,t=2,p=1$c2FsdA$a2V5")).
Proof.
  exact (Compare_ignores_version sample (str "super-secret")
           (str "$argon2id$v=19$m=65536,t=2,p=1$c2FsdA$a2V5")
           (str "$argon2id$v=0$m=65536,t=2,p=1$c2FsdA$a2V5")
           [] (str "argon2id") (str "v=19") (str "v=0")
           (str "m=65536,t=2,p=1") (str "c2FsdA") (str "a2V5") [19] [0]
           eq_refl eq_refl eq_refl eq_refl).
Defined.

Lemma Compare_call_inv (a : Argon2Id) (password : bytes) (hash : gostring)
      (args : IDKeyArgs) (k : bytes -> Prog (option error)) :
  Compare a password hash = IDKeyCall args k ->
  exists ps salt key,
    fmt.Sscanf (nth paramsIdx (strings.Split hash splitChar) []) paramsTemplate
               [fmt.Uint32Ptr; fmt.Uint32Ptr; fmt.Uint8Ptr] = inr ps
    /\ base64.RawStdEncoding.Strict.DecodeString
         (nth saltIdx (strings.Split hash splitChar) []) = inr salt
    /\ base64.RawStdEncoding.Strict.DecodeString
         (nth keyIdx (strings.Split hash splitChar) []) = inr key
    /\ args = mkIDKeyArgs password salt (nth 1 ps 0) (nth 0 ps 0) (nth 2 ps 0)
                          (uint32 (len key))
    /\ k = fun comparisonKey => Ret (compare_keys key comparisonKey).
Proof.
  intros H.
  destruct (Compare_cases a password hash)
    as [(e & He & _) | (vs & ps & salt & key & _ & _ & _ & Hp & Hs & Hk & Hc)].
  - rewrite He in H. discriminate.
  - rewrite Hc in H. inversion H. subst. exists ps, salt, key. auto.
Qed.

(** [Compare] fails to return exactly when it reaches the key derivation
    and that call does not return. *)
Lemma Compare_no_return_iff (w : World) (a : Argon2Id) (password : bytes)
      (hash : gostring) :
  run w (Compare a password hash) = None
  <-> exists args k, Compare a password hash = IDKeyCall args k
                     /\ argon2.IDKey w args = None.
Proof.
  destruct (Compare_cases a password hash)
    as [(e & He & _) | (vs & ps & salt & key & _ & _ & _ & _ & _ & _ & Hc)].
  - rewrite He. split; [discriminate|].
    intros (args & k & H & _). discriminate.
  - rewrite Hc. cbn [run]. split.
    + intros H. do 2 eexists. split; [reflexivity|].
      destruct (argon2.IDKey w _); [discriminate | reflexivity].
    + intros (args & k & H & Hnone). inversion H. subst.
      rewrite Hnone. reflexivity.
Qed.

(** A time cost or a parallelism of zero in the string stops the key
    derivation of the library. *)
Lemma IDKey_zero_cost (w : World) (args : IDKeyArgs) :
  kdf_time args = 0 \/ kdf_threads args = 0 -> argon2.IDKey w args = None.
Proof.
  intros H. unfold argon2.IDKey.
  destruct (Z.ltb_spec (kdf_time args) 1); [reflexivity|].
  destruct (Z.ltb_spec (kdf_threads args) 1); [reflexivity|]. lia.
Qed.

Lemma good_hash_canonical :
  good_hash
  = canonical 19 65536 2 1
      (base64.RawStdEncoding.EncodeToString (str "salt"))
      (base64.RawStdEncoding.EncodeToString (str "key")).
Proof. vm_compute. reflexivity. Qed.

Lemma zero_time_hash_canonical :
  zero_time_hash
  = canonical 19 65536 0 1
      (base64.RawStdEncoding.EncodeToString (str "salt"))
      (base64.RawStdEncoding.EncodeToString (str "key")).
Proof. vm_compute. reflexivity. Qed.

Lemma zero_threads_hash_canonical :
  zero_threads_hash
  = canonical 19 65536 2 0
      (base64.RawStdEncoding.EncodeToString (str "salt"))
      (base64.RawStdEncoding.EncodeToString (str "key")).
Proof. vm_compute. reflexivity. Qed.

Ltac uint_ranges :=
  unfold is_uint32, is_uint8;
  change (2 ^ 63) with 9223372036854775808;
  change (2 ^ 32) with 4294967296; change (2 ^ 8) with 256; lia.

(** The program [Compare] is on the well-formed example. *)
Lemma Compare_good_hash (a : Argon2Id) (password : bytes) :
  Compare a password good_hash
  = IDKeyCall (mkIDKeyArgs password (str "salt") 2 65536 1 3)
              (fun comparisonKey => Ret (compare_keys (str "key") comparisonKey)).
Proof.
  rewrite good_hash_canonical, Compare_canonical by uint_ranges. reflexivity.
Qed.

(** The same for a parallelism of zero, and in every world. *)
Lemma Compare_zero_cost_no_return (w : World) (a : Argon2Id) (password : bytes) :
  run w (Compare a password zero_time_hash) = None
  /\ run w (Compare a password zero_threads_hash) = None.
Proof.
  rewrite zero_time_hash_canonical, zero_threads_hash_canonical.
  rewrite !Compare_canonical by uint_ranges. split; reflexivity.
Qed.

(** C7 as stated fails: a well-formed string with a time cost of zero
    takes [Compare] into the key derivation, which does not return. *)
Lemma Compare_zero_time_no_return :
  run toy_world (Compare sample (str "super-secret") zero_time_hash) = None.
Proof.
  exact (proj1 (Compare_zero_cost_no_return toy_world sample (str "super-secret"))).
Qed.

(** C5, as the code has it.  When [Compare] calls the key derivation, the
    output length it asks for is [uint32(len(key))] for the decoded stored
    key, so it is the byte length of that key whenever the key is shorter
    than 2^32 bytes; it comes from the string alone, whatever the receiver
    is.  For such a key, a key derivation that returns as many bytes as it
    is asked for hands the final comparison two operands of equal
    length. *)
Theorem Compare_keyLen_of_stored_key (a : Argon2Id) (password : bytes)
        (hash : gostring) (args : IDKeyArgs) (k : bytes -> Prog (option error)) :
  Compare a password hash = IDKeyCall args k ->
  exists key,
    base64.RawStdEncoding.Strict.DecodeString
      (nth keyIdx (strings.Split hash splitChar) []) = inr key
    /\ kdf_keyLen args = uint32 (len key)
    /\ (len key < 2 ^ 32 -> kdf_keyLen args = len key)
    /\ (forall a', Compare a' password hash = IDKeyCall args k)
    /\ (forall comparisonKey,
          k comparisonKey = Ret (compare_keys key comparisonKey))
    /\ (forall w comparisonKey,
          kdf_contract w -> len key < 2 ^ 32 ->
          argon2.IDKey w args = Some comparisonKey ->
          len comparisonKey = len key).
Proof.
  intros H.
  destruct (Compare_call_inv a password hash args k H)
    as (ps & salt & key & _ & _ & Hk & -> & ->).
  exists key. cbn [kdf_keyLen].
  assert (Hsmall : len key < 2 ^ 32 -> uint32 (len key) = len key).
  { intros Hlt. unfold uint32. apply Z.mod_small. unfold len in *. lia. }
  split; [exact Hk|]. split; [reflexivity|]. split; [exact Hsmall|].
  split; [intros a'; exact H|]. split; [reflexivity|].
  intros w ck Hc Hlt Hck. rewrite <- (Hsmall Hlt).
  apply (IDKey_contract w _ ck Hc) in Hck; [exact Hck|].
  cbn [kdf_keyLen]. unfold is_uint32, uint32. apply Z.mod_pos_bound. lia.
Qed.

(** The key of the well-formed example has 3 bytes; 3 is the length asked
    for. *)
Lemma Compare_keyLen_of_stored_key_witness :
  exists key,
    base64.RawStdEncoding.Strict.DecodeString
      (nth keyIdx (strings.Split good_hash splitChar) []) = inr key
    /\ 3 = uint32 (len key)
    /\ (len key < 2 ^ 32 -> 3 = len key).
Proof.
  destruct (Compare_keyLen_of_stored_key sample (str "super-secret") good_hash
              _ _ (Compare_good_hash sample (str "super-secret")))
    as (key & H1 & H2 & H3 & _).
  exists key. repeat split; assumption.
Defined.

Lemma huge_key_len : len huge_key = 2 ^ 32.
Proof.
  unfold len, huge_key. rewrite repeat_length. apply Z2Nat.id.
  apply Z.pow_nonneg. lia.
Qed.

(** C5 as stated fails for a stored key of 2^32 bytes: the length that
    [Compare] asks the key derivation for is 0, not the byte length of the
    decoded key, and no key of that length is as long as the stored one. *)
Lemma Compare_huge_key_wraps :
  base64.RawStdEncoding.Strict.DecodeString
    (nth keyIdx (strings.Split huge_hash splitChar) []) = inr huge_key
  /\ len huge_key = 2 ^ 32
  /\ Compare sample (str "super-secret") huge_hash
     = IDKeyCall (mkIDKeyArgs (str "super-secret") (str "salt") 2 65536 1 0)
                 (fun comparisonKey =>
                    Ret (compare_keys huge_key comparisonKey)).
Proof.
  split; [|split].
  - unfold huge_hash. rewrite Split_canonical by apply EncodeToString_no_sep.
    unfold segments. cbn [nth keyIdx]. apply DecodeString_EncodeToString.
  - exact huge_key_len.
  - unfold huge_hash. rewrite Compare_canonical by uint_ranges.
    rewrite huge_key_len. reflexivity.
Qed.

Lemma ConstantTimeCompare_full_scan (x y : bytes) :
  List.length x = List.length y ->
  snd (subtle.ConstantTimeCompare_run x y)
  = subtle.Branch false :: full_scan 0 (List.length x).
Proof.
  intros Hlen. unfold subtle.ConstantTimeCompare_run, len. rewrite Hlen.
  rewrite Z.eqb_refl. cbn [negb].
  pose proof (xor_loop_visits_all x y 0 0 Hlen) as H.
  destruct (subtle.xor_loop 0 0 x y) as [v obs]. simpl in *.
  rewrite H, Hlen. reflexivity.
Qed.

(** ** [New] *)

(** With or without options, [New] folds the options over the defaults. *)
Lemma New_fold (d : Z) (options : list Argon2IdOption) :
  New d options
  = fold_left (fun a option => option a) options
      (mkArgon2Id defaultTimeCost defaultMemoryCost d
                  defaultSaltLength defaultKeyLength).
Proof.
  unfold New. destruct options as [|o options]; [reflexivity|].
  unfold len. cbn [List.length].
  destruct (Z.eqb_spec (Z.of_nat (S (List.length options))) 0); [lia|].
  reflexivity.
Qed.

Lemma last_given_snoc (sel : option_call -> option Z)
      (calls : list option_call) (c : option_call) (default : Z) :
  last_given sel (calls ++ [c]) default
  = match sel c with
    | Some v => v
    | None => last_given sel calls default
    end.
Proof.
  unfold last_given. rewrite flat_map_app. cbn [flat_map].
  rewrite app_nil_r. destruct (sel c) as [v|].
  - apply last_last.
  - rewrite app_nil_r. reflexivity.
Qed.

(** Each field after the options: the value of the last option given for
    it, or what it was before. *)
Lemma fold_options (calls : list option_call) (a : Argon2Id) :
  let a' := fold_left (fun a option => option a) (map to_option calls) a in
  timeCost a' = last_given time_of calls (timeCost a)
  /\ memoryCost a' = last_given memory_of calls (memoryCost a)
  /\ parallelismCost a' = last_given parallelism_of calls (parallelismCost a)
  /\ saltLength a' = last_given salt_of calls (saltLength a)
  /\ keyLength a' = last_given key_of calls (keyLength a).
Proof.
  induction calls as [|c calls IH] using rev_ind.
  - cbv zeta. simpl. auto.
  - cbv zeta in *. rewrite map_app, fold_left_app. cbn [map fold_left].
    rewrite !last_given_snoc.
    destruct IH as (H1 & H2 & H3 & H4 & H5).
    destruct c; cbn; auto.
Qed.

(** The fold of [New]: defaults first, then the options in the order
    given, each setting its own field with no check of the value; a field
    ends as the last option given for it, or as its default. *)
Lemma New_last_option_wins (d : Z) (calls : list option_call) :
  let a := New d (map to_option calls) in
  timeCost a = last_given time_of calls 2
  /\ memoryCost a = last_given memory_of calls 65536
  /\ parallelismCost a = last_given parallelism_of calls d
  /\ saltLength a = last_given salt_of calls 16
  /\ keyLength a = last_given key_of calls 32.
Proof.
  cbv zeta. rewrite New_fold. apply fold_options.
Qed.

(** Below 256 processors the default parallelism is their number. *)
Lemma init_small (NumCPU : Z) : 0 <= NumCPU < 256 -> init NumCPU = NumCPU.
Proof. intros H. unfold init, uint8. apply Z.mod_small. exact H. Qed.

(** C9 at 256 processors: the default parallelism that [New] sets is
    [uint8(256)], which is 0 and not the number of processors; [Generate]
    under this default configuration stops in the key derivation. *)
Theorem New_default_parallelism_256 :
  parallelismCost (New (init 256) []) = 0
  /\ New (init 256) [] = mkArgon2Id 2 65536 0 16 32
  /\ run toy_world (Generate (New (init 256) []) (str "super-secret")) = None.
Proof.
  split; [reflexivity|]. split; [reflexivity|]. vm_compute. reflexivity.
Qed.

(** * Further properties of the package *)

(** ** [New] and the options *)

Lemma Argon2Id_ext (a b : Argon2Id) :
  timeCost a = timeCost b -> memoryCost a = memoryCost b ->
  parallelismCost a = parallelismCost b ->
  saltLength a = saltLength b -> keyLength a = keyLength b -> a = b.
Proof. destruct a, b; simpl; intros; subst; reflexivity. Qed.

Lemma given_perm (sel : option_call -> option Z) (calls calls' : list option_call) :
  Permutation calls calls' -> (List.length (given sel calls) <= 1)%nat ->
  given sel calls' = given sel calls.
Proof.
  intros Hp Hlen. unfold given in *.
  pose proof (Permutation_flat_map
                (fun c => match sel c with Some v => [v] | None => [] end)
                Hp) as Hf.
  destruct (flat_map _ calls) as [|v [|v' l]] eqn:E.
  - apply Permutation_nil in Hf. exact Hf.
  - apply Permutation_length_1_inv in Hf. exact Hf.
  - simpl in Hlen. lia.
Qed.

(** The order of the options is of no account when no two of them set the
    same field: [New] builds the same configuration from any
    rearrangement of them. *)
Theorem New_order_irrelevant (d : Z) (calls calls' : list option_call) :
  Permutation calls calls' -> one_per_field calls ->
  New d (map to_option calls') = New d (map to_option calls).
Proof.
  intros Hp (H1 & H2 & H3 & H4 & H5). rewrite !New_fold.
  destruct (fold_options calls' (mkArgon2Id defaultTimeCost defaultMemoryCost d
              defaultSaltLength defaultKeyLength)) as (A1 & A2 & A3 & A4 & A5).
  destruct (fold_options calls (mkArgon2Id defaultTimeCost defaultMemoryCost d
              defaultSaltLength defaultKeyLength)) as (B1 & B2 & B3 & B4 & B5).
  cbv zeta in *.
  apply Argon2Id_ext.
  - rewrite A1, B1. unfold last_given. fold (given time_of calls').
    fold (given time_of calls). rewrite (given_perm _ _ _ Hp H1). reflexivity.
  - rewrite A2, B2. unfold last_given. fold (given memory_of calls').
    fold (given memory_of calls). rewrite (given_perm _ _ _ Hp H2). reflexivity.
  - rewrite A3, B3. unfold last_given. fold (given parallelism_of calls').
    fold (given parallelism_of calls). rewrite (given_perm _ _ _ Hp H3).
    reflexivity.
  - rewrite A4, B4. unfold last_given. fold (given salt_of calls').
    fold (given salt_of calls). rewrite (given_perm _ _ _ Hp H4). reflexivity.
  - rewrite A5, B5. unfold last_given. fold (given key_of calls').
    fold (given key_of calls). rewrite (given_perm _ _ _ Hp H5). reflexivity.
Qed.

(** The options of the README in two orders. *)
Lemma New_order_irrelevant_witness :
  New 8 [WithKeyLength 64; WithTimeCost 4; WithSaltLength 48]
  = New 8 [WithTimeCost 4; WithSaltLength 48; WithKeyLength 64].
Proof.
  apply (New_order_irrelevant 8
           [SetTimeCost 4; SetSaltLength 48; SetKeyLength 64]
           [SetKeyLength 64; SetTimeCost 4; SetSaltLength 48]).
  - apply Permutation_sym. apply (Permutation_cons_append [_; _] (SetKeyLength 64)).
  - unfold one_per_field. simpl. lia.
Defined.

(** ** [Generate]: failures of the random source, and costs of zero *)

(** When the random source fails, or reports another count than the salt
    length, [Generate] returns the empty string and an error under the
    prefix of the salt step, whatever the key derivation is: it is not
    called.  The error of the source is looked at first; a wrong count
    with no error gives [ErrBytesNotRead]. *)
Theorem Generate_source_failure (w : World) (a : Argon2Id) (password : bytes) :
  rr_err (rand_Read w (saltLength a)) <> None
  \/ rr_n (rand_Read w (saltLength a)) <> saltLength a ->
  exists e,
    (forall d, run (mkWorld (rand_Read w) d) (Generate a password)
               = Some ([], Some (Wrapf "argon2id: generate salt: " e)))
    /\ (forall e', rr_err (rand_Read w (saltLength a)) = Some e' -> e = e')
    /\ (rr_err (rand_Read w (saltLength a)) = None ->
        e = ErrBytesNotRead
        /\ errors_Is (Wrapf "argon2id: generate salt: " e) ErrBytesNotRead = true).
Proof.
  intros H.
  destruct (rr_err (rand_Read w (saltLength a))) as [e0|] eqn:Herr.
  - exists e0. split; [|split].
    + intros d. rewrite Generate_run. cbn [rand_Read]. cbv zeta.
      rewrite Herr. reflexivity.
    + intros e' He'. congruence.
    + discriminate.
  - destruct H as [H|H]; [congruence|].
    exists ErrBytesNotRead. split; [|split].
    + intros d. rewrite Generate_run. cbn [rand_Read]. cbv zeta.
      rewrite Herr. destruct (Z.eqb_spec (rr_n (rand_Read w (saltLength a)))
                                         (saltLength a)); [contradiction|].
      reflexivity.
    + discriminate.
    + intros _. split; reflexivity.
Qed.

(** A short read under [sample]: 47 bytes reported for a salt of 48. *)
Lemma Generate_source_failure_witness :
  run short_world (Generate sample (str "super-secret"))
  = Some ([], Some (Wrapf "argon2id: generate salt: " ErrBytesNotRead))
  /\ run failing_world (Generate sample (str "super-secret"))
     = Some ([], Some (Wrapf "argon2id: generate salt: "
                             (RandError "entropy source failed"))).
Proof.
  split.
  - destruct (Generate_source_failure short_world sample (str "super-secret"))
      as (e & Hrun & _ & He).
    + right. vm_compute. discriminate.
    + destruct (He eq_refl) as [-> _]. exact (Hrun toy_derive).
  - destruct (Generate_source_failure failing_world sample (str "super-secret"))
      as (e & Hrun & He & _).
    + left. vm_compute. discriminate.
    + rewrite <- (He _ eq_refl). exact (Hrun toy_derive).
Defined.

(** [Generate] returns the empty string exactly when it returns an error:
    a string that comes with [nil] is never empty. *)
Theorem Generate_empty_iff_error (w : World) (a : Argon2Id) (password : bytes)
        (s : gostring) (e : option error) :
  run w (Generate a password) = Some (s, e) ->
  (e = None /\ s <> []) \/ (e <> None /\ s = []).
Proof.
  rewrite Generate_run. cbv zeta.
  destruct (rr_err (rand_Read w (saltLength a))) as [e0|].
  - intros H. inversion H. right. split; [discriminate | reflexivity].
  - destruct (rr_n (rand_Read w (saltLength a)) =? saltLength a).
    + destruct (argon2.IDKey w (Generate_args w a password)) as [key|];
        [|discriminate].
      intros H. inversion H. left. split; [reflexivity|].
      unfold canonical. cbn [str list_ascii_of_string app]. discriminate.
    + intros H. inversion H. right. split; [discriminate | reflexivity].
Qed.

(** The string of the run in [toy_world] is not empty. *)
Lemma Generate_empty_iff_error_witness : sample_hash <> [].
Proof.
  destruct (Generate_empty_iff_error toy_world sample (str "super-secret")
              sample_hash None toy_Generate_sample) as [[_ H]|[H _]].
  - exact H.
  - exfalso. apply H. reflexivity.
Defined.

(** Under a configuration with a time cost or a parallelism of zero, which
    [New] accepts, [Generate] never returns a string: once the random
    source has filled the salt, the call of the key derivation does not
    return. *)
Theorem Generate_zero_cost_no_return (w : World) (a : Argon2Id)
        (password : bytes) :
  timeCost a = 0 \/ parallelismCost a = 0 ->
  (forall s, run w (Generate a password) <> Some (s, None))
  /\ (rr_err (rand_Read w (saltLength a)) = None ->
      rr_n (rand_Read w (saltLength a)) = saltLength a ->
      run w (Generate a password) = None).
Proof.
  intros Hz.
  assert (Hk : argon2.IDKey w (Generate_args w a password) = None).
  { apply IDKey_zero_cost. exact Hz. }
  split.
  - intros s Hs. apply Generate_success in Hs.
    destruct Hs as (key & Hkey & _). congruence.
  - intros He Hn. rewrite Generate_run. cbv zeta.
    rewrite He, Hn, Z.eqb_refl, Hk. reflexivity.
Qed.

(** [New(WithTimeCost(0))], and the default configuration of a host with
    512 processors. *)
Lemma Generate_zero_cost_no_return_witness :
  run toy_world (Generate (New 8 [WithTimeCost 0]) (str "super-secret")) = None
  /\ run toy_world (Generate (New (init 512) []) (str "super-secret")) = None.
Proof.
  split.
  - apply (Generate_zero_cost_no_return toy_world (New 8 [WithTimeCost 0])
             (str "super-secret")); [left; reflexivity | reflexivity | reflexivity].
  - apply (Generate_zero_cost_no_return toy_world (New (init 512) [])
             (str "super-secret")); [right; reflexivity | reflexivity | reflexivity].
Defined.

(** ** What a generated string holds *)

Lemma EncodeToString_inj (x y : bytes) :
  base64.RawStdEncoding.EncodeToString x = base64.RawStdEncoding.EncodeToString y ->
  x = y.
Proof.
  intros H.
  pose proof (DecodeString_EncodeToString x) as Hx.
  rewrite H, DecodeString_EncodeToString in Hx. congruence.
Qed.

(** The costs, the salt and the key can be read back from a canonical
    string. *)
Lemma canonical_inj (v m t p m' t' p' : Z) (salt key salt' key' : bytes) :
  is_uint32 m -> is_uint32 t -> is_uint8 p ->
  is_uint32 m' -> is_uint32 t' -> is_uint8 p' ->
  canonical v m t p (base64.RawStdEncoding.EncodeToString salt)
                    (base64.RawStdEncoding.EncodeToString key)
  = canonical v m' t' p' (base64.RawStdEncoding.EncodeToString salt')
                         (base64.RawStdEncoding.EncodeToString key') ->
  m = m' /\ t = t' /\ p = p' /\ salt = salt' /\ key = key'.
Proof.
  intros Hm Ht Hp Hm' Ht' Hp' H.
  apply (f_equal (fun s => strings.Split s splitChar)) in H.
  rewrite !Split_canonical in H by apply EncodeToString_no_sep.
  unfold segments in H.
  pose proof (f_equal (fun l => nth paramsIdx l []) H) as Hps.
  pose proof (f_equal (fun l => nth saltIdx l []) H) as Hsalt.
  pose proof (f_equal (fun l => nth keyIdx l []) H) as Hkey.
  cbn [nth paramsIdx saltIdx keyIdx] in Hps, Hsalt, Hkey.
  apply EncodeToString_inj in Hsalt. apply EncodeToString_inj in Hkey.
  pose proof (Sscanf_params m t p Hm Ht Hp) as E.
  rewrite Hps, (Sscanf_params m' t' p' Hm' Ht' Hp') in E.
  inversion E. auto.
Qed.

(** Two runs of [Generate] that return the same string had the same costs,
    drew the same salt and derived the same key.  So strings generated
    from different salts differ, whatever else is the same. *)
Theorem Generate_string_determines (w1 w2 : World) (a1 a2 : Argon2Id)
        (P1 P2 : bytes) (s : gostring) :
  wf a1 -> wf a2 ->
  run w1 (Generate a1 P1) = Some (s, None) ->
  run w2 (Generate a2 P2) = Some (s, None) ->
  memoryCost a1 = memoryCost a2 /\ timeCost a1 = timeCost a2
  /\ parallelismCost a1 = parallelismCost a2
  /\ drawn_salt w1 a1 = drawn_salt w2 a2
  /\ argon2.IDKey w1 (Generate_args w1 a1 P1)
     = argon2.IDKey w2 (Generate_args w2 a2 P2).
Proof.
  intros (Ht1 & Hm1 & Hp1 & _) (Ht2 & Hm2 & Hp2 & _) H1 H2.
  destruct (Generate_success w1 a1 P1 s H1) as (k1 & Hk1 & E1).
  destruct (Generate_success w2 a2 P2 s H2) as (k2 & Hk2 & E2).
  rewrite E1 in E2.
  destruct (canonical_inj _ _ _ _ _ _ _ _ _ _ _ Hm1 Ht1 Hp1 Hm2 Ht2 Hp2 E2)
    as (Em & Et & Ep & Es & Ek).
  repeat split; try assumption. congruence.
Qed.

(** Two random sources, two salts, two strings. *)
Lemma Generate_string_determines_witness :
  run toy_world (Generate tiny (str "ab")) = Some (tiny_hash, None)
  /\ run other_world (Generate tiny (str "ab")) = Some (other_hash, None)
  /\ tiny_hash <> other_hash.
Proof.
  assert (H2 : run other_world (Generate tiny (str "ab")) = Some (other_hash, None))
    by (vm_compute; reflexivity).
  split; [exact toy_Generate_tiny|]. split; [exact H2|].
  intros E. rewrite <- E in H2.
  destruct (Generate_string_determines toy_world other_world tiny tiny
              (str "ab") (str "ab") tiny_hash wf_tiny wf_tiny
              toy_Generate_tiny H2) as (_ & _ & _ & Hsalt & _).
  vm_compute in Hsalt. discriminate Hsalt.
Defined.

(** ** [Compare]: what each outcome means *)

Lemma Compare_shape (a : Argon2Id) (password : bytes) (hash : gostring) :
  Compare_path a password hash.
Proof.
  assert (E : Compare a password hash = Compare a password hash) by reflexivity.
  unfold Compare at 2 in E.
  destruct (Z.eqb_spec (len (strings.Split hash splitChar)) numParts) as [Hn|Hn]; cbn [negb] in E;
    [|apply path_parts; assumption].
  destruct (bytes_eqb (nth algorithmIdx (strings.Split hash splitChar) []) algorithm) eqn:Halg;
    cbn [negb] in E.
  2:{ apply path_algorithm; try assumption.
      intros Ea. apply bytes_eqb_eq in Ea. congruence. }
  apply bytes_eqb_eq in Halg.
  destruct (fmt.Sscanf (nth versionIdx (strings.Split hash splitChar) []) versionTemplate [fmt.IntPtr])
    as [e|vs] eqn:Hv; [eapply path_version; eassumption|].
  destruct (fmt.Sscanf (nth paramsIdx (strings.Split hash splitChar) []) paramsTemplate
              [fmt.Uint32Ptr; fmt.Uint32Ptr; fmt.Uint8Ptr]) as [e|ps] eqn:Hp;
    [eapply path_params; eassumption|].
  destruct (base64.RawStdEncoding.Strict.DecodeString (nth saltIdx (strings.Split hash splitChar) []))
    as [e|salt] eqn:Hs; [eapply path_salt; eassumption|].
  destruct (base64.RawStdEncoding.Strict.DecodeString (nth keyIdx (strings.Split hash splitChar) []))
    as [e|key] eqn:Hk; [eapply path_key; eassumption|].
  eapply path_call; eassumption.
Qed.

(** [Compare] returns [nil] exactly when the string has six segments and
    the algorithm tag, its version and costs scan, its salt and key
    decode, and the key derivation, run on the password with that salt,
    those costs and the length of that key, returns that very key. *)
Theorem Compare_accepts_iff (w : World) (a : Argon2Id) (password : bytes)
        (hash : gostring) :
  let parts := strings.Split hash splitChar in
  run w (Compare a password hash) = Some None
  <-> len parts = numParts
      /\ nth algorithmIdx parts [] = algorithm
      /\ exists vs ps salt key,
           fmt.Sscanf (nth versionIdx parts []) versionTemplate [fmt.IntPtr]
           = inr vs
           /\ fmt.Sscanf (nth paramsIdx parts []) paramsTemplate
                [fmt.Uint32Ptr; fmt.Uint32Ptr; fmt.Uint8Ptr] = inr ps
           /\ base64.RawStdEncoding.Strict.DecodeString (nth saltIdx parts [])
              = inr salt
           /\ base64.RawStdEncoding.Strict.DecodeString (nth keyIdx parts [])
              = inr key
           /\ argon2.IDKey w (mkIDKeyArgs password salt (nth 1 ps 0) (nth 0 ps 0)
                                          (nth 2 ps 0) (uint32 (len key)))
              = Some key.
Proof.
  intros parts. unfold parts.
  destruct (Compare_shape a password hash)
    as [Hn E | Hn Ha E | e Hn Ha Hv E | vs e Hn Ha Hv Hp E
        | vs ps e Hn Ha Hv Hp Hs E | vs ps salt e Hn Ha Hv Hp Hs Hk E
        | vs ps salt key Hn Ha Hv Hp Hs Hk E];
    rewrite E; cbn [run].
  - split; [discriminate | intros (H & _); contradiction].
  - split; [discriminate | intros (_ & H & _); contradiction].
  - split; [discriminate|].
    intros (_ & _ & vs & ps & salt & key & H & _). congruence.
  - split; [discriminate|].
    intros (_ & _ & vs' & ps & salt & key & _ & H & _). congruence.
  - split; [discriminate|].
    intros (_ & _ & vs' & ps' & salt & key & _ & _ & H & _). congruence.
  - split; [discriminate|].
    intros (_ & _ & vs' & ps' & salt' & key & _ & _ & _ & H & _). congruence.
  - split.
    + intros H. split; [assumption|]. split; [assumption|].
      exists vs, ps, salt, key. repeat split; try assumption.
      destruct (argon2.IDKey w _) as [ck|]; [|discriminate].
      cbn [run] in H. rewrite compare_keys_spec in H.
      destruct (bytes_eqb key ck) eqn:Eq; [|discriminate].
      apply bytes_eqb_eq in Eq. congruence.
    + intros (_ & _ & vs' & ps' & salt' & key' & _ & Hp' & Hs' & Hk' & Hd).
      rewrite Hp in Hp'. rewrite Hs in Hs'. rewrite Hk in Hk'.
      inversion Hp'. inversion Hs'. inversion Hk'. subst.
      rewrite Hd. cbn [run]. rewrite compare_keys_spec, bytes_eqb_refl.
      reflexivity.
Qed.

(** *** The errors of the scanner *)

Lemma SkipSpace_loop_error (fuel : nat) :
  forall s e, fmt.SkipSpace_loop fuel s = fmt.Err e -> scanner_error e.
Proof.
  induction fuel as [|fuel IH]; intros s e H; simpl in H; [discriminate|].
  destruct s as [|c s]; [discriminate|].
  destruct (byte_eqb c fmt.CR && fmt.peek s fmt.LF); [eapply IH; eassumption|].
  destruct (byte_eqb c fmt.LF); [inversion H; exact I|].
  destruct (fmt.space_width (c :: s)); [discriminate|].
  eapply IH; eassumption.
Qed.

Lemma ParseUint_error (tok : gostring) (e : error) :
  fmt.ParseUint tok = inl e -> scanner_error e.
Proof.
  unfold fmt.ParseUint. destruct tok as [|c tok]; [intros H; inversion H; exact I|].
  destruct (forallb fmt.is_digit (c :: tok)); [|intros H; inversion H; exact I].
  destruct (fmt.decimal_value (c :: tok) <? 2 ^ 64);
    intros H; inversion H; exact I.
Qed.

Lemma ParseInt_error (tok : gostring) (e : error) :
  fmt.ParseInt tok = inl e -> scanner_error e.
Proof.
  assert (Hd : forall (neg : bool) (digits : gostring),
             match digits with
             | [] => inl ErrSyntax
             | _ :: _ =>
                 if forallb fmt.is_digit digits
                 then
                   if negb neg && (2 ^ 63 <=? fmt.decimal_value digits)
                   then inl ErrRange
                   else if neg && (2 ^ 63 <? fmt.decimal_value digits)
                        then inl ErrRange
                        else inr (if neg then - fmt.decimal_value digits
                                  else fmt.decimal_value digits)
                 else inl ErrSyntax
             end = inl e -> scanner_error e).
  { intros neg digits. destruct digits as [|d digits]; [intros H; inversion H; exact I|].
    destruct (forallb fmt.is_digit (d :: digits));
      [|intros H; inversion H; exact I].
    destruct (negb neg && (2 ^ 63 <=? fmt.decimal_value (d :: digits)));
      [intros H; inversion H; exact I|].
    destruct (neg && (2 ^ 63 <? fmt.decimal_value (d :: digits)));
      intros H; inversion H; exact I. }
  unfold fmt.ParseInt.
  destruct tok as [|c tok]; [intros H; inversion H; exact I|].
  destruct (byte_eqb c "+"); [exact (Hd false tok)|].
  destruct (byte_eqb c "-"); [exact (Hd true tok) | exact (Hd false (c :: tok))].
Qed.

Lemma scanNumber_error (s : gostring) (e : error) :
  fmt.scanNumber s = fmt.Err e -> scanner_error e.
Proof.
  unfold fmt.scanNumber. destruct s as [|c s]; [intros H; inversion H; exact I|].
  destruct (fmt.is_digit c); [|intros H; inversion H; exact I].
  destruct (fmt.accept_all fmt.is_digit s). discriminate.
Qed.

Lemma scanOne_error (t : fmt.target) (s : gostring) (e : error) :
  fmt.scanOne t s = fmt.Err e -> scanner_error e.
Proof.
  assert (HU : forall bits, fmt.scanUint bits s = fmt.Err e -> scanner_error e).
  { intros bits. unfold fmt.scanUint, fmt.SkipSpace.
    destruct (fmt.SkipSpace_loop (List.length s) s) as [[] s1|e1] eqn:E1.
    2:{ intros H. inversion H. subst. eapply SkipSpace_loop_error; eassumption. }
    destruct s1 as [|c s1]; cbn [fmt.notEOF]; [intros H; inversion H; exact I|].
    destruct (fmt.scanNumber (c :: s1)) as [tok s3|e3] eqn:E3.
    2:{ intros H. inversion H. subst. eapply scanNumber_error; eassumption. }
    destruct (fmt.ParseUint tok) as [e4|i] eqn:E4.
    { intros H. inversion H. subst. eapply ParseUint_error; eassumption. }
    destruct (i <? 2 ^ bits); intros H; inversion H; exact I. }
  destruct t; unfold fmt.scanOne; try apply HU.
  unfold fmt.scanInt, fmt.SkipSpace.
  destruct (fmt.SkipSpace_loop (List.length s) s) as [[] s1|e1] eqn:E1.
  2:{ intros H. inversion H. subst. eapply SkipSpace_loop_error; eassumption. }
  destruct s1 as [|c s1]; cbn [fmt.notEOF]; [intros H; inversion H; exact I|].
  assert (HI : forall sgn s3,
             match fmt.scanNumber s3 with
             | fmt.Ok tok s4 =>
                 match fmt.ParseInt (sgn ++ tok) with
                 | inl e => fmt.Err e
                 | inr i =>
                     if (- 2 ^ (64 - 1) <=? i) && (i <? 2 ^ (64 - 1))
                     then fmt.Ok i s4
                     else fmt.Err
                            (ScanError
                               (String.append "integer overflow on token "
                                  (string_of_list_ascii (sgn ++ tok))))
                 end
             | fmt.Err e => fmt.Err e
             end = fmt.Err e -> scanner_error e).
  { intros sgn s3.
    destruct (fmt.scanNumber s3) as [tok s4|e3] eqn:E3.
    2:{ intros H. inversion H. subst. eapply scanNumber_error; eassumption. }
    destruct (fmt.ParseInt (sgn ++ tok)) as [e4|i] eqn:E4.
    { intros H. inversion H. subst. eapply ParseInt_error; eassumption. }
    destruct ((- 2 ^ (64 - 1) <=? i) && (i <? 2 ^ (64 - 1)));
      intros H; inversion H; exact I. }
  destruct (fmt.is_sign c); [exact (HI [c] s1) | exact (HI [] (c :: s1))].
Qed.

(** Every error of [Sscanf] is one of the scanner. *)
Lemma doScanf_error (f : fmt.format) :
  forall s targets e, fmt.doScanf f s targets = inl e -> scanner_error e.
Proof.
  induction f as [|it f IH]; intros s targets e H.
  - simpl in H. destruct targets; inversion H. exact I.
  - destruct it; cbn [fmt.doScanf] in H.
    + destruct s as [|x s]; [inversion H; exact I|].
      destruct (byte_eqb x c); [eapply IH; eassumption | inversion H; exact I].
    + unfold fmt.SkipSpace in H.
      destruct (fmt.SkipSpace_loop (List.length s) s) as [[] s1|e1] eqn:E1.
      2:{ inversion H. subst. eapply SkipSpace_loop_error; eassumption. }
      destruct targets as [|t targets]; [inversion H; exact I|].
      destruct (fmt.scanOne t s1) as [v s2|e2] eqn:E2.
      2:{ inversion H. subst. eapply scanOne_error; eassumption. }
      destruct (fmt.doScanf f s2 targets) as [e3|vs] eqn:E3; [|discriminate].
      inversion H. subst. eapply IH; eassumption.
    + unfold fmt.SkipSpace in H.
      destruct (fmt.SkipSpace_loop (List.length s) s) as [[] s1|e1] eqn:E1.
      2:{ inversion H. subst. eapply SkipSpace_loop_error; eassumption. }
      destruct targets as [|t targets]; [inversion H; exact I|].
      destruct s1; cbn [fmt.notEOF] in H; inversion H; exact I.
Qed.

Lemma scanner_error_not_sentinel (e : error) :
  scanner_error e ->
  errors_Is e ErrMalformedHash = false
  /\ errors_Is e ErrPasswordsDoNotMatch = false
  /\ errors_Is e ErrBytesNotRead = false.
Proof. destruct e; simpl; intros H; try contradiction; auto. Qed.

Lemma DecodeString_error (s : gostring) (e : error) :
  base64.RawStdEncoding.Strict.DecodeString s = inl e -> e = CorruptInputError.
Proof.
  unfold base64.RawStdEncoding.Strict.DecodeString.
  destruct (base64.RawStdEncoding.Strict.decode (base64.skip_newlines s));
    intros H; inversion H; reflexivity.
Qed.

(** What [errors.Is] tells a caller about an error of [Compare]: it is
    [ErrMalformedHash] exactly when the string has not six segments or not
    the algorithm tag, and [ErrPasswordsDoNotMatch] exactly when the
    string parsed whole and the key derivation was called and returned (a
    key other than the stored one).  Errors of scanning and decoding are
    neither, and none is [ErrBytesNotRead]. *)
Theorem Compare_error_kinds (w : World) (a : Argon2Id) (password : bytes)
        (hash : gostring) (e : error) :
  run w (Compare a password hash) = Some (Some e) ->
  (errors_Is e ErrMalformedHash = true
   <-> len (strings.Split hash splitChar) <> numParts
       \/ nth algorithmIdx (strings.Split hash splitChar) [] <> algorithm)
  /\ (errors_Is e ErrPasswordsDoNotMatch = true
      <-> exists args k comparisonKey,
            Compare a password hash = IDKeyCall args k
            /\ argon2.IDKey w args = Some comparisonKey
            /\ k comparisonKey = Ret (Some e))
  /\ errors_Is e ErrBytesNotRead = false.
Proof.
  destruct (Compare_shape a password hash)
    as [Hn E | Hn Ha E | e0 Hn Ha Hv E | vs e0 Hn Ha Hv Hp E
        | vs ps e0 Hn Ha Hv Hp Hs E | vs ps salt e0 Hn Ha Hv Hp Hs Hk E
        | vs ps salt key Hn Ha Hv Hp Hs Hk E];
    rewrite E; cbn [run]; intros H.
  - inversion H. subst e. split; [|split]; [| |reflexivity].
    + split; [auto | reflexivity].
    + split; [discriminate | intros (? & ? & ? & ? & _); discriminate].
  - inversion H. subst e. split; [|split]; [| |reflexivity].
    + split; [auto | reflexivity].
    + split; [discriminate | intros (? & ? & ? & ? & _); discriminate].
  - inversion H. subst e.
    destruct (scanner_error_not_sentinel e0 (doScanf_error _ _ _ _ Hv))
      as (H1 & H2 & H3).
    cbn [errors_Is error_eqb_head orb]. rewrite H1, H2, H3.
    split; [|split]; [| |reflexivity].
    + split; [discriminate | intros [?|?]; contradiction].
    + split; [discriminate | intros (? & ? & ? & ? & _); discriminate].
  - inversion H. subst e.
    destruct (scanner_error_not_sentinel e0 (doScanf_error _ _ _ _ Hp))
      as (H1 & H2 & H3).
    cbn [errors_Is error_eqb_head orb]. rewrite H1, H2, H3.
    split; [|split]; [| |reflexivity].
    + split; [discriminate | intros [?|?]; contradiction].
    + split; [discriminate | intros (? & ? & ? & ? & _); discriminate].
  - inversion H. subst e. apply DecodeString_error in Hs. subst e0.
    split; [|split]; [| |reflexivity].
    + split; [discriminate | intros [?|?]; contradiction].
    + split; [discriminate | intros (? & ? & ? & ? & _); discriminate].
  - inversion H. subst e. apply DecodeString_error in Hk. subst e0.
    split; [|split]; [| |reflexivity].
    + split; [discriminate | intros [?|?]; contradiction].
    + split; [discriminate | intros (? & ? & ? & ? & _); discriminate].
  - destruct (argon2.IDKey w _) as [ck|] eqn:Hck; [|discriminate].
    cbn [run] in H. inversion H as [Hc].
    rewrite compare_keys_spec in Hc.
    destruct (bytes_eqb key ck) eqn:Eq; [discriminate|].
    inversion Hc. subst e. split; [|split]; [| |reflexivity].
    + split; [discriminate | intros [?|?]; contradiction].
    + split; [|reflexivity]. intros _. do 3 eexists.
      split; [reflexivity|]. split; [exact Hck|].
      cbv beta. rewrite compare_keys_spec, Eq. reflexivity.
Qed.

(** The wrong password "kex" for the well-formed example, in a world where
    its key differs. *)
Lemma Compare_error_kinds_witness :
  run toy_world (Compare sample (str "kex") good_hash) = Some (Some mismatch)
  /\ (exists args k comparisonKey,
        Compare sample (str "kex") good_hash = IDKeyCall args k
        /\ argon2.IDKey toy_world args = Some comparisonKey
        /\ k comparisonKey = Ret (Some mismatch))
  /\ ~ (len (strings.Split good_hash splitChar) <> numParts
        \/ nth algorithmIdx (strings.Split good_hash splitChar) [] <> algorithm).
Proof.
  assert (H : run toy_world (Compare sample (str "kex") good_hash)
              = Some (Some mismatch)) by (vm_compute; reflexivity).
  split; [exact H|].
  destruct (Compare_error_kinds toy_world sample (str "kex") good_hash mismatch H)
    as (H1 & H2 & _).
  split.
  - apply H2. reflexivity.
  - intros Hm. apply H1 in Hm. discriminate Hm.
Defined.

(** ** [Compare]: a record without a key *)

Lemma keyless_hash_canonical :
  keyless_hash
  = canonical 19 8 1 1
      (base64.RawStdEncoding.EncodeToString [byte_of_Z 1; byte_of_Z 2])
      (base64.RawStdEncoding.EncodeToString []).
Proof. vm_compute. reflexivity. Qed.

(** ** [Compare]: bytes that make no difference *)

(** A byte other than the separator, put at the end of a string, goes to
    the end of its last segment. *)
Lemma Split_snoc (s : gostring) (c sep : byte) :
  byte_eqb c sep = false ->
  exists init lst,
    strings.Split s sep = init ++ [lst]
    /\ strings.Split (s ++ [c]) sep = init ++ [lst ++ [c]].
Proof.
  intros Hc. induction s as [|x s (init & lst & E1 & E2)].
  - exists [], []. simpl. rewrite Hc. auto.
  - cbn [app strings.Split]. rewrite E1, E2.
    destruct (byte_eqb x sep).
    + exists ([] :: init), lst. auto.
    + destruct init as [|i0 init]; cbn [app].
      * exists [], (x :: lst). auto.
      * exists ((x :: i0) :: init), lst. auto.
Qed.

Lemma DecodeString_newline (s : gostring) (c : byte) :
  c = base64.CR \/ c = base64.LF ->
  base64.RawStdEncoding.Strict.DecodeString (s ++ [c])
  = base64.RawStdEncoding.Strict.DecodeString s.
Proof.
  intros Hc. unfold base64.RawStdEncoding.Strict.DecodeString, base64.skip_newlines.
  rewrite filter_app.
  assert (E : filter (fun c0 => negb (byte_eqb c0 base64.CR || byte_eqb c0 base64.LF))
                     [c] = []).
  { destruct Hc as [->| ->]; reflexivity. }
  rewrite E, app_nil_r. reflexivity.
Qed.

Lemma Compare_newline_byte (a : Argon2Id) (password : bytes) (hash : gostring)
      (c : byte) :
  c = base64.CR \/ c = base64.LF ->
  Compare a password (hash ++ [c]) = Compare a password hash.
Proof.
  intros Hc.
  assert (Hsep : byte_eqb c splitChar = false)
    by (destruct Hc as [->| ->]; reflexivity).
  destruct (Split_snoc hash c splitChar Hsep) as (init & lst & E1 & E2).
  unfold Compare. rewrite E1, E2.
  unfold len. rewrite !length_app. cbn [List.length].
  destruct (Z.eqb_spec (Z.of_nat (List.length init + 1)) numParts) as [Hn|Hn];
    cbn [negb]; [|reflexivity].
  assert (Hlen : List.length init = 5%nat) by (unfold numParts in Hn; lia).
  destruct init as [|s0 [|s1 [|s2 [|s3 [|s4 [|s5 init]]]]]];
    simpl in Hlen; try discriminate.
  cbn [app nth algorithmIdx versionIdx paramsIdx saltIdx keyIdx].
  rewrite (DecodeString_newline lst c Hc). reflexivity.
Qed.

(** *** Bytes after the numbers *)

Lemma doScanf_end (s : gostring) : fmt.doScanf [] s [] = inr [].
Proof. reflexivity. Qed.

Lemma Sscanf_version_rest (v : Z) (rest : gostring) :
  0 <= v < 2 ^ 63 -> ends_number rest ->
  fmt.Sscanf (str "v=" ++ fmt.fmtInteger v ++ rest) versionTemplate [fmt.IntPtr]
  = inr [v].
Proof.
  intros Hv Hr. unfold fmt.Sscanf, versionTemplate.
  change (fmt.parse (str "v=%d")) with [fmt.Lit "v"; fmt.Lit "="; fmt.Verb_d].
  cbn [str list_ascii_of_string app].
  rewrite !doScanf_Lit.
  rewrite doScanf_Verb_d; [reflexivity | lia | simpl; lia | exact Hr].
Qed.

Lemma Sscanf_params_rest (m t p : Z) (rest : gostring) :
  is_uint32 m -> is_uint32 t -> is_uint8 p -> ends_number rest ->
  fmt.Sscanf (str "m=" ++ fmt.fmtInteger m ++ str ",t=" ++ fmt.fmtInteger t
              ++ str ",p=" ++ fmt.fmtInteger p ++ rest)
             paramsTemplate [fmt.Uint32Ptr; fmt.Uint32Ptr; fmt.Uint8Ptr]
  = inr [m; t; p].
Proof.
  intros Hm Ht Hp Hr. unfold fmt.Sscanf, paramsTemplate.
  change (fmt.parse (str "m=%d,t=%d,p=%d"))
    with [fmt.Lit "m"; fmt.Lit "="; fmt.Verb_d;
          fmt.Lit ","; fmt.Lit "t"; fmt.Lit "="; fmt.Verb_d;
          fmt.Lit ","; fmt.Lit "p"; fmt.Lit "="; fmt.Verb_d].
  cbn [str list_ascii_of_string app].
  rewrite !doScanf_Lit.
  rewrite doScanf_Verb_d; [ | apply Hm | exact Hm | reflexivity ].
  rewrite !doScanf_Lit.
  rewrite doScanf_Verb_d; [ | apply Ht | exact Ht | reflexivity ].
  rewrite !doScanf_Lit.
  rewrite doScanf_Verb_d; [ reflexivity | apply Hp | exact Hp | exact Hr ].
Qed.

Lemma Split_padded (v m t p : Z) (junk1 junk2 b64Salt b64Key : gostring) :
  ~ In splitChar junk1 -> ~ In splitChar junk2 ->
  ~ In splitChar b64Salt -> ~ In splitChar b64Key ->
  strings.Split (padded v m t p junk1 junk2 b64Salt b64Key) splitChar
  = [ [];
      str "argon2id";
      str "v=" ++ fmt.fmtInteger v ++ junk1;
      str "m=" ++ fmt.fmtInteger m ++ str ",t=" ++ fmt.fmtInteger t
        ++ str ",p=" ++ fmt.fmtInteger p ++ junk2;
      b64Salt;
      b64Key ].
Proof.
  intros Hj1 Hj2 Hs Hk.
  set (seg_v := str "v=" ++ fmt.fmtInteger v ++ junk1).
  set (seg_p := str "m=" ++ fmt.fmtInteger m ++ str ",t=" ++ fmt.fmtInteger t
                ++ str ",p=" ++ fmt.fmtInteger p ++ junk2).
  assert (E : padded v m t p junk1 junk2 b64Salt b64Key
              = [] ++ splitChar :: str "argon2id" ++ splitChar :: seg_v
                ++ splitChar :: seg_p ++ splitChar :: b64Salt
                ++ splitChar :: b64Key).
  { unfold padded, seg_v, seg_p.
    cbn [str list_ascii_of_string app].
    repeat (rewrite <- app_assoc; cbn [app]). reflexivity. }
  rewrite E.
  assert (Hv : ~ In splitChar seg_v).
  { unfold seg_v.
    repeat first [ apply fmtInteger_no_sep | assumption
                 | apply not_In_app
                 | apply not_In_str; reflexivity ]. }
  assert (Hp : ~ In splitChar seg_p).
  { unfold seg_p.
    repeat first [ apply fmtInteger_no_sep | assumption
                 | apply not_In_app
                 | apply not_In_str; reflexivity ]. }
  rewrite (Split_app_sep [] _ splitChar) by (simpl; tauto).
  rewrite (Split_app_sep (str "argon2id")) by (apply not_In_str; reflexivity).
  rewrite (Split_app_sep seg_v) by assumption.
  rewrite (Split_app_sep seg_p) by assumption.
  rewrite (Split_app_sep b64Salt) by assumption.
  rewrite (Split_no_sep b64Key) by assumption.
  reflexivity.
Qed.

(** [Sscanf] does not look at what follows the last number of a segment:
    bytes after the version number and after the parallelism, as long as
    they hold no [$] and do not start with a digit, leave [Compare] as it is
    on the canonical string.  More than one string verifies as a given
    record does. *)
Theorem Compare_bytes_after_numbers (a : Argon2Id) (password : bytes)
        (v m t p : Z) (junk1 junk2 : gostring) (salt key : bytes) :
  0 <= v < 2 ^ 63 -> is_uint32 m -> is_uint32 t -> is_uint8 p ->
  ends_number junk1 -> ~ In splitChar junk1 ->
  ends_number junk2 -> ~ In splitChar junk2 ->
  Compare a password
    (padded v m t p junk1 junk2
            (base64.RawStdEncoding.EncodeToString salt)
            (base64.RawStdEncoding.EncodeToString key))
  = Compare a password
      (canonical v m t p (base64.RawStdEncoding.EncodeToString salt)
                         (base64.RawStdEncoding.EncodeToString key)).
Proof.
  intros Hv Hm Ht Hp He1 Hj1 He2 Hj2.
  rewrite Compare_canonical by assumption.
  unfold Compare.
  rewrite Split_padded by (assumption || apply EncodeToString_no_sep).
  cbn [len List.length nth algorithmIdx versionIdx paramsIdx saltIdx keyIdx].
  change (Z.of_nat 6 =? numParts) with true.
  change (bytes_eqb (str "argon2id") algorithm) with true.
  cbn [negb].
  rewrite Sscanf_version_rest by assumption.
  rewrite Sscanf_params_rest by assumption.
  rewrite !DecodeString_EncodeToString.
  cbn [nth]. reflexivity.
Qed.

Lemma junk_hash_padded :
  junk_hash
  = padded 19 65536 2 1 (str "abc") (str " and more")
      (base64.RawStdEncoding.EncodeToString (str "salt"))
      (base64.RawStdEncoding.EncodeToString (str "key")).
Proof. vm_compute. reflexivity. Qed.

(** "v=19abc" and "p=1 and more" verify like the well-formed example. *)
Lemma Compare_bytes_after_numbers_witness :
  Compare sample (str "super-secret") junk_hash
  = Compare sample (str "super-secret") good_hash.
Proof.
  rewrite junk_hash_padded, good_hash_canonical.
  apply (Compare_bytes_after_numbers sample (str "super-secret") 19 65536 2 1
           (str "abc") (str " and more") (str "salt") (str "key"));
    try uint_ranges; try reflexivity;
    apply not_In_str; reflexivity.
Defined.

(** ** [Compare]: costs that do not fit their types *)

(** A number too large for its target stops the scan. *)
Lemma scanUint_overflow (bitSize u : Z) (rest : gostring) :
  0 <= bitSize <= 64 -> 2 ^ bitSize <= u -> ends_number rest ->
  exists e, fmt.scanUint bitSize (fmt.fmtInteger u ++ rest) = fmt.Err e.
Proof.
  intros Hb Hu Hrest.
  assert (Hu0 : 0 <= u).
  { pose proof (Z.pow_pos_nonneg 2 bitSize ltac:(lia) ltac:(lia)). lia. }
  unfold fmt.scanUint.
  rewrite SkipSpace_fmtInteger by assumption.
  destruct (fmtInteger_spec u Hu0) as (Hne & Hdig & Hval).
  assert (HnotEOF : fmt.notEOF (fmt.fmtInteger u ++ rest)
                    = fmt.Ok tt (fmt.fmtInteger u ++ rest)).
  { destruct (fmt.fmtInteger u); [congruence | reflexivity]. }
  rewrite HnotEOF, scanNumber_fmtInteger by assumption.
  unfold fmt.ParseUint. rewrite Hdig, Hval.
  destruct (fmt.fmtInteger u); [congruence|].
  destruct (Z.ltb_spec u (2 ^ 64)); [|eauto].
  destruct (Z.ltb_spec u (2 ^ bitSize)); [lia | eauto].
Qed.

Lemma doScanf_Verb_d_overflow (f : fmt.format) (t : fmt.target)
      (ts : list fmt.target) (bitSize u : Z) (rest : gostring) :
  (t = fmt.Uint32Ptr /\ bitSize = 32) \/ (t = fmt.Uint8Ptr /\ bitSize = 8) ->
  2 ^ bitSize <= u -> ends_number rest ->
  exists e, fmt.doScanf (fmt.Verb_d :: f) (fmt.fmtInteger u ++ rest) (t :: ts)
            = inl e.
Proof.
  intros Ht Hu Hrest.
  assert (Hu0 : 0 <= u).
  { destruct Ht as [[_ ->]|[_ ->]]; simpl in Hu; lia. }
  cbn [fmt.doScanf]. rewrite SkipSpace_fmtInteger by assumption.
  destruct (scanUint_overflow bitSize u rest) as (e & He);
    [destruct Ht as [[_ ->]|[_ ->]]; lia | assumption | assumption |].
  destruct Ht as [[-> ->]|[-> ->]]; unfold fmt.scanOne; rewrite He; eauto.
Qed.

(** A cost in the string that does not fit its Go type ([uint32] for the
    memory and time costs, [uint8] for the parallelism) is not cut down to
    size: the scan fails and [Compare] returns that error under the
    prefix of the step, an error that is not [ErrMalformedHash]. *)
Theorem Compare_cost_out_of_range (a : Argon2Id) (password : bytes)
        (v m t p : Z) (b64Salt b64Key : gostring) :
  0 <= v < 2 ^ 63 -> 0 <= m -> 0 <= t -> 0 <= p ->
  ~ In splitChar b64Salt -> ~ In splitChar b64Key ->
  2 ^ 32 <= m \/ 2 ^ 32 <= t \/ 2 ^ 8 <= p ->
  exists e,
    Compare a password (canonical v m t p b64Salt b64Key)
    = Ret (Some (Wrapf "argon2id: scan params: " e))
    /\ errors_Is (Wrapf "argon2id: scan params: " e) ErrMalformedHash = false.
Proof.
  intros Hv Hm Ht Hp Hs Hk Hout.
  assert (Hscan : exists e,
             fmt.Sscanf (str "m=" ++ fmt.fmtInteger m ++ str ",t="
                         ++ fmt.fmtInteger t ++ str ",p=" ++ fmt.fmtInteger p)
                        paramsTemplate
                        [fmt.Uint32Ptr; fmt.Uint32Ptr; fmt.Uint8Ptr] = inl e).
  { unfold fmt.Sscanf, paramsTemplate.
    change (fmt.parse (str "m=%d,t=%d,p=%d"))
      with [fmt.Lit "m"; fmt.Lit "="; fmt.Verb_d;
            fmt.Lit ","; fmt.Lit "t"; fmt.Lit "="; fmt.Verb_d;
            fmt.Lit ","; fmt.Lit "p"; fmt.Lit "="; fmt.Verb_d].
    cbn [str list_ascii_of_string app]. rewrite !doScanf_Lit.
    destruct (Z.lt_ge_cases m (2 ^ 32)) as [Hm32|Hm32].
    2:{ apply (doScanf_Verb_d_overflow _ _ _ 32); auto. reflexivity. }
    rewrite doScanf_Verb_d; [ | assumption | split; assumption | reflexivity ].
    rewrite !doScanf_Lit.
    destruct (Z.lt_ge_cases t (2 ^ 32)) as [Ht32|Ht32].
    2:{ destruct (doScanf_Verb_d_overflow
                    [fmt.Lit ","; fmt.Lit "p"; fmt.Lit "="; fmt.Verb_d]
                    fmt.Uint32Ptr [fmt.Uint8Ptr] 32 t
                    (","%char :: "p"%char :: "="%char :: fmt.fmtInteger p))
          as (e & He); [auto | assumption | reflexivity |].
        exists e.
        exact (f_equal (fun r : error + list Z =>
                          match r with
                          | inl e1 => inl e1
                          | inr vs => inr (m :: vs)
                          end) He). }
    rewrite doScanf_Verb_d; [ | assumption | split; assumption | reflexivity ].
    rewrite !doScanf_Lit.
    assert (Hp8 : 2 ^ 8 <= p) by (destruct Hout as [?|[?|?]]; [lia | lia | assumption]).
    rewrite <- (app_nil_r (fmt.fmtInteger p)).
    destruct (doScanf_Verb_d_overflow [] fmt.Uint8Ptr [] 8 p [])
      as (e & He); [auto | assumption | exact I |].
    exists e.
    exact (f_equal (fun r : error + list Z =>
                      match
                        match r return error + list Z with
                        | inl e1 => inl e1
                        | inr vs => inr (t :: vs)
                        end
                      return error + list Z with
                      | inl e1 => inl e1
                      | inr vs => inr (m :: vs)
                      end) He). }
  destruct Hscan as (e & He). exists e. split.
  - unfold Compare. rewrite Split_canonical by assumption.
    unfold segments.
    cbn [len List.length nth algorithmIdx versionIdx paramsIdx saltIdx keyIdx].
    change (Z.of_nat 6 =? numParts) with true.
    change (bytes_eqb (str "argon2id") algorithm) with true.
    cbn [negb].
    rewrite Sscanf_version by assumption. rewrite He. reflexivity.
  - cbn [errors_Is error_eqb_head orb].
    apply (scanner_error_not_sentinel e). eapply doScanf_error. exact He.
Qed.

Lemma wide_hash_canonical :
  wide_hash = canonical 19 65536 2 256 (str "c2FsdA") (str "a2V5").
Proof. vm_compute. reflexivity. Qed.

(** A parallelism of 256 in the string. *)
Lemma Compare_cost_out_of_range_witness :
  exists e,
    Compare sample (str "super-secret") wide_hash
    = Ret (Some (Wrapf "argon2id: scan params: " e))
    /\ errors_Is (Wrapf "argon2id: scan params: " e) ErrMalformedHash = false.
Proof.
  rewrite wide_hash_canonical.
  apply (Compare_cost_out_of_range sample (str "super-secret") 19 65536 2 256);
    try uint_ranges; apply not_In_str; reflexivity.
Defined.

(** ** [Compare]: a salt or a key that is not base64 of the package *)

Lemma list_ind4 {A : Type} (P : list A -> Prop) :
  P [] -> (forall a, P [a]) -> (forall a b, P [a; b]) ->
  (forall a b c, P [a; b; c]) ->
  (forall a b c d rest, P rest -> P (a :: b :: c :: d :: rest)) ->
  forall l, P l.
Proof.
  intros H0 H1 H2 H3 H4.
  assert (H : forall l, P l /\ (forall a, P (a :: l))
                        /\ (forall a b, P (a :: b :: l))
                        /\ (forall a b c, P (a :: b :: c :: l))).
  { induction l as [|x l (IH0 & IH1 & IH2 & IH3)]; repeat split; auto. }
  intros l. apply H.
Qed.

(** One byte outside the alphabet makes the decoder fail. *)
Lemma decode_bad_byte (s : gostring) (c : byte) :
  In c s -> base64.decodeMap c = 255 ->
  base64.RawStdEncoding.Strict.decode s = None.
Proof.
  intros Hin Hc. revert Hin.
  induction s as [|c0|c0 c1|c0 c1 c2|c0 c1 c2 c3 rest IH] using list_ind4;
    intros Hin.
  - contradiction.
  - reflexivity.
  - cbn [base64.RawStdEncoding.Strict.decode].
    destruct Hin as [<-|[<-|[]]]; rewrite Hc;
      rewrite ?Z.eqb_refl, ?orb_true_r; reflexivity.
  - cbn [base64.RawStdEncoding.Strict.decode].
    destruct Hin as [<-|[<-|[<-|[]]]]; rewrite Hc;
      rewrite ?Z.eqb_refl, ?orb_true_r; reflexivity.
  - cbn [base64.RawStdEncoding.Strict.decode].
    destruct Hin as [<-|[<-|[<-|[<-|Hin]]]];
      try (rewrite Hc; rewrite ?Z.eqb_refl, ?orb_true_r; reflexivity).
    rewrite (IH Hin).
    destruct ((base64.decodeMap c0 =? 255) || (base64.decodeMap c1 =? 255)
              || (base64.decodeMap c2 =? 255) || (base64.decodeMap c3 =? 255));
      reflexivity.
Qed.

Lemma DecodeString_bad_byte (s : gostring) (c : byte) :
  In c s -> in_alphabet c = false -> c <> base64.CR -> c <> base64.LF ->
  base64.RawStdEncoding.Strict.DecodeString s = inl CorruptInputError.
Proof.
  intros Hin Hc Hcr Hlf. unfold base64.RawStdEncoding.Strict.DecodeString.
  rewrite (decode_bad_byte (base64.skip_newlines s) c); [reflexivity | |].
  - unfold base64.skip_newlines. apply filter_In. split; [assumption|].
    apply byte_eqb_neq in Hcr. apply byte_eqb_neq in Hlf.
    rewrite Hcr, Hlf. reflexivity.
  - unfold in_alphabet in Hc. apply negb_false_iff in Hc.
    apply Z.eqb_eq in Hc. exact Hc.
Qed.

(** A salt or key segment that holds a byte outside the standard alphabet
    (the padding sign [=], a byte of the URL alphabet, a space) is turned
    down with a decoding error before any key is derived: for the salt
    segment at once, for the key segment when the salt decoded. *)
Theorem Compare_not_base64 (a : Argon2Id) (password : bytes) (hash : gostring)
        (vs ps : list Z) (c : byte) :
  len (strings.Split hash splitChar) = numParts ->
  nth algorithmIdx (strings.Split hash splitChar) [] = algorithm ->
  fmt.Sscanf (nth versionIdx (strings.Split hash splitChar) [])
             versionTemplate [fmt.IntPtr] = inr vs ->
  fmt.Sscanf (nth paramsIdx (strings.Split hash splitChar) [])
             paramsTemplate [fmt.Uint32Ptr; fmt.Uint32Ptr; fmt.Uint8Ptr]
  = inr ps ->
  in_alphabet c = false -> c <> base64.CR -> c <> base64.LF ->
  (In c (nth saltIdx (strings.Split hash splitChar) []) ->
   Compare a password hash
   = Ret (Some (Wrapf "argon2id: decode salt: " CorruptInputError)))
  /\ (forall salt,
        base64.RawStdEncoding.Strict.DecodeString
          (nth saltIdx (strings.Split hash splitChar) []) = inr salt ->
        In c (nth keyIdx (strings.Split hash splitChar) []) ->
        Compare a password hash
        = Ret (Some (Wrapf "argon2id: decode key: " CorruptInputError))).
Proof.
  intros Hn Ha Hv Hp Hc Hcr Hlf.
  assert (Hhead :
             Compare a password hash
             = match base64.RawStdEncoding.Strict.DecodeString
                       (nth saltIdx (strings.Split hash splitChar) []) with
               | inl err => Ret (Some (Errorf "argon2id: decode salt: " err))
               | inr salt =>
                   match base64.RawStdEncoding.Strict.DecodeString
                           (nth keyIdx (strings.Split hash splitChar) []) with
                   | inl err => Ret (Some (Errorf "argon2id: decode key: " err))
                   | inr key =>
                       IDKeyCall (mkIDKeyArgs password salt (nth 1 ps 0)
                                    (nth 0 ps 0) (nth 2 ps 0) (uint32 (len key)))
                         (fun comparisonKey => Ret (compare_keys key comparisonKey))
                   end
               end).
  { unfold Compare.
    rewrite Hn, Ha, bytes_eqb_refl, Hv, Hp.
    change (numParts =? numParts) with true. reflexivity. }
  split.
  - intros Hin. rewrite Hhead.
    rewrite (DecodeString_bad_byte _ c Hin Hc Hcr Hlf). reflexivity.
  - intros salt Hs Hin. rewrite Hhead.
    rewrite Hs, (DecodeString_bad_byte _ c Hin Hc Hcr Hlf). reflexivity.
Qed.

(** The salt of the well-formed example with its padding written out. *)
Lemma Compare_not_base64_witness :
  Compare sample (str "super-secret") padded_salt_hash
  = Ret (Some (Wrapf "argon2id: decode salt: " CorruptInputError)).
Proof.
  destruct (Compare_not_base64 sample (str "super-secret") padded_salt_hash
              [19] [65536; 2; 1] "="%char
              eq_refl eq_refl eq_refl eq_refl eq_refl
              ltac:(discriminate) ltac:(discriminate)) as [Hsalt _].
  apply Hsalt. vm_compute. auto 10.
Defined.

(** ** The configurations the tests draw *)

(** On a host with at most 256 processors every configuration that the
    tests draw has fields of their Go types and costs the key derivation
    takes: a time cost from 1 to 7, a memory cost from 1024, a parallelism
    from 1 to 255, and salt and key lengths from 1 to 127. *)
Theorem test_config_in_domain (NumCPU r1 r2 r3 r4 r5 : Z) :
  1 <= NumCPU <= 256 ->
  0 <= r1 < 8 -> 0 <= r2 < 128 * 1024 -> 0 <= r3 < NumCPU ->
  0 <= r4 < 128 -> 0 <= r5 < 128 ->
  let a := newArgon2IdWithRandomConfig NumCPU r1 r2 r3 r4 r5 in
  wf a
  /\ 1 <= timeCost a <= 7
  /\ 1024 <= memoryCost a < 128 * 1024
  /\ 1 <= parallelismCost a <= 255
  /\ 1 <= saltLength a <= 127
  /\ 1 <= keyLength a <= 127.
Proof.
  intros Hn H1 H2 H3 H4 H5. cbv zeta.
  assert (E : newArgon2IdWithRandomConfig NumCPU r1 r2 r3 r4 r5
              = mkArgon2Id (uint32 (Z.max 1 r1)) (uint32 (Z.max 1024 r2))
                           (uint8 (Z.max 1 r3)) (uint32 (Z.max 1 r4))
                           (uint32 (Z.max 1 r5))) by reflexivity.
  rewrite E. unfold wf. cbn [timeCost memoryCost parallelismCost saltLength keyLength].
  unfold is_uint32, is_uint8, uint32, uint8.
  change (2 ^ 32) with 4294967296. change (2 ^ 8) with 256.
  rewrite !Z.mod_small by lia. lia.
Qed.

(** Draws on a host with 8 processors. *)
Lemma test_config_in_domain_witness :
  wf (newArgon2IdWithRandomConfig 8 0 0 0 0 0)
  /\ newArgon2IdWithRandomConfig 8 0 0 0 0 0 = mkArgon2Id 1 1024 1 1 1
  /\ newArgon2IdWithRandomConfig 8 7 131071 7 127 127
     = mkArgon2Id 7 131071 7 127 127.
Proof.
  destruct (test_config_in_domain 8 0 0 0 0 0) as (H & _); try lia.
  split; [exact H|]. split; reflexivity.
Defined.

(** Past 256 processors a draw can leave the domain: 256 becomes a
    parallelism of 0. *)
Example test_config_512_processors :
  parallelismCost (newArgon2IdWithRandomConfig 512 1 1024 256 16 32) = 0.
Proof. reflexivity. Qed.

(** * Properties that rest on the whole of [Compare] *)

(** ** The key derivation: known answers *)

(** BLAKE2b-512 of "abc" (RFC 7693, appendix A). *)
Lemma Sum_abc :
  be_value (blake2b.Sum 64 (map byte_to_Z (str "abc")))
  = 0xba80a53f981c4d0d6a2797b69f12f6e94c212f14685ac4b74b12bb6fdbffa2d17d87c5392aab792dc252d5de4533cc9518d38aa8dbf1925ab92386edd4009923.
Proof. vm_compute. reflexivity. Qed.

(** The Argon2id test vector of RFC 9106, section 5.3: 3 passes, 32 KiB,
    4 lanes, a tag of 32 bytes, with a secret and associated data. *)
Lemma deriveKey_rfc9106 :
  option_map be_value
    (xargon2.deriveKey xargon2.argon2id (repeat 1 32) (repeat 2 16)
                       (repeat 3 8) (repeat 4 12) 3 32 4 32)
  = Some 0x0d640df58d78766c08c037a34a8b53c9d01ef0452d75b65eb52520e96b01e659.
Proof. vm_compute. reflexivity. Qed.

(** A vector of the tests of the library: [argon2.IDKey] on "password" and
    "somesalt" with 1 pass, 64 KiB, 1 thread and a key of 24 bytes. *)
Lemma IDKey_bytes_known_answer :
  option_map (fun key => (len key, be_value (map byte_to_Z key)))
    (IDKey_bytes (mkIDKeyArgs (str "password") (str "somesalt") 1 64 1 24))
  = Some (24, 0x655ad15eac652dc59f7170a7332bf49b8469be1fdb9c28bb).
Proof. vm_compute. reflexivity. Qed.

(** The library has no key of length 0 to give: [blake2b.New] refuses the
    size 0, and the nil digest it leaves is written to. *)
Lemma IDKey_bytes_zero_length (args : IDKeyArgs) :
  kdf_keyLen args = 0 -> IDKey_bytes args = None.
Proof.
  intros H. unfold IDKey_bytes, xargon2.deriveKey.
  destruct (kdf_time args <? 1); [reflexivity|].
  destruct (kdf_threads args <? 1); [reflexivity|].
  cbv zeta. unfold xargon2.extractKey. cbv zeta.
  unfold xargon2.blake2bHash at 1. rewrite H.
  reflexivity.
Qed.

(** ** C3: a wrong password that is accepted *)

(** C3 as stated fails.  With the Argon2id of the library, a time cost of
    1, 8 KiB of memory, one thread and the salt 01 02, the passwords "e"
    and "k" derive the same one-byte key FA: [Generate] writes
    [collision_hash] for "e", and [Compare] returns [nil] for "k" and that
    string. *)
Lemma wrong_password_accepted :
  str "e" <> str "k"
  /\ wf tiny
  /\ run crypto_world (Generate tiny (str "e")) = Some (collision_hash, None)
  /\ run crypto_world (Compare tiny (str "k") collision_hash) = Some None.
Proof.
  split; [discriminate|]. split; [exact wf_tiny|].
  split; vm_compute; reflexivity.
Qed.

(** ** C7: [Compare] returns, and what it returns *)

(** C7, as the code has it.  [Compare] returns control whenever the call
    of the key derivation that it makes, if it makes one, returns.  What
    it returns is fixed by its steps, none of whose errors is swallowed:
    the error of the first step that fails, under the prefix of that step,
    and then the program is a plain return with no call of the key
    derivation in it; or, when every step passes, [nil] if the key
    derivation returns the stored key and the mismatch error if it returns
    another one. *)
Theorem Compare_returns (w : World) (a : Argon2Id) (password : bytes)
        (hash : gostring) :
  (forall args k, Compare a password hash = IDKeyCall args k ->
                  argon2.IDKey w args <> None) ->
  exists called r,
    run w (Compare a password hash) = Some r
    /\ Compare_outcome w password hash called r
    /\ (called = false -> Compare a password hash = Ret r)
    /\ (called = true ->
        exists args k, Compare a password hash = IDKeyCall args k).
Proof.
  intros Hret.
  destruct (Compare_shape a password hash)
    as [Hn E | Hn Ha E | e Hn Ha Hv E | vs e Hn Ha Hv Hp E
        | vs ps e Hn Ha Hv Hp Hs E | vs ps salt e Hn Ha Hv Hp Hs Hk E
        | vs ps salt key Hn Ha Hv Hp Hs Hk E].
  - exists false. eexists. rewrite E. split; [reflexivity|].
    split; [apply out_parts; assumption|]. split; [reflexivity | discriminate].
  - exists false. eexists. rewrite E. split; [reflexivity|].
    split; [apply out_algorithm; assumption|]. split; [reflexivity | discriminate].
  - exists false. eexists. rewrite E. split; [reflexivity|].
    split; [apply out_version; assumption|]. split; [reflexivity | discriminate].
  - exists false. eexists. rewrite E. split; [reflexivity|].
    split; [eapply out_params; eassumption|]. split; [reflexivity | discriminate].
  - exists false. eexists. rewrite E. split; [reflexivity|].
    split; [eapply out_salt; eassumption|]. split; [reflexivity | discriminate].
  - exists false. eexists. rewrite E. split; [reflexivity|].
    split; [eapply out_key; eassumption|]. split; [reflexivity | discriminate].
  - specialize (Hret _ _ E).
    destruct (argon2.IDKey w (mkIDKeyArgs password salt (nth 1 ps 0) (nth 0 ps 0)
                                          (nth 2 ps 0) (uint32 (len key))))
      as [ck|] eqn:Hc; [|contradiction].
    exists true, (compare_keys key ck). rewrite E. cbn [run]. rewrite Hc.
    split; [reflexivity|]. split.
    + rewrite compare_keys_spec. destruct (bytes_eqb key ck) eqn:Eb.
      * apply bytes_eqb_eq in Eb. subst ck. eapply out_nil; eassumption.
      * eapply out_mismatch; try eassumption.
        intros ->. rewrite bytes_eqb_refl in Eb. discriminate.
    + split; [discriminate|]. intros _. do 2 eexists. reflexivity.
Qed.

(** On the well-formed example in [toy_world]: the key derivation is
    called, and [Compare] returns. *)
Lemma Compare_returns_witness :
  exists called r,
    run toy_world (Compare sample (str "super-secret") good_hash) = Some r
    /\ Compare_outcome toy_world (str "super-secret") good_hash called r
    /\ (called = false
        -> Compare sample (str "super-secret") good_hash = Ret r)
    /\ (called = true ->
        exists args k,
          Compare sample (str "super-secret") good_hash = IDKeyCall args k).
Proof.
  apply (Compare_returns toy_world sample (str "super-secret") good_hash).
  intros args k H. rewrite Compare_good_hash in H. inversion H.
  vm_compute. discriminate.
Defined.

(** ** C8: the final comparison, and what it shows *)

(** [Compare] and [Compare_observed] go the same way: both stop at the same
    step with the same error, or both call the key derivation with the
    same arguments and go on with the comparison against the same stored
    key. *)
Lemma Compare_observed_shape (a : Argon2Id) (password : bytes)
      (hash : gostring) :
  (exists e, Compare a password hash = Ret (Some e)
             /\ Compare_observed a password hash = Ret (Some e, []))
  \/ (exists args key,
        base64.RawStdEncoding.Strict.DecodeString
          (nth keyIdx (strings.Split hash splitChar) []) = inr key
        /\ Compare a password hash
           = IDKeyCall args (fun comparisonKey =>
                               Ret (compare_keys key comparisonKey))
        /\ Compare_observed a password hash
           = IDKeyCall args (fun comparisonKey =>
                               Ret (compare_keys_observed key comparisonKey))).
Proof.
  unfold Compare, Compare_observed.
  destruct (negb (len (strings.Split hash splitChar) =? numParts));
    [left; eexists; split; reflexivity|].
  destruct (negb (bytes_eqb (nth algorithmIdx (strings.Split hash splitChar) [])
                            algorithm));
    [left; eexists; split; reflexivity|].
  destruct (fmt.Sscanf (nth versionIdx (strings.Split hash splitChar) [])
                       versionTemplate [fmt.IntPtr]) as [e|vs];
    [left; eexists; split; reflexivity|].
  destruct (fmt.Sscanf (nth paramsIdx (strings.Split hash splitChar) [])
                       paramsTemplate
                       [fmt.Uint32Ptr; fmt.Uint32Ptr; fmt.Uint8Ptr]) as [e|ps];
    [left; eexists; split; reflexivity|].
  destruct (base64.RawStdEncoding.Strict.DecodeString
              (nth saltIdx (strings.Split hash splitChar) [])) as [e|salt];
    [left; eexists; split; reflexivity|].
  destruct (base64.RawStdEncoding.Strict.DecodeString
              (nth keyIdx (strings.Split hash splitChar) [])) as [e|key] eqn:Hk;
    [left; eexists; split; reflexivity|].
  right. do 2 eexists. split; [reflexivity|]. split; reflexivity.
Qed.

(** Dropping the observations of [Compare_observed] gives [Compare]. *)
Lemma Compare_observed_erase (a : Argon2Id) (password : bytes)
      (hash : gostring) :
  Prog_map fst (Compare_observed a password hash) = Compare a password hash.
Proof.
  destruct (Compare_observed_shape a password hash)
    as [(e & E1 & E2) | (args & key & _ & E1 & E2)];
    rewrite E1, E2; reflexivity.
Qed.

(** C8.  The last step of [Compare] is one run of
    [subtle.ConstantTimeCompare] on the decoded stored key and the
    recomputed key: [nil] when the two are equal, the mismatch error when
    they are not.  Observed, that step of [Compare] does not stop early:
    on keys of equal length it reads every index, and what [Compare]
    shows there of control flow and memory addresses is the same for any
    two runs whose stored keys have the same length and whose recomputed
    keys have the same length, whatever the bytes of the keys, the
    passwords and the strings are. *)
Theorem Compare_final_comparison (a : Argon2Id) (password : bytes)
        (hash : gostring) (args : IDKeyArgs) (k : bytes -> Prog (option error)) :
  Compare a password hash = IDKeyCall args k ->
  exists key k',
    base64.RawStdEncoding.Strict.DecodeString
      (nth keyIdx (strings.Split hash splitChar) []) = inr key
    /\ Compare_observed a password hash = IDKeyCall args k'
    /\ Prog_map fst (Compare_observed a password hash) = Compare a password hash
    /\ forall comparisonKey,
       exists r obs,
         k' comparisonKey = Ret (r, obs)
         /\ k comparisonKey = Ret r
         /\ r = (if subtle.ConstantTimeCompare key comparisonKey =? matching
                 then None else Some mismatch)
         /\ subtle.ConstantTimeCompare_run key comparisonKey
            = (match r with None => 1 | Some _ => 0 end, obs)
         /\ (key = comparisonKey -> r = None)
         /\ (key <> comparisonKey -> r = Some mismatch)
         /\ (List.length key = List.length comparisonKey ->
             obs = subtle.Branch false :: full_scan 0 (List.length key))
         /\ (forall a2 password2 hash2 args2 k2 key2 comparisonKey2,
               Compare_observed a2 password2 hash2 = IDKeyCall args2 k2 ->
               base64.RawStdEncoding.Strict.DecodeString
                 (nth keyIdx (strings.Split hash2 splitChar) []) = inr key2 ->
               List.length key2 = List.length key ->
               List.length comparisonKey2 = List.length comparisonKey ->
               exists r2, k2 comparisonKey2 = Ret (r2, obs)).
Proof.
  intros H.
  destruct (Compare_observed_shape a password hash)
    as [(e & E1 & _) | (args0 & key & Hk & E1 & E2)];
    rewrite E1 in H; [discriminate|].
  inversion H; subst args0 k. clear H.
  exists key, (fun comparisonKey => Ret (compare_keys_observed key comparisonKey)).
  split; [exact Hk|]. split; [exact E2|].
  split; [apply Compare_observed_erase|].
  intros ck.
  exists (compare_keys key ck), (snd (subtle.ConstantTimeCompare_run key ck)).
  split; [reflexivity|]. split; [reflexivity|]. split; [reflexivity|].
  split; [|split; [|split; [|split]]].
  - rewrite compare_keys_spec.
    pose proof (ConstantTimeCompare_spec key ck) as Hs.
    unfold subtle.ConstantTimeCompare in Hs.
    destruct (subtle.ConstantTimeCompare_run key ck) as [v obs].
    cbn [fst snd] in *. subst v.
    destruct (bytes_eqb key ck); reflexivity.
  - intros <-. rewrite compare_keys_spec, bytes_eqb_refl. reflexivity.
  - intros Hne. rewrite compare_keys_spec.
    destruct (bytes_eqb key ck) eqn:E; [|reflexivity].
    apply bytes_eqb_eq in E. contradiction.
  - apply ConstantTimeCompare_full_scan.
  - intros a2 password2 hash2 args2 k2 key2 ck2 E' Hk2 L1 L2.
    destruct (Compare_observed_shape a2 password2 hash2)
      as [(e & _ & E2') | (args2' & key2' & Hk2' & _ & E2')];
      rewrite E2' in E'; [discriminate|].
    inversion E'; subst args2' k2. clear E'.
    rewrite Hk2 in Hk2'. inversion Hk2'; subst key2'. clear Hk2'.
    exists (compare_keys key2 ck2).
    unfold compare_keys_observed. cbv zeta.
    rewrite (ConstantTimeCompare_leak key2 key ck2 ck L1 L2). reflexivity.
Qed.

(** On the well-formed example: "key" is accepted, "kex" is not, and the
    run of [Compare] that turns "kex" away still reads all three
    indices. *)
Lemma Compare_final_comparison_witness :
  exists args k k',
    Compare sample (str "super-secret") good_hash = IDKeyCall args k
    /\ Compare_observed sample (str "super-secret") good_hash
       = IDKeyCall args k'
    /\ k (str "key") = Ret None
    /\ k (str "kex") = Ret (Some mismatch)
    /\ k' (str "kex")
       = Ret (Some mismatch,
              [subtle.Branch false;
               subtle.Branch true; subtle.Index 0;
               subtle.Branch true; subtle.Index 1;
               subtle.Branch true; subtle.Index 2;
               subtle.Branch false]).
Proof.
  destruct (Compare_final_comparison sample (str "super-secret") good_hash
              _ _ (Compare_good_hash sample (str "super-secret")))
    as (key & k' & Hk & E & _ & H).
  assert (Ekey : key = str "key").
  { vm_compute in Hk. inversion Hk. reflexivity. }
  subst key.
  do 2 eexists. exists k'. split; [apply Compare_good_hash|].
  split; [exact E|].
  destruct (H (str "key")) as (r1 & o1 & _ & K1 & _ & _ & Heq & _).
  destruct (H (str "kex")) as (r2 & o2 & K2' & K2 & _ & _ & _ & Hne & Hscan & _).
  rewrite (Heq eq_refl) in K1.
  rewrite (Hne ltac:(discriminate)) in K2, K2'.
  rewrite (Hscan eq_refl) in K2'.
  split; [exact K1|]. split; [exact K2|]. exact K2'.
Defined.

(** ** [Compare]: what becomes of a record without a key *)

(** A string whose key segment is empty makes [Compare] ask the key
    derivation for a key of length 0.  Where the key derivation has no
    such key to give, as that of the library has not, the call does not
    return, and neither does [Compare], whatever the password is. *)
Theorem Compare_empty_key (w : World) (a : Argon2Id) (password : bytes)
        (v m t p : Z) (salt : bytes) :
  0 <= v < 2 ^ 63 -> is_uint32 m -> is_uint32 t -> is_uint8 p ->
  (forall args, kdf_keyLen args = 0 -> derive w args = None) ->
  run w (Compare a password
           (canonical v m t p (base64.RawStdEncoding.EncodeToString salt)
                      (base64.RawStdEncoding.EncodeToString [])))
  = None.
Proof.
  intros Hv Hm Ht Hp Hz. rewrite Compare_canonical by assumption.
  change (uint32 (len (@nil byte))) with 0. cbn [run].
  unfold argon2.IDKey. cbn [kdf_time kdf_threads].
  destruct (t <? 1); [reflexivity|]. destruct (p <? 1); [reflexivity|].
  rewrite Hz by reflexivity. reflexivity.
Qed.

(** With the key derivation of the library, on the record without a
    key. *)
Lemma Compare_empty_key_witness :
  run crypto_world (Compare sample (str "anything") keyless_hash) = None.
Proof.
  rewrite keyless_hash_canonical.
  apply (Compare_empty_key crypto_world sample (str "anything") 19 8 1 1
           [byte_of_Z 1; byte_of_Z 2]
           ltac:(uint_ranges) ltac:(uint_ranges) ltac:(uint_ranges)
           ltac:(uint_ranges)).
  exact IDKey_bytes_zero_length.
Defined.

(** ** [Compare]: a newline after the string *)

(** A newline, or a carriage return and a newline, after the string (as a
    line read from a file has it) changes nothing in what [Compare] does,
    unless [Compare] fails at decoding the key: the byte lands in the key
    segment, where the decoder steps over it.  (The error of a key that
    does not decode tells where the decoder stopped, which such a byte
    can move.) *)
Theorem Compare_trailing_newline (a : Argon2Id) (password : bytes)
        (hash : gostring) :
  (forall e, Compare a password hash
             <> Ret (Some (Wrapf "argon2id: decode key: " e))) ->
  Compare a password (hash ++ [base64.LF]) = Compare a password hash
  /\ Compare a password (hash ++ [base64.CR; base64.LF])
     = Compare a password hash.
Proof.
  intros _. split.
  - apply Compare_newline_byte. right. reflexivity.
  - change (hash ++ [base64.CR; base64.LF])
      with (hash ++ [base64.CR] ++ [base64.LF]).
    rewrite app_assoc.
    rewrite Compare_newline_byte by (right; reflexivity).
    apply Compare_newline_byte. left. reflexivity.
Qed.

(** The well-formed example, as the line of a file. *)
Lemma Compare_trailing_newline_witness :
  Compare sample (str "super-secret") (good_hash ++ [base64.LF])
  = Compare sample (str "super-secret") good_hash
  /\ Compare sample (str "super-secret") (good_hash ++ [base64.CR; base64.LF])
     = Compare sample (str "super-secret") good_hash.
Proof.
  apply (Compare_trailing_newline sample (str "super-secret") good_hash).
  intros e H. rewrite Compare_good_hash in H. discriminate H.
Defined.
